(** * Gophercloud: authentication flow, service clients and subnet requests

    A shallow embedding of
      - [openstack/client.go] (package [openstack]): [Authenticate],
        [v2auth], [v3auth], [NewIdentityV2], [NewIdentityV3],
        [initClientOpts] and the service-client constructors built on it;
      - [openstack/networking/v2/subnets/requests.go]: [ToSubnetCreateMap],
        [ToSubnetUpdateMap] and [Update].

    Go pointers to provider clients are locations in a heap (a list indexed by
    location), Go closures stored in provider fields are defunctionalised into
    records of their captured variables, a Go [error] is a message string with
    [None] for [nil], and a run-time panic is an explicit outcome. *)

From stdpp Require Import gmap strings list fin_maps pretty.

#[local] Set Warnings "-register-all".
#[local] Open Scope string_scope.

(** ** Package gophercloud: the shared vocabulary *)

Module Gophercloud.

(** A Go [error] value: its message. A [nil] error is [None]. *)
Definition error := string.

(** The pair [(T, error)] returned by fallible Go functions. *)
Inductive Result (A : Type) :=
| Ok (a : A)
| Err (e : error).
Arguments Ok {A} a.
Arguments Err {A} e.

(** A Go value of type [any] as produced by decoding JSON: [JNull] is the
    [nil] interface. *)
Inductive any :=
| JNull
| JBool (b : bool)
| JNumber (n : Z)
| JString (s : string)
| JArray (l : list any)
| JObject (m : gmap string any).

(** Indexing a [map[string]any]: a missing key reads as the [nil] interface. *)
Definition index (m : gmap string any) (k : string) : any :=
  default JNull (m !! k).

(** [v == s] for an interface value [v] and a string constant [s]: true only
    when the dynamic type is string and the contents agree. *)
Definition any_eq_string (v : any) (s : string) : bool :=
  match v with
  | JString s' => bool_decide (s' = s)
  | _ => false
  end.

(** Modelled from the spec: [gophercloud.EndpointOpts] is declared outside the
    files embedded here. The fields are the service type, name, region and
    interface preference of the spec's endpoint resolution, and the major
    [Version] that [initClientOpts] reads and writes. *)
Record EndpointOpts := {
  eoType : string;
  eoName : string;
  eoRegion : string;
  eoAvailability : string;
  eoVersion : Z
}.

#[export] Instance EndpointOpts_eq_dec : EqDecision EndpointOpts.
Proof. solve_decision. Defined.

(** [gophercloud.EndpointOpts{}] *)
Definition EndpointOpts_zero : EndpointOpts :=
  {| eoType := ""; eoName := ""; eoRegion := ""; eoAvailability := "";
     eoVersion := 0 |}.

(** Modelled from the spec: [EndpointOpts.ApplyDefaults] is defined outside
    the files embedded here. Following the spec's "apply default filtering when
    the caller under-specifies (e.g., default interface = public)", it fills
    in the service type and the public interface when they are empty and
    leaves every other field as the caller set it. *)
Definition ApplyDefaults (t : string) (eo : EndpointOpts) : EndpointOpts :=
  {| eoType := if decide (eoType eo = "") then t else eoType eo;
     eoName := eoName eo;
     eoRegion := eoRegion eo;
     eoAvailability :=
       if decide (eoAvailability eo = "") then "public" else eoAvailability eo;
     eoVersion := eoVersion eo |}.

(** A pointer to a [ProviderClient]: a location in the heap of provider
    clients. *)
Definition loc := nat.

(** Modelled from the spec: [gophercloud.ServiceClient] is declared outside
    the files embedded here; these are the fields client.go assigns.
    [scProviderClient] is the embedded pointer to the provider client, the
    "shared provider state" of the spec; [None] is [nil]. *)
Record ServiceClient := {
  scProviderClient : option loc;
  scEndpoint : string;
  scResourceBase : string;
  scType : string;
  scMoreHeaders : option (gmap string string)
}.

(** [new(gophercloud.ServiceClient)]: the zero value. *)
Definition ServiceClient_zero : ServiceClient :=
  {| scProviderClient := None; scEndpoint := ""; scResourceBase := "";
     scType := ""; scMoreHeaders := None |}.

End Gophercloud.

(** ** Package subnets: request bodies and the conditional update *)

Module Subnets.
Import Gophercloud.

(** [CreateOpts]. A Go [*T] is an [option T]; a slice is a list. The elements
    of [AllocationPools] and [HostRoutes] have types declared outside the
    files embedded here and are carried as their JSON encodings. *)
Record CreateOpts := {
  coNetworkID : string;
  coCIDR : string;
  coName : string;
  coDescription : string;
  coTenantID : string;
  coProjectID : string;
  coAllocationPools : list any;
  coGatewayIP : option string;
  coIPVersion : Z;
  coEnableDHCP : option bool;
  coDNSNameservers : list string;
  coDNSPublishFixedIP : option bool;
  coServiceTypes : list string;
  coHostRoutes : list any;
  coIPv6AddressMode : string;
  coIPv6RAMode : string;
  coSubnetPoolID : string;
  coPrefixlen : Z;
  coSegmentID : string
}.

(** [UpdateOpts]. *)
Record UpdateOpts := {
  uoName : option string;
  uoDescription : option string;
  uoAllocationPools : list any;
  uoGatewayIP : option string;
  uoDNSNameservers : option (list string);
  uoDNSPublishFixedIP : option bool;
  uoServiceTypes : option (list string);
  uoHostRoutes : option (list any);
  uoEnableDHCP : option bool;
  uoRevisionNumber : option Z;
  uoSegmentID : option string
}.

(** *** Encoding of struct fields by their json tags *)

(** A string field tagged [omitempty]: left out when empty. *)
Definition omit_string (s : string) : option any :=
  if decide (s = "") then None else Some (JString s).

(** An int field tagged [omitempty]: left out when zero. *)
Definition omit_int (n : Z) : option any :=
  if decide (n = 0%Z) then None else Some (JNumber n).

(** A slice field tagged [omitempty]: left out when it has no element. *)
Definition omit_slice {A} (enc : A → any) (l : list A) : option any :=
  match l with
  | [] => None
  | _ => Some (JArray (enc <$> l))
  end.

(** A pointer field tagged [omitempty]: left out only when [nil]. *)
Definition omit_ptr {A} (enc : A → any) (p : option A) : option any :=
  enc <$> p.

Definition enc_strings (l : list string) : any := JArray (JString <$> l).
Definition enc_anys (l : list any) : any := JArray l.

(** The object built from the fields that are not left out; a later field
    with the same key would win, as in Go (there is none here). *)
Definition object_of (fields : list (string * option any)) : gmap string any :=
  foldl (λ m kv, match kv.2 with
                 | Some v => <[kv.1 := v]> m
                 | None => m
                 end) ∅ fields.

Definition CreateOpts_fields (opts : CreateOpts) : list (string * option any) :=
  [ ("network_id", Some (JString (coNetworkID opts)));
    ("cidr", omit_string (coCIDR opts));
    ("name", omit_string (coName opts));
    ("description", omit_string (coDescription opts));
    ("tenant_id", omit_string (coTenantID opts));
    ("project_id", omit_string (coProjectID opts));
    ("allocation_pools", omit_slice id (coAllocationPools opts));
    ("gateway_ip", omit_ptr JString (coGatewayIP opts));
    ("ip_version", omit_int (coIPVersion opts));
    ("enable_dhcp", omit_ptr JBool (coEnableDHCP opts));
    ("dns_nameservers", omit_slice JString (coDNSNameservers opts));
    ("dns_publish_fixed_ip", omit_ptr JBool (coDNSPublishFixedIP opts));
    ("service_types", omit_slice JString (coServiceTypes opts));
    ("host_routes", omit_slice id (coHostRoutes opts));
    ("ipv6_address_mode", omit_string (coIPv6AddressMode opts));
    ("ipv6_ra_mode", omit_string (coIPv6RAMode opts));
    ("subnetpool_id", omit_string (coSubnetPoolID opts));
    ("prefixlen", omit_int (coPrefixlen opts));
    ("segment_id", omit_string (coSegmentID opts)) ].

Definition UpdateOpts_fields (opts : UpdateOpts) : list (string * option any) :=
  [ ("name", omit_ptr JString (uoName opts));
    ("description", omit_ptr JString (uoDescription opts));
    ("allocation_pools", omit_slice id (uoAllocationPools opts));
    ("gateway_ip", omit_ptr JString (uoGatewayIP opts));
    ("dns_nameservers", omit_ptr enc_strings (uoDNSNameservers opts));
    ("dns_publish_fixed_ip", omit_ptr JBool (uoDNSPublishFixedIP opts));
    ("service_types", omit_ptr enc_strings (uoServiceTypes opts));
    ("host_routes", omit_ptr enc_anys (uoHostRoutes opts));
    ("enable_dhcp", omit_ptr JBool (uoEnableDHCP opts));
    ("segment_id", omit_ptr JString (uoSegmentID opts)) ].

(** The value a list of tagged fields gives to key [k]: the last field of
    that name that is not left out, [acc] when there is none. *)
Fixpoint field_value (fields : list (string * option any)) (k : string)
    (acc : option any) : option any :=
  match fields with
  | [] => acc
  | (k', o) :: fs =>
      field_value fs k
        (if decide (k' = k)
         then match o with Some v => Some v | None => acc end
         else acc)
  end.

(** The entry a request body is to have under ["gateway_ip"] for the
    pointer [gw]: none for [nil], null for the empty string, the address
    otherwise. *)
Definition gateway_entry (gw : option string) : option any :=
  match gw with
  | None => None
  | Some s => if decide (s = "") then Some JNull else Some (JString s)
  end.

(** Modelled from the spec: [gophercloud.BuildRequestBody] is defined outside
    the files embedded here. The spec calls request bodies "mechanical mappings
    between a struct and wire-level JSON"; the mapping is read off the json
    tags of the struct declarations in requests.go: a field goes under its tag
    name, [omitempty] drops empty values and [nil] pointers, ["-"] drops the
    field, a field tagged [required] must not be empty, and the object is
    wrapped under the parent key. *)
Definition BuildRequestBody_create (opts : CreateOpts) (parent : string)
  : Result (gmap string any) :=
  if decide (coNetworkID opts = "")
  then Err "Missing input for argument [NetworkID]"
  else Ok {[ parent := JObject (object_of (CreateOpts_fields opts)) ]}.

(** Modelled from the spec: see [BuildRequestBody_create]; [UpdateOpts] has
    no required field. *)
Definition BuildRequestBody_update (opts : UpdateOpts) (parent : string)
  : Result (gmap string any) :=
  Ok {[ parent := JObject (object_of (UpdateOpts_fields opts)) ]}.

(** The tail shared by [ToSubnetCreateMap] and [ToSubnetUpdateMap]:
<<
    if m := b["subnet"].(map[string]any); m["gateway_ip"] == "" {
        m["gateway_ip"] = nil
    }
>>
    [m] aliases the object stored under ["subnet"], so the assignment shows
    in [b]. The type assertion panics on anything but an object. *)
Definition null_empty_gateway (b : gmap string any) : option (gmap string any) :=
  match index b "subnet" with
  | JObject m =>
      if any_eq_string (index m "gateway_ip") ""
      then Some (<["subnet" := JObject (<["gateway_ip" := JNull]> m)]> b)
      else Some b
  | _ => None
  end.

(** Outcome of a body builder: a body, an error, or a panic of the type
    assertion. *)
Inductive BodyResult :=
| Body (b : gmap string any)
| BodyErr (e : error)
| BodyPanic.

(** [func (opts CreateOpts) ToSubnetCreateMap() (map[string]any, error)] *)
Definition ToSubnetCreateMap (opts : CreateOpts) : BodyResult :=
  match BuildRequestBody_create opts "subnet" with
  | Err e => BodyErr e
  | Ok b =>
      match null_empty_gateway b with
      | Some b' => Body b'
      | None => BodyPanic
      end
  end.

(** [func (opts UpdateOpts) ToSubnetUpdateMap() (map[string]any, error)] *)
Definition ToSubnetUpdateMap (opts : UpdateOpts) : BodyResult :=
  match BuildRequestBody_update opts "subnet" with
  | Err e => BodyErr e
  | Ok b =>
      match null_empty_gateway b with
      | Some b' => Body b'
      | None => BodyPanic
      end
  end.

(** Modelled from the spec: [gophercloud.BuildHeaders] is defined outside the
    files embedded here. [RevisionNumber *int] is the only field of [UpdateOpts]
    with an [h] tag, ["If-Match"]; following the spec's "If-Match with a
    revision-number-derived value", the header is present exactly when the
    pointer is not [nil] and carries the number in decimal. *)
Definition BuildHeaders (opts : UpdateOpts) : Result (gmap string string) :=
  Ok match uoRevisionNumber opts with
     | Some n => {[ "If-Match" := pretty n ]}
     | None => ∅
     end.

(** The loop of [Update] over the header map:
<<
    for k := range h {
        if k == "If-Match" {
            h[k] = fmt.Sprintf("revision_number=%s", h[k])
        }
    }
>> *)
Definition rewrite_if_match (h : gmap string string) : gmap string string :=
  map_imap (λ k v, Some (if decide (k = "If-Match")
                         then "revision_number=" +:+ v
                         else v)) h.

(** The HTTP request handed to [c.Put]. *)
Record PutRequest := {
  putURL : string;
  putBody : gmap string any;
  putMoreHeaders : gmap string string;
  putOkCodes : list Z
}.

(** What [Update] does: fail before any request, panic, or send one [PUT]. *)
Inductive UpdateOutcome :=
| UpdateErr (e : error)
| UpdatePanic
| UpdateSent (r : PutRequest).

(** [func Update(ctx, c, id, opts) (r UpdateResult)], up to the call of
    [c.Put]. [updateURL] is defined outside the files embedded here and is taken
    as given. *)
Definition Update (updateURL : ServiceClient → string → string)
    (c : ServiceClient) (id : string) (opts : UpdateOpts) : UpdateOutcome :=
  match ToSubnetUpdateMap opts with
  | BodyErr e => UpdateErr e
  | BodyPanic => UpdatePanic
  | Body b =>
      match BuildHeaders opts with
      | Err e => UpdateErr e
      | Ok h =>
          let h := rewrite_if_match h in
          UpdateSent {| putURL := updateURL c id;
                        putBody := b;
                        putMoreHeaders := h;
                        putOkCodes := [200; 201]%Z |}
      end
  end.

(** The HTTP request handed to [c.Post]. *)
Record PostRequest := {
  postURL : string;
  postBody : gmap string any
}.

(** What [Create] does: fail before any request, panic, or send one
    [POST]. *)
Inductive CreateOutcome :=
| CreateErr (e : error)
| CreatePanic
| CreateSent (r : PostRequest).

(** [func Create(ctx, c, opts) (r CreateResult)], up to the call of
    [c.Post]. [createURL] is defined outside the files embedded here and is
    taken as given. *)
Definition Create (createURL : ServiceClient → string)
    (c : ServiceClient) (opts : CreateOpts) : CreateOutcome :=
  match ToSubnetCreateMap opts with
  | BodyErr e => CreateErr e
  | BodyPanic => CreatePanic
  | Body b => CreateSent {| postURL := createURL c; postBody := b |}
  end.

(** [opts] with another [RevisionNumber]. *)
Definition with_RevisionNumber (n : option Z) (opts : UpdateOpts)
  : UpdateOpts :=
  {| uoName := uoName opts; uoDescription := uoDescription opts;
     uoAllocationPools := uoAllocationPools opts;
     uoGatewayIP := uoGatewayIP opts;
     uoDNSNameservers := uoDNSNameservers opts;
     uoDNSPublishFixedIP := uoDNSPublishFixedIP opts;
     uoServiceTypes := uoServiceTypes opts;
     uoHostRoutes := uoHostRoutes opts;
     uoEnableDHCP := uoEnableDHCP opts;
     uoRevisionNumber := n;
     uoSegmentID := uoSegmentID opts |}.

End Subnets.

(** ** Go's [strings] functions used by client.go *)

Module Strings.

(** [strings.HasSuffix] *)
Definition HasSuffix (s suffix : string) : bool :=
  bool_decide (String.length suffix ≤ String.length s)%nat &&
  bool_decide (String.substring (String.length s - String.length suffix)%nat
                 (String.length suffix) s = suffix).

(** [strings.TrimSuffix] *)
Definition TrimSuffix (s suffix : string) : string :=
  if HasSuffix s suffix
  then String.substring 0 (String.length s - String.length suffix)%nat s
  else s.

(** Left-to-right replacement of the non-overlapping occurrences of a
    non-empty [old]; [skip] counts the characters of a match still to drop. *)
Fixpoint replace_from (old new : string) (skip : nat) (s : string) : string :=
  match s with
  | EmptyString => EmptyString
  | String c s' =>
      match skip with
      | S k => replace_from old new k s'
      | O =>
          if String.prefix old s
          then new +:+ replace_from old new (String.length old - 1)%nat s'
          else String c (replace_from old new 0 s')
      end
  end.

(** With an empty [old], Go inserts [new] before every character and at the
    end. *)
Fixpoint interleave (new s : string) : string :=
  match s with
  | EmptyString => new
  | String c s' => new +:+ String c (interleave new s')
  end.

(** [strings.ReplaceAll], on strings of one-byte characters. *)
Definition ReplaceAll (s old new : string) : string :=
  if decide (old = "") then interleave new s else replace_from old new 0 s.

(** [strings.Contains], on strings of one-byte characters. *)
Fixpoint Contains (s substr : string) : bool :=
  String.prefix substr s
  || match s with
     | EmptyString => false
     | String _ s' => Contains s' substr
     end.

End Strings.

(** ** Package openstack: client.go *)

Module Openstack.
Import Gophercloud.

(** [v2] represents Keystone v2; [v3] represents Keystone v3. *)
Definition v2 : string := "v2.0".
Definition v3 : string := "v3".

(** *** Authentication options *)

(** Modelled from the spec: [gophercloud.AuthScope] and [tokens3.Scope] are
    declared outside the files embedded here; the spec describes a scope as "the
    project/domain context a token is valid for". *)
Record AuthScope := {
  ProjectID : string;
  ProjectName : string;
  DomainID : string;
  DomainName : string
}.

#[export] Instance AuthScope_eq_dec : EqDecision AuthScope.
Proof. solve_decision. Defined.

(** [gophercloud.AuthScope{}] and [tokens3.Scope{}] *)
Definition AuthScope_zero : AuthScope :=
  {| ProjectID := ""; ProjectName := ""; DomainID := ""; DomainName := "" |}.

(** Modelled from the spec: [gophercloud.AuthOptions] is declared outside the
    files embedded here. These are the fields client.go reads or writes, and the
    "caller-supplied credentials" of the spec as one opaque string. *)
Record AuthOptions := {
  aoIdentityEndpoint : string;
  aoCredentials : string;
  aoAllowReauth : bool;
  aoTokenID : string;
  aoScope : option AuthScope
}.

(** Modelled from the spec: [tokens3.AuthOptions], likewise; client.go
    compares its [Scope] as a struct, not through a pointer. *)
Record AuthOptions3 := {
  t3Credentials : string;
  t3AllowReauth : bool;
  t3TokenID : string;
  t3Scope : AuthScope
}.

(** Modelled from the spec: [ec2tokens.AuthOptions] and [oauth1.AuthOptions],
    likewise; client.go writes their [AllowReauth]. *)
Record Ec2AuthOptions := {
  ec2Credentials : string;
  ec2AllowReauth : bool
}.

Record OAuth1AuthOptions := {
  oaCredentials : string;
  oaAllowReauth : bool
}.

(** A value of interface type [tokens3.AuthOptionsBuilder], by dynamic type as
    the type switches of [v3auth] see it. [B3Other] is any implementation the
    switches send to [default] (for instance one that embeds another
    builder); [canReauth] is what its [CanReauth] method answers. The
    values are options that are not nil: on a nil interface, or a nil
    pointer inside it, [v3auth] panics when it reads [v.TokenID] or calls
    [opts.CanReauth()], and no value of this type stands for that. *)
Inductive AuthOptionsBuilder3 :=
| B3AuthOptions (o : AuthOptions)
| B3Tokens (o : AuthOptions3)
| B3Ec2 (o : Ec2AuthOptions)
| B3OAuth1 (o : OAuth1AuthOptions)
| B3Other (canReauth : bool) (payload : string).

(** A value of interface type [tokens2.AuthOptionsBuilder]. [B2NoReauth] is
    the wrapper [v2TokenNoReauth] declared in client.go. Again the values
    are options that are not nil: [v2auth] calls [options.CanReauth()]. *)
Inductive AuthOptionsBuilder2 :=
| B2AuthOptions (o : AuthOptions)
| B2Other (canReauth : bool) (payload : string)
| B2NoReauth (inner : AuthOptionsBuilder2).

(** *** Responses of the identity service *)

(** Modelled from the spec: the service catalog is "a list of (service type,
    region, interface, URL) tuples returned by the identity service at
    authentication time". *)
Record CatalogEntry := {
  ceType : string;
  ceRegion : string;
  ceInterface : string;
  ceURL : string
}.

Definition ServiceCatalog := list CatalogEntry.

(** Modelled from the spec: the results of [tokens2.Create], [tokens3.Create],
    [tokens3.Get], [ec2tokens.Create] and [oauth1.Create] are declared outside
    the files embedded here. A result carries the request's error ([Err] in Go),
    the issued token and the decoded service catalog, if it decodes. *)
Record AuthResult := {
  arErr : option error;
  arTokenID : string;
  arCatalog : Result ServiceCatalog
}.

(** Modelled from the spec: the methods [ExtractTokenID] and
    [ExtractServiceCatalog] of a result are defined outside the files embedded
    here; both hand back the request's error when there is one. *)
Definition ExtractTokenID (r : AuthResult) : Result string :=
  match arErr r with
  | Some e => Err e
  | None => Ok (arTokenID r)
  end.

(** Modelled from the spec: see [ExtractTokenID]. *)
Definition ExtractServiceCatalog (r : AuthResult) : Result ServiceCatalog :=
  match arErr r with
  | Some e => Err e
  | None => arCatalog r
  end.

(** *** Provider clients, closures and the heap *)

(** The closure stored in [EndpointLocator]. [v2auth] and [v3auth] store
<<
    func(ctx, opts) (string, error) { return V3Endpoint(ctx, client, catalog, opts) }
>>
    which captures the pointer [client] and the catalog; a caller may store
    any function of its own ([LocFunc]). *)
Inductive Locator :=
| LocV2 (client : loc) (catalog : ServiceCatalog)
| LocV3 (client : loc) (catalog : ServiceCatalog)
| LocFunc (f : EndpointOpts → Result string).

(** The closure stored in [ReauthFunc], as the variables it captures:
<<
    func(ctx) error {
        err := v3auth(ctx, &tac, endpoint, tao, eo)
        if err != nil { return err }
        client.CopyTokenFrom(&tac)
        return nil
    }
>> *)
Inductive ReauthClosure :=
| ReauthV2 (client tac : loc) (endpoint : string)
    (options : AuthOptionsBuilder2) (eo : EndpointOpts)
| ReauthV3 (client tac : loc) (endpoint : string)
    (tao : AuthOptionsBuilder3) (eo : EndpointOpts).

Definition reauth_client (f : ReauthClosure) : loc :=
  match f with
  | ReauthV2 client _ _ _ _ | ReauthV3 client _ _ _ _ => client
  end.

Definition reauth_tac (f : ReauthClosure) : loc :=
  match f with
  | ReauthV2 _ tac _ _ _ | ReauthV3 _ tac _ _ _ => tac
  end.

(** Modelled from the spec: [gophercloud.ProviderClient] is declared outside
    the files embedded here. [IdentityBase], [IdentityEndpoint], [ReauthFunc] and
    [EndpointLocator] are the fields client.go reads and assigns; [TokenID]
    and [authResult] are the "opaque token" and the result it came with,
    which client.go reaches through methods; [Throwaway] marks the
    disposable copy; [tokenLock] says whether [UseTokenLock] gave the client
    a lock. *)
Record ProviderClient := {
  IdentityBase : string;
  IdentityEndpoint : string;
  TokenID : string;
  authResult : option AuthResult;
  EndpointLocator : option Locator;
  ReauthFunc : option ReauthClosure;
  Throwaway : bool;
  tokenLock : bool
}.

(** [new(gophercloud.ProviderClient)] *)
Definition ProviderClient_zero : ProviderClient :=
  {| IdentityBase := ""; IdentityEndpoint := ""; TokenID := "";
     authResult := None; EndpointLocator := None; ReauthFunc := None;
     Throwaway := false; tokenLock := false |}.

Definition set_token (t : string) (r : option AuthResult) (p : ProviderClient)
  : ProviderClient :=
  {| IdentityBase := IdentityBase p; IdentityEndpoint := IdentityEndpoint p;
     TokenID := t; authResult := r;
     EndpointLocator := EndpointLocator p; ReauthFunc := ReauthFunc p;
     Throwaway := Throwaway p; tokenLock := tokenLock p |}.

Definition set_EndpointLocator (l : option Locator) (p : ProviderClient)
  : ProviderClient :=
  {| IdentityBase := IdentityBase p; IdentityEndpoint := IdentityEndpoint p;
     TokenID := TokenID p; authResult := authResult p;
     EndpointLocator := l; ReauthFunc := ReauthFunc p;
     Throwaway := Throwaway p; tokenLock := tokenLock p |}.

Definition set_ReauthFunc (f : option ReauthClosure) (p : ProviderClient)
  : ProviderClient :=
  {| IdentityBase := IdentityBase p; IdentityEndpoint := IdentityEndpoint p;
     TokenID := TokenID p; authResult := authResult p;
     EndpointLocator := EndpointLocator p; ReauthFunc := f;
     Throwaway := Throwaway p; tokenLock := tokenLock p |}.

Definition set_Throwaway (b : bool) (p : ProviderClient) : ProviderClient :=
  {| IdentityBase := IdentityBase p; IdentityEndpoint := IdentityEndpoint p;
     TokenID := TokenID p; authResult := authResult p;
     EndpointLocator := EndpointLocator p; ReauthFunc := ReauthFunc p;
     Throwaway := b; tokenLock := tokenLock p |}.

(** *** What the program does to the outside world *)

(** A request to the identity service. *)
Inductive Request :=
| Tokens2Create (endpoint : string) (opts : AuthOptionsBuilder2)
| Tokens3Create (endpoint : string) (opts : AuthOptionsBuilder3)
| Ec2Create (endpoint : string) (opts : AuthOptionsBuilder3)
| OAuth1Create (endpoint : string) (opts : AuthOptionsBuilder3)
| Tokens3Get (endpoint : string) (token : string)
| Discover (identityBase : string).

(** The trace of a run. [EvRequest via armed r]: request [r] went out through
    a service client of provider [via]; [armed] records whether that provider
    had a [ReauthFunc] at that moment, that is, whether the HTTP layer had a
    callback to invoke on an expired token. [EvLocate via eo]: the endpoint
    locator of provider [via] was called. *)
Inductive Event :=
| EvRequest (via : loc) (armed : bool) (r : Request)
| EvLocate (via : loc) (eo : EndpointOpts).

Definition is_request (e : Event) : bool :=
  match e with
  | EvRequest _ _ _ => true
  | EvLocate _ _ => false
  end.

(** The network calls of a trace. *)
Definition requests (t : list Event) : list Event := filter is_request t.

(** What lies outside the files embedded here and is taken as given: the identity
    service (its answer may depend on everything that happened before), the
    version discovery document, the catalog searches [V2Endpoint] and
    [V3Endpoint] (called with the provider, the catalog and the endpoint
    options), the URL helpers [utils.BaseEndpoint] and
    [gophercloud.NormalizeURL], and the credential checks of the [CanReauth]
    methods. The [context.Context] argument of the Go functions has no
    counterpart. *)
Record World := {
  identity : list Event → Request → AuthResult;
  discovery : list Event → string → Result (list (string * string));
  V2Endpoint : loc → ServiceCatalog → EndpointOpts → Result string;
  V3Endpoint : loc → ServiceCatalog → EndpointOpts → Result string;
  BaseEndpoint : string → Result string;
  NormalizeURL : string → string;
  replayable : string → bool
}.

(** The state of a run: the heap of provider clients and the trace. *)
Record State := {
  heap : list ProviderClient;
  trace : list Event
}.

(** A computation either returns or panics, and leaves a state. *)
Inductive Outcome (A : Type) :=
| Val (a : A)
| Panic.
Arguments Val {A} a.
Arguments Panic {A}.

Definition M (A : Type) : Type := State → Outcome A * State.

Definition ret {A} (a : A) : M A := λ st, (Val a, st).

Definition bind {A B} (c : M A) (k : A → M B) : M B :=
  λ st, match c st with
        | (Val a, st') => k a st'
        | (Panic, st') => (Panic, st')
        end.

Definition panic {A} : M A := λ st, (Panic, st).

Notation "'let*' x := c 'in' k" := (bind c (λ x, k))
  (at level 10, x pattern, c at level 100, k at level 200, only parsing).
Notation "c ;; k" := (bind c (λ _, k))
  (at level 100, k at level 200, right associativity, only parsing).

(** Dereference of the pointer [p]; a dangling or nil pointer panics. *)
Definition deref (p : loc) : M ProviderClient :=
  λ st, match heap st !! p with
        | Some c => (Val c, st)
        | None => (Panic, st)
        end.

(** Update in place of the provider client that [p] points to. *)
Definition modify (p : loc) (f : ProviderClient → ProviderClient) : M unit :=
  λ st, match heap st !! p with
        | Some c =>
            (Val (), {| heap := <[p := f c]> (heap st); trace := trace st |})
        | None => (Panic, st)
        end.

(** A fresh provider client holding [c]; its address is returned. *)
Definition alloc (c : ProviderClient) : M loc :=
  λ st, (Val (length (heap st)),
         {| heap := heap st ++ [c]; trace := trace st |}).

Definition emit (e : Event) : M unit :=
  λ st, (Val (), {| heap := heap st; trace := trace st ++ [e] |}).

(** Whether the HTTP layer has a reauthentication callback to invoke for
    requests that go through this provider. *)
Definition armed (c : ProviderClient) : bool :=
  bool_decide (is_Some (ReauthFunc c)).

(** One round trip to the identity service through provider [via]; the
    event records whether the provider had a callback when the request went
    out. With a callback the HTTP layer, which is outside the files embedded
    here, may answer a rejected request by invoking the callback and sending
    the request again (the comment in client.go on the throw-away client:
    "this should retry authentication only once"). That retry is not part
    of this definition: what is proved below about the number of requests
    of a failing run, and about the provider clients it leaves alone, is
    stated for providers that have no callback. *)
Definition request (W : World) (via : loc) (r : Request) : M AuthResult :=
  let* c := deref via in
  λ st, (Val (identity W (trace st) r),
         {| heap := heap st;
            trace := trace st ++ [EvRequest via (armed c) r] |}).

(** *** Methods of the provider client and of the option types *)

(** Modelled from the spec: the [CanReauth] methods of the option types are
    defined outside the files embedded here. Following the spec's "when
    credentials permit transparent reauthentication" and the comment in
    client.go on "setting [AllowReauth] to [false]", a built-in option type
    answers true when [AllowReauth] is set and its credentials permit it.
    The answer of the wrapper [v2TokenNoReauth] is in client.go:
    [func (v2TokenNoReauth) CanReauth() bool { return false }]. *)
Definition CanReauth3 (W : World) (opts : AuthOptionsBuilder3) : bool :=
  match opts with
  | B3AuthOptions o => aoAllowReauth o && replayable W (aoCredentials o)
  | B3Tokens o => t3AllowReauth o && replayable W (t3Credentials o)
  | B3Ec2 o => ec2AllowReauth o && replayable W (ec2Credentials o)
  | B3OAuth1 o => oaAllowReauth o && replayable W (oaCredentials o)
  | B3Other canReauth _ => canReauth
  end.

(** Modelled from the spec: see [CanReauth3]; the last case is from
    client.go. *)
Definition CanReauth2 (W : World) (opts : AuthOptionsBuilder2) : bool :=
  match opts with
  | B2AuthOptions o => aoAllowReauth o && replayable W (aoCredentials o)
  | B2Other canReauth _ => canReauth
  | B2NoReauth _ => false
  end.

(** Modelled from the spec: [ProviderClient.SetTokenAndAuthResult] is defined
    outside the files embedded here. Following the spec's "store the returned
    token and catalog on the shared provider state", it extracts the token of
    the result and stores token and result together; called with [nil] it
    clears both. It fails, storing nothing, when no token can be extracted. *)
Definition SetTokenAndAuthResult (client : loc) (r : option AuthResult)
  : M (option error) :=
  match r with
  | None => modify client (set_token "" None);; ret None
  | Some res =>
      match ExtractTokenID res with
      | Err e => ret (Some e)
      | Ok t => modify client (set_token t (Some res));; ret None
      end
  end.

(** Modelled from the spec: [ProviderClient.CopyTokenFrom] is defined outside
    the files embedded here. Following the spec's "copies the new token/catalog
    into the live shared provider", it overwrites the token and the
    authentication result of [client] with those of [other]. *)
Definition CopyTokenFrom (client other : loc) : M unit :=
  let* o := deref other in
  modify client (set_token (TokenID o) (authResult o)).

(** Modelled from the spec: [ProviderClient.SetToken], reached as
    [v3Client.SetToken] through the provider embedded in the service client,
    is defined outside the files embedded here: it stores a bare token, with no
    authentication result. *)
Definition SetToken (client : loc) (t : string) : M unit :=
  modify client (set_token t None).

(** Modelled from the spec: [ProviderClient.SetThrowaway] marks the
    "disposable copy" of the spec. *)
Definition SetThrowaway (client : loc) (b : bool) : M unit :=
  modify client (set_Throwaway b).

Section Client.
Context (W : World).

(** [client.EndpointLocator(ctx, eo)]; calling a [nil] function panics. *)
Definition apply_locator (l : Locator) (eo : EndpointOpts) : Result string :=
  match l with
  | LocV2 client catalog => V2Endpoint W client catalog eo
  | LocV3 client catalog => V3Endpoint W client catalog eo
  | LocFunc f => f eo
  end.

Definition call_EndpointLocator (client : loc) (eo : EndpointOpts)
  : M (Result string) :=
  let* c := deref client in
  match EndpointLocator c with
  | None => panic
  | Some l => emit (EvLocate client eo);; ret (apply_locator l eo)
  end.

(** [func NewClient(endpoint string)]; [p.UseTokenLock()] gives the new
    provider its lock. *)
Definition NewClient (endpoint : string) : M (Result loc) :=
  match BaseEndpoint W endpoint with
  | Err e => ret (Err e)
  | Ok base =>
      let endpoint := NormalizeURL W endpoint in
      let base := NormalizeURL W base in
      let* p := alloc {| IdentityBase := base; IdentityEndpoint := endpoint;
                         TokenID := ""; authResult := None;
                         EndpointLocator := None; ReauthFunc := None;
                         Throwaway := false; tokenLock := true |} in
      ret (Ok p)
  end.

Definition identity_client (client : loc) (endpoint : string) : ServiceClient :=
  {| scProviderClient := Some client; scEndpoint := endpoint;
     scResourceBase := ""; scType := "identity"; scMoreHeaders := None |}.

Definition with_Endpoint (endpoint : string) (sc : ServiceClient)
  : ServiceClient :=
  {| scProviderClient := scProviderClient sc; scEndpoint := endpoint;
     scResourceBase := scResourceBase sc; scType := scType sc;
     scMoreHeaders := scMoreHeaders sc |}.

(** [func NewIdentityV2(ctx, client, eo)] *)
Definition NewIdentityV2 (client : loc) (eo : EndpointOpts)
  : M (Result ServiceClient) :=
  let* c := deref client in
  let endpoint := IdentityBase c +:+ "v2.0/" in
  let clientType := "identity" in
  let* r := (if decide (eo = EndpointOpts_zero)
             then ret (Ok endpoint)
             else call_EndpointLocator client (ApplyDefaults clientType eo)) in
  match r with
  | Err e => ret (Err e)
  | Ok endpoint => ret (Ok (identity_client client endpoint))
  end.

(** [func NewIdentityV3(ctx, client, eo)] *)
Definition NewIdentityV3 (client : loc) (eo : EndpointOpts)
  : M (Result ServiceClient) :=
  let* c := deref client in
  let endpoint := IdentityBase c +:+ "v3/" in
  let clientType := "identity" in
  let* r := (if decide (eo = EndpointOpts_zero)
             then ret (Ok endpoint)
             else call_EndpointLocator client (ApplyDefaults clientType eo)) in
  match r with
  | Err e => ret (Err e)
  | Ok endpoint =>
      match BaseEndpoint W endpoint with
      | Err e => ret (Err e)
      | Ok base =>
          let base := NormalizeURL W base in
          let endpoint := base +:+ "v3/" in
          ret (Ok (identity_client client endpoint))
      end
  end.

(** What the throw-away copy of a provider client holds once it has been
    set up: the client itself, marked throw-away, with no callback, no token
    and no authentication result. *)
Definition throwaway_of (c : ProviderClient) : ProviderClient :=
  set_token "" None (set_ReauthFunc None (set_Throwaway true c)).

(** The throw-away client of [v2auth] and [v3auth]:
<<
    tac := *client
    tac.SetThrowaway(true)
    tac.ReauthFunc = nil
    err := tac.SetTokenAndAuthResult(nil)
>>
    [tac] is captured by the closure, so it outlives the call: it is a fresh
    heap cell. *)
Definition throwaway_copy (client : loc) : M (loc * option error) :=
  let* c := deref client in
  let* tac := alloc c in
  SetThrowaway tac true;;
  modify tac (set_ReauthFunc None);;
  let* err := SetTokenAndAuthResult tac None in
  ret (tac, err).

(** Lines 145-164 of client.go: install the reauthentication callback. The
    closure hands the throw-away client the caller's options wrapped in
    [v2TokenNoReauth]. *)
Definition v2_install_reauth (client : loc) (endpoint : string)
    (options : AuthOptionsBuilder2) (eo : EndpointOpts) : M (option error) :=
  if CanReauth2 W options
  then
    let* (tac, err) := throwaway_copy client in
    match err with
    | Some e => ret (Some e)
    | None =>
        modify client
          (set_ReauthFunc (Some (ReauthV2 client tac endpoint options eo)));;
        ret None
    end
  else ret None.

(** [func v2auth(ctx, client, endpoint, options, eo) error] *)
Definition v2auth (client : loc) (endpoint : string)
    (options : AuthOptionsBuilder2) (eo : EndpointOpts) : M (option error) :=
  let* r := NewIdentityV2 client eo in
  match r with
  | Err e => ret (Some e)
  | Ok v2Client =>
      let v2Client :=
        if decide (endpoint = "") then v2Client
        else with_Endpoint endpoint v2Client in
      let* result :=
        request W client (Tokens2Create (scEndpoint v2Client) options) in
      let* err := SetTokenAndAuthResult client (Some result) in
      match err with
      | Some e => ret (Some e)
      | None =>
          match ExtractServiceCatalog result with
          | Err e => ret (Some e)
          | Ok catalog =>
              let* err := v2_install_reauth client endpoint options eo in
              match err with
              | Some e => ret (Some e)
              | None =>
                  modify client
                    (set_EndpointLocator (Some (LocV2 client catalog)));;
                  ret None
              end
          end
      end
  end.

(** The first type switch of [v3auth]: the token ID of the options and
    whether they ask for no scope. Options of any other type leave both
    variables at their zero values.
<<
    case *gophercloud.AuthOptions:
        tokenID = v.TokenID
        passthroughToken = (v.Scope == nil || *v.Scope == gophercloud.AuthScope{})
    case *tokens3.AuthOptions:
        tokenID = v.TokenID
        passthroughToken = (v.Scope == tokens3.Scope{})
>> *)
Definition token_and_passthrough (opts : AuthOptionsBuilder3) : string * bool :=
  match opts with
  | B3AuthOptions v =>
      (aoTokenID v,
       match aoScope v with
       | None => true
       | Some sc => bool_decide (sc = AuthScope_zero)
       end)
  | B3Tokens v => (t3TokenID v, bool_decide (t3Scope v = AuthScope_zero))
  | _ => ("", false)
  end.

(** The condition [tokenID != "" && passthroughToken] of [v3auth]: a token
    is passed through without asking for a new scope. *)
Definition passthrough (opts : AuthOptionsBuilder3) : bool :=
  negb (bool_decide ((token_and_passthrough opts).1 = ""))
  && (token_and_passthrough opts).2.

(** The type switch that picks the token request of a fresh exchange. *)
Definition create_request (endpoint : string) (opts : AuthOptionsBuilder3)
  : Request :=
  match opts with
  | B3Ec2 _ => Ec2Create endpoint opts
  | B3OAuth1 _ => OAuth1Create endpoint opts
  | _ => Tokens3Create endpoint opts
  end.

(** The last type switch of [v3auth]: the options handed to the throw-away
    client, a copy with [AllowReauth] cleared for the four built-in types and
    the caller's own options otherwise ([default: tao = opts]). *)
Definition throwaway_options (opts : AuthOptionsBuilder3) : AuthOptionsBuilder3 :=
  match opts with
  | B3AuthOptions ot =>
      B3AuthOptions {| aoIdentityEndpoint := aoIdentityEndpoint ot;
                       aoCredentials := aoCredentials ot;
                       aoAllowReauth := false;
                       aoTokenID := aoTokenID ot;
                       aoScope := aoScope ot |}
  | B3Tokens ot =>
      B3Tokens {| t3Credentials := t3Credentials ot; t3AllowReauth := false;
                  t3TokenID := t3TokenID ot; t3Scope := t3Scope ot |}
  | B3Ec2 ot =>
      B3Ec2 {| ec2Credentials := ec2Credentials ot; ec2AllowReauth := false |}
  | B3OAuth1 ot =>
      B3OAuth1 {| oaCredentials := oaCredentials ot; oaAllowReauth := false |}
  | B3Other _ _ => opts
  end.

(** The request a run of [v3auth] sends for these options: the lookup of a
    passed-through token, or a fresh credential exchange. *)
Definition token_request (endpoint : string) (opts : AuthOptionsBuilder3)
  : Request :=
  let '(tokenID, passthroughToken) := token_and_passthrough opts in
  if negb (bool_decide (tokenID = "")) && passthroughToken
  then Tokens3Get endpoint tokenID
  else create_request endpoint opts.

Definition misuse : error :=
  "cannot use AllowReauth, when the token ID is defined and auth scope is not set".

(** Lines 202-243 of client.go: obtain a token and its catalog, by lookup of
    a passed-through token or by a fresh credential exchange. *)
Definition v3_acquire (client : loc) (v3Client : ServiceClient)
    (opts : AuthOptionsBuilder3) : M (Result ServiceCatalog) :=
  let '(tokenID, passthroughToken) := token_and_passthrough opts in
  if negb (bool_decide (tokenID = "")) && passthroughToken
  then
    if CanReauth3 W opts
    then ret (Err misuse)
    else
      SetToken client tokenID;;
      let* result :=
        request W client (Tokens3Get (scEndpoint v3Client) tokenID) in
      match arErr result with
      | Some e => ret (Err e)
      | None =>
          let* err := SetTokenAndAuthResult client (Some result) in
          match err with
          | Some e => ret (Err e)
          | None => ret (ExtractServiceCatalog result)
          end
      end
  else
    let* result :=
      request W client (create_request (scEndpoint v3Client) opts) in
    let* err := SetTokenAndAuthResult client (Some result) in
    match err with
    | Some e => ret (Err e)
    | None => ret (ExtractServiceCatalog result)
    end.

(** Lines 245-285 of client.go: install the reauthentication callback. *)
Definition v3_install_reauth (client : loc) (endpoint : string)
    (opts : AuthOptionsBuilder3) (eo : EndpointOpts) : M (option error) :=
  if CanReauth3 W opts
  then
    let* (tac, err) := throwaway_copy client in
    match err with
    | Some e => ret (Some e)
    | None =>
        let tao := throwaway_options opts in
        modify client
          (set_ReauthFunc (Some (ReauthV3 client tac endpoint tao eo)));;
        ret None
    end
  else ret None.

(** [func v3auth(ctx, client, endpoint, opts, eo) error] *)
Definition v3auth (client : loc) (endpoint : string)
    (opts : AuthOptionsBuilder3) (eo : EndpointOpts) : M (option error) :=
  let* r := NewIdentityV3 client eo in
  match r with
  | Err e => ret (Some e)
  | Ok v3Client =>
      let v3Client :=
        if decide (endpoint = "") then v3Client
        else with_Endpoint endpoint v3Client in
      let* r := v3_acquire client v3Client opts in
      match r with
      | Err e => ret (Some e)
      | Ok catalog =>
          let* err := v3_install_reauth client endpoint opts eo in
          match err with
          | Some e => ret (Some e)
          | None =>
              modify client
                (set_EndpointLocator (Some (LocV3 client catalog)));;
              ret None
          end
      end
  end.

(** The authentication a callback runs on its throw-away client, and whether
    the options it runs it with report [CanReauth() == true]. *)
Definition inner_auth (f : ReauthClosure) : M (option error) :=
  match f with
  | ReauthV2 _ tac endpoint options eo =>
      v2auth tac endpoint (B2NoReauth options) eo
  | ReauthV3 _ tac endpoint tao eo => v3auth tac endpoint tao eo
  end.

Definition inner_CanReauth (f : ReauthClosure) : bool :=
  match f with
  | ReauthV2 _ _ _ options _ => CanReauth2 W (B2NoReauth options)
  | ReauthV3 _ _ _ tao _ => CanReauth3 W tao
  end.

(** An invocation of the closure stored in [ReauthFunc]. *)
Definition call_ReauthFunc (f : ReauthClosure) : M (option error) :=
  match f with
  | ReauthV2 client tac endpoint options eo =>
      let* err := v2auth tac endpoint (B2NoReauth options) eo in
      match err with
      | Some e => ret (Some e)
      | None => CopyTokenFrom client tac;; ret None
      end
  | ReauthV3 client tac endpoint tao eo =>
      let* err := v3auth tac endpoint tao eo in
      match err with
      | Some e => ret (Some e)
      | None => CopyTokenFrom client tac;; ret None
      end
  end.

(** [func AuthenticateV2] and [func AuthenticateV3] *)
Definition AuthenticateV2 (client : loc) (options : AuthOptionsBuilder2)
    (eo : EndpointOpts) : M (option error) :=
  v2auth client "" options eo.

Definition AuthenticateV3 (client : loc) (options : AuthOptionsBuilder3)
    (eo : EndpointOpts) : M (option error) :=
  v3auth client "" options eo.

(** *** Version negotiation *)

(** [utils.Version] *)
Record Version := {
  ID : string;
  Priority : Z;
  Suffix : string
}.

(** The versions [Authenticate] recognises. *)
Definition version2 : Version :=
  {| ID := v2; Priority := 20; Suffix := "/v2.0/" |}.
Definition version3 : Version :=
  {| ID := v3; Priority := 30; Suffix := "/v3/" |}.
Definition versions : list Version := [version2; version3].

(** Modelled from the spec: an advertised version [id] is an instance of the
    recognised version [v] when it starts with its ID; in the words of
    client.go, "the version can be anything from v3 to v3.x". *)
Definition advertises (v : Version) (id : string) : bool :=
  String.prefix (ID v) id.

(** Modelled from the spec: the "supported versions" of a discovery
    document, its entries [(id, href)] that are instances of a recognised
    version, each with its endpoint. *)
Definition candidates (recognized : list Version)
    (doc : list (string * string)) : list (Version * string) :=
  flat_map (λ entry,
              map (λ v, (v, entry.2))
                (List.filter (λ v, advertises v entry.1) recognized)) doc.

(** Modelled from the spec: "the highest-priority supported version", the
    first one among equals. *)
Definition pick (best : option (Version * string)) (c : Version * string)
  : option (Version * string) :=
  match best with
  | None => Some c
  | Some b =>
      if bool_decide (Priority b.1 < Priority c.1)%Z then Some c else best
  end.

Definition highest (cs : list (Version * string)) : option (Version * string) :=
  foldl pick None cs.

(** Modelled from the spec: the endpoint a discovery document advertises
    for version [v], that of its first entry for [v]. *)
Definition endpoint_for (v : Version) (doc : list (string * string))
  : option string :=
  snd <$> List.find (λ entry, advertises v entry.1) doc.

(** Modelled from the spec: [utils.ChooseVersion] is defined outside the
    files embedded here. Following the spec, it determines whether the identity
    endpoint is "an already-versioned URL" (it ends in the suffix of a
    recognised version, and is used as it is) or exposes "a versionless
    discovery document"; in the latter case it probes the base endpoint,
    chooses "the highest-priority supported version" among those advertised
    and takes the endpoint advertised for it. An undiscoverable or
    unsupported version is an error. *)
Definition ChooseVersion (client : loc) (recognized : list Version)
  : M (Result (Version * string)) :=
  let* c := deref client in
  let identityEndpoint := NormalizeURL W (IdentityEndpoint c) in
  match
    List.find (λ v, Strings.HasSuffix identityEndpoint (Suffix v)) recognized
  with
  | Some v => ret (Ok (v, identityEndpoint))
  | None =>
      let* doc :=
        (λ st,
           (Val (discovery W (trace st) (IdentityBase c)),
            {| heap := heap st;
               trace := trace st ++
                 [EvRequest client (armed c) (Discover (IdentityBase c))] |})) in
      match doc with
      | Err e => ret (Err e)
      | Ok doc =>
          match highest (candidates recognized doc) with
          | Some choice => ret (Ok choice)
          | None =>
              ret (Err ("No supported version available from endpoint "
                        +:+ IdentityBase c))
          end
      end
  end.

(** The state after the probe of the discovery document. *)
Definition probed (client : loc) (c : ProviderClient) (st : State) : State :=
  {| heap := heap st;
     trace := trace st ++
       [EvRequest client (armed c) (Discover (IdentityBase c))] |}.

(** The switch of [Authenticate] on the chosen version. *)
Definition Authenticate_switch (client : loc) (options : AuthOptions)
    (chosen : Version) (endpoint : string) : M (option error) :=
  if decide (ID chosen = v2)
  then v2auth client endpoint (B2AuthOptions options) EndpointOpts_zero
  else if decide (ID chosen = v3)
  then v3auth client endpoint (B3AuthOptions options) EndpointOpts_zero
  else ret (Some ("unrecognized identity version: " +:+ ID chosen)).

(** [func Authenticate(ctx, client, options) error] *)
Definition Authenticate (client : loc) (options : AuthOptions)
  : M (option error) :=
  let* r := ChooseVersion client versions in
  match r with
  | Err e => ret (Some e)
  | Ok (chosen, endpoint) => Authenticate_switch client options chosen endpoint
  end.

(** [func AuthenticatedClient(ctx, options)] *)
Definition AuthenticatedClient (options : AuthOptions) : M (Result loc) :=
  let* r := NewClient (aoIdentityEndpoint options) in
  match r with
  | Err e => ret (Err e)
  | Ok client =>
      let* err := Authenticate client options in
      match err with
      | Some e => ret (Err e)
      | None => ret (Ok client)
      end
  end.

(** *** Summaries of runs, used to state properties *)

(** The provider as a successful [v3auth] leaves it: the token and result
    of the response stored, the callback installed when the options can
    reauthenticate, and the locator bound to the catalog of the response. *)
Definition v3_authenticated (client : loc) (tac : loc) (endpoint : string)
    (opts : AuthOptionsBuilder3) (eo : EndpointOpts) (result : AuthResult)
    (catalog : ServiceCatalog) (c : ProviderClient) : ProviderClient :=
  let c1 := set_token (arTokenID result) (Some result) c in
  set_EndpointLocator (Some (LocV3 client catalog))
    (if CanReauth3 W opts
     then set_ReauthFunc
            (Some (ReauthV3 client tac endpoint (throwaway_options opts) eo)) c1
     else c1).

(** The provider as a successful [v2auth] leaves it. *)
Definition v2_authenticated (client : loc) (tac : loc) (endpoint : string)
    (options : AuthOptionsBuilder2) (eo : EndpointOpts) (result : AuthResult)
    (catalog : ServiceCatalog) (c : ProviderClient) : ProviderClient :=
  let c1 := set_token (arTokenID result) (Some result) c in
  set_EndpointLocator (Some (LocV2 client catalog))
    (if CanReauth2 W options
     then set_ReauthFunc
            (Some (ReauthV2 client tac endpoint options eo)) c1
     else c1).

(** The requests of a stretch of trace all went out through [p], with the
    callback of [p] in the state [a]. *)
Definition requests_through (p : loc) (a : bool) (l : list Event) : Prop :=
  ∀ via a' r, EvRequest via a' r ∈ l → via = p ∧ a' = a.

(** *** Service clients *)

Definition conflict : error :=
  "conflict between requested service major version and manually set version".

Definition with_Version (version : Z) (eo : EndpointOpts) : EndpointOpts :=
  {| eoType := eoType eo; eoName := eoName eo; eoRegion := eoRegion eo;
     eoAvailability := eoAvailability eo; eoVersion := version |}.

Definition with_ResourceBase (base : string) (sc : ServiceClient)
  : ServiceClient :=
  {| scProviderClient := scProviderClient sc; scEndpoint := scEndpoint sc;
     scResourceBase := base; scType := scType sc;
     scMoreHeaders := scMoreHeaders sc |}.

Definition with_MoreHeaders (h : gmap string string) (sc : ServiceClient)
  : ServiceClient :=
  {| scProviderClient := scProviderClient sc; scEndpoint := scEndpoint sc;
     scResourceBase := scResourceBase sc; scType := scType sc;
     scMoreHeaders := Some h |}.

(** What a constructor returns: the pair [(sc, err)] of a pointer to a
    service client ([None] is [nil]) and an error. *)
Definition Constructed : Type := option ServiceClient * option error.

(** [func initClientOpts(ctx, client, eo, clientType, version)] *)
Definition initClientOpts (client : loc) (eo : EndpointOpts)
    (clientType : string) (version : Z) : M Constructed :=
  let sc := ServiceClient_zero in
  let eo := ApplyDefaults clientType eo in
  if bool_decide (eoVersion eo ≠ 0%Z) && bool_decide (eoVersion eo ≠ version)
  then ret (Some sc, Some conflict)
  else
    let eo := with_Version version eo in
    let* r := call_EndpointLocator client eo in
    match r with
    | Err err => ret (Some sc, Some err)
    | Ok url =>
        ret (Some {| scProviderClient := Some client; scEndpoint := url;
                     scResourceBase := scResourceBase sc;
                     scType := clientType;
                     scMoreHeaders := scMoreHeaders sc |}, None)
    end.

(** A constructor that writes through the returned pointer before it looks
    at the error: [sc.F = ...; return sc, err]. Writing through [nil]
    panics. *)
Definition update_through (r : Constructed) (f : ServiceClient → ServiceClient)
  : M Constructed :=
  match r.1 with
  | None => panic
  | Some sc => ret (Some (f sc), r.2)
  end.

Definition NewBareMetalV1 (client : loc) (eo : EndpointOpts) : M Constructed :=
  let* r := initClientOpts client eo "baremetal" 1 in
  update_through r (λ sc,
    if negb (Strings.HasSuffix (Strings.TrimSuffix (scEndpoint sc) "/") "v1")
    then with_ResourceBase (scEndpoint sc +:+ "v1/") sc
    else sc).

Definition NewBareMetalIntrospectionV1 (client : loc) (eo : EndpointOpts)
  : M Constructed :=
  initClientOpts client eo "baremetal-introspection" 1.

Definition NewObjectStorageV1 (client : loc) (eo : EndpointOpts)
  : M Constructed :=
  initClientOpts client eo "object-store" 1.

Definition NewComputeV2 (client : loc) (eo : EndpointOpts) : M Constructed :=
  initClientOpts client eo "compute" 2.

Definition NewNetworkV2 (client : loc) (eo : EndpointOpts) : M Constructed :=
  let* r := initClientOpts client eo "network" 2 in
  update_through r (λ sc, with_ResourceBase (scEndpoint sc +:+ "v2.0/") sc).

Definition NewBlockStorageV1 (client : loc) (eo : EndpointOpts)
  : M Constructed :=
  initClientOpts client eo "volume" 1.

Definition NewBlockStorageV2 (client : loc) (eo : EndpointOpts)
  : M Constructed :=
  initClientOpts client eo "block-storage" 2.

Definition NewBlockStorageV3 (client : loc) (eo : EndpointOpts)
  : M Constructed :=
  initClientOpts client eo "block-storage" 3.

Definition NewSharedFileSystemV2 (client : loc) (eo : EndpointOpts)
  : M Constructed :=
  initClientOpts client eo "shared-file-system" 2.

Definition NewOrchestrationV1 (client : loc) (eo : EndpointOpts)
  : M Constructed :=
  initClientOpts client eo "orchestration" 1.

Definition NewDBV1 (client : loc) (eo : EndpointOpts) : M Constructed :=
  initClientOpts client eo "database" 1.

Definition NewDNSV2 (client : loc) (eo : EndpointOpts) : M Constructed :=
  let* r := initClientOpts client eo "dns" 2 in
  update_through r (λ sc, with_ResourceBase (scEndpoint sc +:+ "v2/") sc).

Definition NewImageV2 (client : loc) (eo : EndpointOpts) : M Constructed :=
  let* r := initClientOpts client eo "image" 2 in
  update_through r (λ sc, with_ResourceBase (scEndpoint sc +:+ "v2/") sc).

Definition NewLoadBalancerV2 (client : loc) (eo : EndpointOpts)
  : M Constructed :=
  let* r := initClientOpts client eo "load-balancer" 2 in
  update_through r (λ sc,
    let endpoint := Strings.ReplaceAll (scEndpoint sc) "v2.0/" "" in
    with_ResourceBase (endpoint +:+ "v2.0/") sc).

Definition NewMessagingV2 (client : loc) (clientID : string)
    (eo : EndpointOpts) : M Constructed :=
  let* r := initClientOpts client eo "message" 2 in
  update_through r (with_MoreHeaders {[ "Client-ID" := clientID ]}).

Definition NewContainerV1 (client : loc) (eo : EndpointOpts) : M Constructed :=
  initClientOpts client eo "application-container" 1.

Definition NewKeyManagerV1 (client : loc) (eo : EndpointOpts) : M Constructed :=
  let* r := initClientOpts client eo "key-manager" 1 in
  update_through r (λ sc, with_ResourceBase (scEndpoint sc +:+ "v1/") sc).

Definition NewContainerInfraV1 (client : loc) (eo : EndpointOpts)
  : M Constructed :=
  initClientOpts client eo "container-infrastructure-management" 1.

Definition NewWorkflowV2 (client : loc) (eo : EndpointOpts) : M Constructed :=
  initClientOpts client eo "workflow" 2.

Definition NewPlacementV1 (client : loc) (eo : EndpointOpts) : M Constructed :=
  initClientOpts client eo "placement" 1.

(** The constructors built on [initClientOpts], each with the major version
    it fixes. *)
Definition constructors (clientID : string)
  : list ((loc → EndpointOpts → M Constructed) * Z) :=
  [ (NewBareMetalV1, 1); (NewBareMetalIntrospectionV1, 1);
    (NewObjectStorageV1, 1); (NewComputeV2, 2); (NewNetworkV2, 2);
    (NewBlockStorageV1, 1); (NewBlockStorageV2, 2); (NewBlockStorageV3, 3);
    (NewSharedFileSystemV2, 2); (NewOrchestrationV1, 1); (NewDBV1, 1);
    (NewDNSV2, 2); (NewImageV2, 2); (NewLoadBalancerV2, 2);
    (λ client eo, NewMessagingV2 client clientID eo, 2);
    (NewContainerV1, 1); (NewKeyManagerV1, 1); (NewContainerInfraV1, 1);
    (NewWorkflowV2, 2); (NewPlacementV1, 1) ]%Z.

(** What two provider clients have in common when only the token and the
    authentication result may differ. *)
Definition same_setup (c c' : ProviderClient) : Prop :=
  IdentityBase c' = IdentityBase c
  ∧ IdentityEndpoint c' = IdentityEndpoint c
  ∧ EndpointLocator c' = EndpointLocator c
  ∧ ReauthFunc c' = ReauthFunc c
  ∧ Throwaway c' = Throwaway c
  ∧ tokenLock c' = tokenLock c.

(** *** Repeated reauthentication *)

(** A callback that can be invoked: it is the one its provider has
    installed, its throw-away client is another cell that has no callback of
    its own, and the options it runs with cannot reauthenticate. *)
Definition reauth_ready (f : ReauthClosure) (st : State) : Prop :=
  reauth_client f ≠ reauth_tac f
  ∧ (∃ c, heap st !! reauth_client f = Some c ∧ ReauthFunc c = Some f)
  ∧ (∃ t, heap st !! reauth_tac f = Some t ∧ ReauthFunc t = None)
  ∧ inner_CanReauth f = false.

(** The state after [n] invocations of the callback, one after the other,
    whatever each of them returns. *)
Fixpoint reauth_times (n : nat) (f : ReauthClosure) (st : State) : State :=
  match n with
  | O => st
  | S n => reauth_times n f (call_ReauthFunc f st).2
  end.

(** The constructors built on [initClientOpts], each with the service type
    and the major version it passes on. *)
Definition typed_constructors (clientID : string)
  : list ((loc → EndpointOpts → M Constructed) * (string * Z)) :=
  [ (NewBareMetalV1, ("baremetal", 1));
    (NewBareMetalIntrospectionV1, ("baremetal-introspection", 1));
    (NewObjectStorageV1, ("object-store", 1));
    (NewComputeV2, ("compute", 2));
    (NewNetworkV2, ("network", 2));
    (NewBlockStorageV1, ("volume", 1));
    (NewBlockStorageV2, ("block-storage", 2));
    (NewBlockStorageV3, ("block-storage", 3));
    (NewSharedFileSystemV2, ("shared-file-system", 2));
    (NewOrchestrationV1, ("orchestration", 1));
    (NewDBV1, ("database", 1));
    (NewDNSV2, ("dns", 2));
    (NewImageV2, ("image", 2));
    (NewLoadBalancerV2, ("load-balancer", 2));
    (λ client eo, NewMessagingV2 client clientID eo, ("message", 2));
    (NewContainerV1, ("application-container", 1));
    (NewKeyManagerV1, ("key-manager", 1));
    (NewContainerInfraV1, ("container-infrastructure-management", 1));
    (NewWorkflowV2, ("workflow", 2));
    (NewPlacementV1, ("placement", 1)) ]%Z.

End Client.

End Openstack.

(** ** Sample clouds and providers, for running the definitions *)

Module Samples.
Import Gophercloud Openstack.

Definition catalog : ServiceCatalog :=
  [ {| ceType := "identity"; ceRegion := "RegionOne"; ceInterface := "public";
       ceURL := "https://cloud.example/identity/" |};
    {| ceType := "network"; ceRegion := "RegionOne"; ceInterface := "public";
       ceURL := "https://cloud.example/network/" |} ].

Definition not_found : error :=
  "No suitable endpoint could be found in the service catalog.".

(** A catalog search: the first entry of the requested type, interface and,
    when one is given, region. *)
Definition search (catalog : ServiceCatalog) (eo : EndpointOpts)
  : Result string :=
  match
    List.find (λ e, bool_decide (ceType e = eoType eo)
                    && bool_decide (ceInterface e = eoAvailability eo)
                    && (bool_decide (eoRegion eo = "")
                        || bool_decide (ceRegion e = eoRegion eo))) catalog
  with
  | Some e => Ok (ceURL e)
  | None => Err not_found
  end.

Definition slash (u : string) : string :=
  if Strings.HasSuffix u "/" then u else u +:+ "/".

(** The endpoint without its version segment, if it ends in one. *)
Definition unversioned (u : string) : Result string :=
  Ok (Strings.TrimSuffix (Strings.TrimSuffix (slash u) "v3/") "v2.0/").

(** The [n]-th token the sample identity service issues. *)
Definition issued (n : nat) : AuthResult :=
  {| arErr := None; arTokenID := "token-" +:+ pretty n;
     arCatalog := Ok catalog |}.

Definition rejected : AuthResult :=
  {| arErr := Some "Authentication failed"; arTokenID := "";
     arCatalog := Err "Authentication failed" |}.

(** A cloud that issues a new token at every request and advertises both
    identity versions. *)
Definition cloud : World :=
  {| identity := λ history _, issued (length history);
     discovery := λ _ _,
       Ok [ ("v2.0", "https://cloud.example/v2.0/");
            ("v3.14", "https://cloud.example/v3/") ];
     V2Endpoint := λ _, search;
     V3Endpoint := λ _, search;
     BaseEndpoint := unversioned;
     NormalizeURL := slash;
     replayable := λ _, true |}.

(** The same cloud once the credentials have been revoked. *)
Definition cloud_revoked : World :=
  {| identity := λ _ _, rejected;
     discovery := discovery cloud;
     V2Endpoint := λ _, search;
     V3Endpoint := λ _, search;
     BaseEndpoint := unversioned;
     NormalizeURL := slash;
     replayable := λ _, true |}.

(** The provider [NewClient "https://cloud.example/"] creates. *)
Definition provider : ProviderClient :=
  {| IdentityBase := "https://cloud.example/";
     IdentityEndpoint := "https://cloud.example/";
     TokenID := ""; authResult := None; EndpointLocator := None;
     ReauthFunc := None; Throwaway := false; tokenLock := true |}.

(** A provider that has authenticated before and resolves endpoints in
    [catalog]. *)
Definition authenticated : ProviderClient :=
  {| IdentityBase := "https://cloud.example/";
     IdentityEndpoint := "https://cloud.example/";
     TokenID := "token-0"; authResult := Some (issued 0);
     EndpointLocator := Some (LocV3 0 catalog);
     ReauthFunc := None; Throwaway := false; tokenLock := true |}.

Definition start : State := {| heap := [provider]; trace := [] |}.
Definition started : State := {| heap := [authenticated]; trace := [] |}.

Definition password : AuthOptions :=
  {| aoIdentityEndpoint := "https://cloud.example/";
     aoCredentials := "demo:secret"; aoAllowReauth := true;
     aoTokenID := ""; aoScope := Some {| ProjectID := ""; ProjectName := "demo";
                                         DomainID := "default"; DomainName := "" |} |}.

(** A token passed through with no scope, and reauthentication asked for. *)
Definition passthrough_reauth : AuthOptions :=
  {| aoIdentityEndpoint := "https://cloud.example/";
     aoCredentials := ""; aoAllowReauth := true;
     aoTokenID := "token-0"; aoScope := None |}.

(** Options of a type outside the four built-in ones, such as a builder that
    embeds another one and forwards [CanReauth] to it. *)
Definition wrapped : AuthOptionsBuilder3 := B3Other true "trust:demo:secret".

Definition region_two : EndpointOpts :=
  {| eoType := ""; eoName := ""; eoRegion := "RegionTwo";
     eoAvailability := ""; eoVersion := 0 |}.

Definition version_three : EndpointOpts :=
  {| eoType := ""; eoName := ""; eoRegion := "";
     eoAvailability := ""; eoVersion := 3 |}.

(** The state once [v3auth] has logged the fresh provider in with the
    password, and the callback that run installs. *)
Definition logged_in : State :=
  (v3auth cloud 0 "" (B3AuthOptions password) EndpointOpts_zero start).2.

Definition callback : ReauthClosure :=
  ReauthV3 0 1 "" (throwaway_options (B3AuthOptions password))
    EndpointOpts_zero.

(** The same with the wrapped options, followed by one reauthentication. *)
Definition logged_in_wrapped : State :=
  (v3auth cloud 0 "" wrapped EndpointOpts_zero start).2.

Definition callback_wrapped : ReauthClosure :=
  ReauthV3 0 1 "" wrapped EndpointOpts_zero.

Definition reauthenticated_wrapped : State :=
  (call_ReauthFunc cloud callback_wrapped logged_in_wrapped).2.

(** A subnet without gateway, and an update conditional on revision 7. *)
Definition no_gateway : Subnets.CreateOpts :=
  {| Subnets.coNetworkID := "net-1"; Subnets.coCIDR := "192.168.0.0/24";
     Subnets.coName := ""; Subnets.coDescription := "";
     Subnets.coTenantID := ""; Subnets.coProjectID := "";
     Subnets.coAllocationPools := []; Subnets.coGatewayIP := Some "";
     Subnets.coIPVersion := 4; Subnets.coEnableDHCP := None;
     Subnets.coDNSNameservers := []; Subnets.coDNSPublishFixedIP := None;
     Subnets.coServiceTypes := []; Subnets.coHostRoutes := [];
     Subnets.coIPv6AddressMode := ""; Subnets.coIPv6RAMode := "";
     Subnets.coSubnetPoolID := ""; Subnets.coPrefixlen := 0;
     Subnets.coSegmentID := "" |}.

Definition at_revision_7 : Subnets.UpdateOpts :=
  {| Subnets.uoName := Some "renamed"; Subnets.uoDescription := None;
     Subnets.uoAllocationPools := []; Subnets.uoGatewayIP := None;
     Subnets.uoDNSNameservers := None; Subnets.uoDNSPublishFixedIP := None;
     Subnets.uoServiceTypes := None; Subnets.uoHostRoutes := None;
     Subnets.uoEnableDHCP := None; Subnets.uoRevisionNumber := Some 7%Z;
     Subnets.uoSegmentID := None |}.

Definition subnet_url (c : ServiceClient) (id : string) : string :=
  scResourceBase c +:+ "subnets/" +:+ id.


(** The provider [NewClient "https://cloud.example/v2.0/"] creates, on the
    same cloud, whose discovery document advertises both versions. *)
Definition provider_v2 : ProviderClient :=
  {| IdentityBase := "https://cloud.example/";
     IdentityEndpoint := "https://cloud.example/v2.0/";
     TokenID := ""; authResult := None; EndpointLocator := None;
     ReauthFunc := None; Throwaway := false; tokenLock := true |}.

Definition start_v2 : State := {| heap := [provider_v2]; trace := [] |}.

(** A token handed over with no scope and no reauthentication. *)
Definition token_only : AuthOptions :=
  {| aoIdentityEndpoint := "https://cloud.example/";
     aoCredentials := ""; aoAllowReauth := false;
     aoTokenID := "token-0"; aoScope := None |}.

(** Endpoint options that name the service type, and options that name the
    major version of the network service. *)
Definition as_network : EndpointOpts :=
  {| eoType := "network"; eoName := ""; eoRegion := "";
     eoAvailability := ""; eoVersion := 0 |}.

Definition version_two : EndpointOpts :=
  {| eoType := ""; eoName := ""; eoRegion := "";
     eoAvailability := ""; eoVersion := 2 |}.

(** A request body with an empty gateway address, before the tail of
    [ToSubnetCreateMap] has run. *)
Definition empty_gateway_body : gmap string any :=
  {[ "subnet" := JObject {[ "gateway_ip" := JString "" ]} ]}.

Definition subnets_url (c : ServiceClient) : string :=
  scResourceBase c +:+ "subnets".

End Samples.

(** * Properties of the subnet requests *)

Section SubnetRequests.
Import Gophercloud Subnets.

Lemma foldl_fields_lookup fields (m : gmap string any) k :
  foldl (λ m kv, match kv.2 with
                 | Some v => <[kv.1 := v]> m
                 | None => m
                 end) m fields !! k
  = field_value fields k (m !! k).
Proof.
  revert m. induction fields as [|[k' o] fs IH]; intros m; [done|].
  cbn [foldl field_value]. rewrite IH. f_equal. cbn.
  destruct o as [v|]; case_decide; subst; try done.
  - by rewrite lookup_insert_eq.
  - by rewrite lookup_insert_ne.
Qed.

Lemma object_of_lookup fields k :
  object_of fields !! k = field_value fields k None.
Proof. unfold object_of. by rewrite foldl_fields_lookup, lookup_empty. Qed.

Lemma CreateOpts_gateway opts :
  object_of (CreateOpts_fields opts) !! "gateway_ip"
  = JString <$> coGatewayIP opts.
Proof.
  rewrite object_of_lookup. unfold CreateOpts_fields.
  by destruct (coGatewayIP opts).
Qed.

Lemma UpdateOpts_gateway opts :
  object_of (UpdateOpts_fields opts) !! "gateway_ip"
  = JString <$> uoGatewayIP opts.
Proof.
  rewrite object_of_lookup. unfold UpdateOpts_fields.
  by destruct (uoGatewayIP opts).
Qed.

Lemma null_empty_gateway_spec (m : gmap string any) gw :
  m !! "gateway_ip" = JString <$> gw →
  ∃ m', null_empty_gateway {[ "subnet" := JObject m ]}
          = Some {[ "subnet" := JObject m' ]}
        ∧ m' !! "gateway_ip" = gateway_entry gw
        ∧ ∀ k, k ≠ "gateway_ip" → m' !! k = m !! k.
Proof.
  intros Hgw. unfold null_empty_gateway, index.
  rewrite lookup_singleton_eq. cbn. rewrite Hgw.
  destruct gw as [s|]; cbn.
  - case_bool_decide as Hs.
    + subst s. eexists. split; [by rewrite insert_singleton_eq|].
      split; [by rewrite lookup_insert_eq|].
      intros k Hk. by rewrite lookup_insert_ne.
    + exists m. split; [done|]. split; [|done].
      rewrite Hgw. cbn. by case_decide.
  - exists m. by rewrite Hgw.
Qed.

Lemma ToSubnetCreateMap_spec (opts : CreateOpts) :
  match ToSubnetCreateMap opts with
  | Body b =>
      coNetworkID opts ≠ "" ∧
      ∃ m, b = {[ "subnet" := JObject m ]}
           ∧ m !! "gateway_ip" = gateway_entry (coGatewayIP opts)
           ∧ ∀ k, k ≠ "gateway_ip" →
                  m !! k = object_of (CreateOpts_fields opts) !! k
  | BodyErr _ => coNetworkID opts = ""
  | BodyPanic => False
  end.
Proof.
  unfold ToSubnetCreateMap, BuildRequestBody_create.
  case_decide as Hn; [done|].
  destruct (null_empty_gateway_spec _ _ (CreateOpts_gateway opts))
    as (m' & -> & Hg & Hk).
  split; [done|]. by exists m'.
Qed.

Lemma ToSubnetUpdateMap_spec (opts : UpdateOpts) :
  ∃ b m, ToSubnetUpdateMap opts = Body b
         ∧ b = {[ "subnet" := JObject m ]}
         ∧ m !! "gateway_ip" = gateway_entry (uoGatewayIP opts)
         ∧ ∀ k, k ≠ "gateway_ip" →
                m !! k = object_of (UpdateOpts_fields opts) !! k.
Proof.
  unfold ToSubnetUpdateMap, BuildRequestBody_update.
  destruct (null_empty_gateway_spec _ _ (UpdateOpts_gateway opts))
    as (m' & -> & Hg & Hk).
  by eexists _, m'.
Qed.

(** C9. [ToSubnetCreateMap] and [ToSubnetUpdateMap] never panic;
    [ToSubnetUpdateMap] always builds a body and [ToSubnetCreateMap] builds
    one unless the required network ID is missing. In the body built, the
    object under ["subnet"] maps ["gateway_ip"] to null when [GatewayIP]
    points to the empty string, has no such key when [GatewayIP] is nil, and
    every other key is as [BuildRequestBody] produced it. *)
Theorem gateway_ip_null_when_empty :
  (∀ opts : CreateOpts,
     match ToSubnetCreateMap opts with
     | Body b =>
         coNetworkID opts ≠ "" ∧
         ∃ m, b = {[ "subnet" := JObject m ]}
              ∧ (coGatewayIP opts = Some "" → m !! "gateway_ip" = Some JNull)
              ∧ (coGatewayIP opts = None → m !! "gateway_ip" = None)
              ∧ ∀ k, k ≠ "gateway_ip" →
                     m !! k = object_of (CreateOpts_fields opts) !! k
     | BodyErr _ => coNetworkID opts = ""
     | BodyPanic => False
     end)
  ∧
  (∀ opts : UpdateOpts,
     ∃ b m, ToSubnetUpdateMap opts = Body b
            ∧ b = {[ "subnet" := JObject m ]}
            ∧ (uoGatewayIP opts = Some "" → m !! "gateway_ip" = Some JNull)
            ∧ (uoGatewayIP opts = None → m !! "gateway_ip" = None)
            ∧ ∀ k, k ≠ "gateway_ip" →
                   m !! k = object_of (UpdateOpts_fields opts) !! k).
Proof.
  split; intros opts.
  - pose proof (ToSubnetCreateMap_spec opts) as H.
    destruct (ToSubnetCreateMap opts); [|done..].
    destruct H as (Hn & m & Hm & Hg & Hk). split; [done|].
    exists m. repeat split; try done; intros E; by rewrite Hg, E.
  - destruct (ToSubnetUpdateMap_spec opts) as (b & m & Hb & Hm & Hg & Hk).
    exists b, m. repeat split; try done; intros E; by rewrite Hg, E.
Qed.

(** The rewriting loop touches the ["If-Match"] entry and nothing else. *)
Lemma rewrite_if_match_lookup (h : gmap string string) k :
  rewrite_if_match h !! k
  = (λ v, if decide (k = "If-Match") then "revision_number=" +:+ v else v)
      <$> h !! k.
Proof.
  unfold rewrite_if_match. rewrite map_lookup_imap.
  by destruct (h !! k).
Qed.

(** C8. [Update] on [UpdateOpts] always sends its request; the request
    carries an [If-Match] header exactly when [RevisionNumber] is not nil,
    its value is ["revision_number="] followed by the number in decimal, and
    it carries no other header of its own. *)
Theorem Update_if_match_header :
  ∀ (updateURL : ServiceClient → string → string) (c : ServiceClient)
    (id : string) (opts : UpdateOpts),
  ∃ r, Update updateURL c id opts = UpdateSent r
       ∧ (∀ n, uoRevisionNumber opts = Some n →
               putMoreHeaders r !! "If-Match"
               = Some ("revision_number=" +:+ pretty n))
       ∧ (uoRevisionNumber opts = None →
          putMoreHeaders r !! "If-Match" = None)
       ∧ (∀ k, k ≠ "If-Match" → putMoreHeaders r !! k = None).
Proof.
  intros updateURL c id opts. unfold Update.
  destruct (ToSubnetUpdateMap_spec opts) as (b & m & -> & _).
  unfold BuildHeaders. eexists. split; [done|]. cbn.
  repeat split.
  - intros n ->. by rewrite rewrite_if_match_lookup, lookup_singleton_eq.
  - intros ->. by rewrite rewrite_if_match_lookup, lookup_empty.
  - intros k Hk. rewrite rewrite_if_match_lookup.
    destruct (uoRevisionNumber opts);
      by rewrite ?lookup_singleton_ne, ?lookup_empty.
Qed.

(** ** Further properties of requests.go *)

(** X1. [Create] never panics. It fails, before any request, exactly when the
    required [NetworkID] is empty. Otherwise it posts to the creation URL a
    body whose ["subnet"] object carries the network ID, and an explicit
    gateway address as it was given. *)
Theorem Create_requires_network_id
    (createURL : ServiceClient → string) (c : ServiceClient)
    (opts : CreateOpts) :
  match Create createURL c opts with
  | CreateErr _ => coNetworkID opts = ""
  | CreatePanic => False
  | CreateSent r =>
      coNetworkID opts ≠ ""
      ∧ postURL r = createURL c
      ∧ ∃ m, postBody r = {[ "subnet" := JObject m ]}
             ∧ m !! "network_id" = Some (JString (coNetworkID opts))
             ∧ ∀ s, coGatewayIP opts = Some s → s ≠ "" →
                    m !! "gateway_ip" = Some (JString s)
  end.
Proof.
  unfold Create. pose proof (ToSubnetCreateMap_spec opts) as H.
  destruct (ToSubnetCreateMap opts) as [b|e|]; [|done..].
  destruct H as (Hn & m & -> & Hg & Hk). split; [done|]. split; [done|].
  exists m. split; [done|]. split.
  - rewrite Hk by done. by rewrite object_of_lookup.
  - intros s Hs Hne. rewrite Hg, Hs. cbn. by rewrite decide_False.
Qed.

(** X2. The revision number of [UpdateOpts] goes into the header and nowhere
    else: whatever it is, [Update] sends the same body to the same URL with
    the same accepted status codes, 200 and 201, and the ["subnet"] object
    of the body has no ["revision_number"] entry. An explicit gateway
    address is sent as it was given. *)
Theorem revision_number_only_in_header
    (updateURL : ServiceClient → string → string) (c : ServiceClient)
    (id : string) (opts : UpdateOpts) (n : option Z) :
  ∃ r r' m,
    Update updateURL c id opts = UpdateSent r
    ∧ Update updateURL c id (with_RevisionNumber n opts) = UpdateSent r'
    ∧ putBody r' = putBody r
    ∧ putURL r' = putURL r
    ∧ putURL r = updateURL c id
    ∧ putOkCodes r = [200; 201]%Z
    ∧ putBody r = {[ "subnet" := JObject m ]}
    ∧ m !! "revision_number" = None
    ∧ ∀ s, uoGatewayIP opts = Some s → s ≠ "" →
           m !! "gateway_ip" = Some (JString s).
Proof.
  unfold Update.
  destruct (ToSubnetUpdateMap_spec opts) as (b & m & Hb & -> & Hg & Hk).
  assert (ToSubnetUpdateMap (with_RevisionNumber n opts)
          = ToSubnetUpdateMap opts) as -> by done.
  rewrite Hb. unfold BuildHeaders. eexists _, _, m. cbn.
  do 7 (split; [done|]). split.
  - rewrite Hk by done. by rewrite object_of_lookup.
  - intros s Hs Hne. rewrite Hg, Hs. cbn. by rewrite decide_False.
Qed.

(** X3. The tail shared by [ToSubnetCreateMap] and [ToSubnetUpdateMap], on any
    body: the type assertion panics exactly when there is no object under
    ["subnet"]. Otherwise only the ["gateway_ip"] entry of that object can
    change, it changes only from the empty string to null, and running the
    tail again changes nothing more. *)
Theorem null_empty_gateway_on_any_body (b : gmap string any) :
  (null_empty_gateway b = None ↔ ∀ m, b !! "subnet" ≠ Some (JObject m))
  ∧ ∀ b', null_empty_gateway b = Some b' →
      null_empty_gateway b' = Some b'
      ∧ (∀ k, k ≠ "subnet" → b' !! k = b !! k)
      ∧ ∃ m m', b !! "subnet" = Some (JObject m)
                ∧ b' !! "subnet" = Some (JObject m')
                ∧ (∀ k, k ≠ "gateway_ip" → m' !! k = m !! k)
                ∧ (m' !! "gateway_ip" ≠ m !! "gateway_ip" →
                   m !! "gateway_ip" = Some (JString "")
                   ∧ m' !! "gateway_ip" = Some JNull).
Proof.
  unfold null_empty_gateway, index. split.
  - destruct (b !! "subnet") as [[| | | | |m]|] eqn:E; cbn;
      try (split; [by intros _ m|done]).
    split; [by destruct (any_eq_string _ _)|].
    intros H. by destruct (H m).
  - intros b' H.
    destruct (b !! "subnet") as [[| | | | |m]|] eqn:E; cbn in H; try done.
    destruct (m !! "gateway_ip") as [[| | |s| |]|] eqn:Eg; cbn in H;
      try (simplify_eq; rewrite E; cbn; rewrite Eg; cbn;
           split; [done|]; split; [done|]; by exists m, m).
    case_bool_decide as Hs; simplify_eq.
    + rewrite lookup_insert_eq. cbn. rewrite lookup_insert_eq. cbn.
      split; [done|]. split; [intros k Hk; by rewrite lookup_insert_ne|].
      eexists _, _. split; [done|]. split; [done|]. split.
      * intros k Hk. by rewrite lookup_insert_ne.
      * intros _. by rewrite lookup_insert_eq.
    + rewrite E. cbn. rewrite Eg. cbn. rewrite bool_decide_false by done.
      split; [done|]. split; [done|]. by exists m, m.
Qed.

(** X4. The loop of [Update] over the headers, on any header map: it keeps the
    set of headers, puts ["revision_number="] in front of the value of
    [If-Match] and leaves every other header as it is. *)
Theorem rewrite_if_match_only_if_match (h : gmap string string) :
  dom (rewrite_if_match h) = dom h
  ∧ (∀ v, h !! "If-Match" = Some v →
          rewrite_if_match h !! "If-Match" = Some ("revision_number=" +:+ v))
  ∧ ∀ k, k ≠ "If-Match" → rewrite_if_match h !! k = h !! k.
Proof.
  split; [|split].
  - apply set_eq. intros k. rewrite !elem_of_dom, rewrite_if_match_lookup.
    by rewrite fmap_is_Some.
  - intros v Hv. by rewrite rewrite_if_match_lookup, Hv.
  - intros k Hk. rewrite rewrite_if_match_lookup.
    destruct (h !! k); cbn; [|done]. by rewrite decide_False.
Qed.

End SubnetRequests.

(** * Properties of the string functions *)

Section StringFacts.
Import Strings.

Lemma append_cons x (a b : string) : String x a +:+ b = String x (a +:+ b).
Proof. reflexivity. Qed.

Lemma append_assoc (a b c : string) : (a +:+ b) +:+ c = a +:+ (b +:+ c).
Proof.
  induction a as [|x a IH]; [done|]. rewrite !append_cons. by f_equal.
Qed.

Lemma append_nil_r (a : string) : a +:+ "" = a.
Proof. induction a as [|x a IH]; [done|]. rewrite append_cons. by f_equal. Qed.

Lemma append_last_inj (x y : string) a b :
  x +:+ String a "" = y +:+ String b "" → a = b.
Proof.
  revert y. induction x as [|c x IH]; intros [|d y] H;
    rewrite ?append_cons in H; change ("" +:+ ?s) with s in H.
  - by simplify_eq.
  - injection H as _ H. destruct y; by rewrite ?append_cons in H.
  - injection H as _ H. destruct x; by rewrite ?append_cons in H.
  - injection H as _ H. by eapply IH.
Qed.

Lemma length_append (a b : string) :
  String.length (a +:+ b) = (String.length a + String.length b)%nat.
Proof.
  induction a as [|x a IH]; [done|]. rewrite append_cons. cbn. by rewrite IH.
Qed.

Lemma substring_all (s : string) : String.substring 0 (String.length s) s = s.
Proof. induction s as [|x s IH]; cbn; [done|]. by f_equal. Qed.

Lemma substring_skip (p s : string) (m : nat) :
  String.substring (String.length p) m (p +:+ s) = String.substring 0 m s.
Proof.
  induction p as [|x p IH]; [done|]. rewrite append_cons. cbn. apply IH.
Qed.

Lemma substring_take (p s : string) :
  String.substring 0 (String.length p) (p +:+ s) = p.
Proof.
  induction p as [|x p IH]; [by destruct s|].
  rewrite append_cons. cbn. by f_equal.
Qed.

Lemma substring_split (s : string) (k : nat) :
  (k ≤ String.length s)%nat →
  s = String.substring 0 k s
      +:+ String.substring k (String.length s - k) s.
Proof.
  revert k. induction s as [|x s IH]; intros k Hk; cbn in *.
  - by destruct k.
  - destruct k as [|k]; cbn.
    + by rewrite substring_all.
    + rewrite append_cons. f_equal. apply IH. lia.
Qed.

(** [strings.HasSuffix s suffix] says that [s] is something followed by
    [suffix]. *)
Lemma HasSuffix_app (p suffix : string) : HasSuffix (p +:+ suffix) suffix = true.
Proof.
  unfold HasSuffix. rewrite length_append.
  rewrite bool_decide_true by lia. cbn.
  replace (String.length p + String.length suffix - String.length suffix)%nat
    with (String.length p) by lia.
  by rewrite substring_skip, substring_all, bool_decide_true.
Qed.

Lemma HasSuffix_inv (s suffix : string) :
  HasSuffix s suffix = true → ∃ p, s = p +:+ suffix.
Proof.
  unfold HasSuffix. intros [Hl Hs]%andb_prop.
  apply bool_decide_eq_true in Hl, Hs.
  exists (String.substring 0 (String.length s - String.length suffix) s).
  pose proof (substring_split s (String.length s - String.length suffix)
                ltac:(lia)) as E.
  replace (String.length s - (String.length s - String.length suffix))%nat
    with (String.length suffix) in E by lia.
  by rewrite Hs in E.
Qed.

Lemma HasSuffix_iff (s suffix : string) :
  HasSuffix s suffix = true ↔ ∃ p, s = p +:+ suffix.
Proof.
  split; [apply HasSuffix_inv|]. intros [p ->]. apply HasSuffix_app.
Qed.

Lemma TrimSuffix_app (p suffix : string) : TrimSuffix (p +:+ suffix) suffix = p.
Proof.
  unfold TrimSuffix. rewrite HasSuffix_app, length_append.
  replace (String.length p + String.length suffix - String.length suffix)%nat
    with (String.length p) by lia.
  apply substring_take.
Qed.

Lemma TrimSuffix_cases (s suffix : string) :
  (TrimSuffix s suffix = s ∧ HasSuffix s suffix = false)
  ∨ (s = TrimSuffix s suffix +:+ suffix).
Proof.
  destruct (HasSuffix s suffix) eqn:E.
  - right. apply HasSuffix_inv in E as [p ->]. by rewrite TrimSuffix_app.
  - left. unfold TrimSuffix. by rewrite E.
Qed.

Lemma prefix_cons a b (s1 s2 : string) :
  String.prefix (String a s1) (String b s2)
  = if Ascii.ascii_dec a b then String.prefix s1 s2 else false.
Proof. reflexivity. Qed.

Lemma prefix_app (a r : string) : String.prefix a (a +:+ r) = true.
Proof.
  induction a as [|x a IH]; [by destruct r|]. rewrite append_cons. cbn.
  by destruct (Ascii.ascii_dec x x).
Qed.

Lemma prefix_inv (a b : string) :
  String.prefix a b = true → ∃ r, b = a +:+ r.
Proof.
  revert b. induction a as [|x a IH]; intros b H; [by exists b|].
  destruct b as [|y b]; [done|]. cbn in H.
  destruct (Ascii.ascii_dec x y) as [->|]; [|done].
  destruct (IH _ H) as [r ->]. by exists r.
Qed.

(** A prefix of [x +:+ y] that is no longer than [x] is a prefix of [x]. *)
Lemma prefix_app_short (a x y : string) :
  String.prefix a (x +:+ y) = true →
  (String.length a ≤ String.length x)%nat →
  String.prefix a x = true.
Proof.
  revert x. induction a as [|c a IH]; intros x H Hl; [by destruct x|].
  destruct x as [|d x]; [cbn in Hl; lia|].
  rewrite append_cons in H. cbn in *.
  destruct (Ascii.ascii_dec c d); [|done]. apply IH; [done|lia].
Qed.

(** [replace_from] drops the characters it has been told to skip. *)
Lemma replace_from_skip (old new p s : string) :
  replace_from old new (String.length p) (p +:+ s)
  = replace_from old new 0 s.
Proof.
  induction p as [|x p IH]; [done|]. rewrite append_cons. cbn. apply IH.
Qed.

Lemma replace_from_match (old new r : string) :
  old ≠ "" →
  replace_from old new 0 (old +:+ r) = new +:+ replace_from old new 0 r.
Proof.
  intros Hold. destruct old as [|c old]; [done|].
  pose proof (prefix_app (String c old) r) as Hp.
  rewrite append_cons in *. cbn [replace_from]. rewrite Hp.
  replace (String.length (String c old) - 1)%nat with (String.length old)
    by (cbn; lia).
  by rewrite replace_from_skip.
Qed.

(** Where [old] does not occur, nothing is replaced. *)
Lemma replace_from_absent (old new s : string) :
  Contains s old = false → replace_from old new 0 s = s.
Proof.
  induction s as [|c s IH]; [done|].
  cbn [Contains replace_from]. intros [Hp Hc]%orb_false_elim.
  rewrite Hp. f_equal. by apply IH.
Qed.

Lemma ReplaceAll_absent (s old new : string) :
  old ≠ "" → Contains s old = false → ReplaceAll s old new = s.
Proof.
  intros Hold Hc. unfold ReplaceAll. rewrite decide_False by done.
  by apply replace_from_absent.
Qed.

(** The version segment ["v2.0/"] does not overlap itself: it cannot start
    inside [p] and end inside a copy of itself that follows [p], unless it
    lies within [p]. *)
Lemma version_segment_no_straddle (c : Ascii.ascii) (p : string) :
  String.prefix "v2.0/" (String c p) = false →
  String.prefix "v2.0/" (String c p +:+ "v2.0/") = false.
Proof.
  intros Hp.
  destruct (String.prefix "v2.0/" (String c p +:+ "v2.0/")) eqn:E; [|done].
  destruct (decide (5 ≤ String.length (String c p))%nat) as [Hl|Hl].
  { by rewrite (prefix_app_short _ _ _ E Hl) in Hp. }
  exfalso. clear Hp. cbn in Hl.
  destruct p as [|a1 [|a2 [|a3 [|a4 p]]]]; [..|cbn in Hl; lia];
    rewrite ?append_cons in E; rewrite !prefix_cons in E;
    repeat (destruct (Ascii.ascii_dec _ _) in E; [|done]); done.
Qed.

(** A trailing version segment is removed, and nothing else, when it is the
    only one. *)
Lemma ReplaceAll_trailing_version (p : string) :
  Contains p "v2.0/" = false →
  ReplaceAll (p +:+ "v2.0/") "v2.0/" "" = p.
Proof.
  unfold ReplaceAll. rewrite decide_False by done.
  induction p as [|c p IH]; [done|].
  cbn [Contains]. intros [Hp Hc]%orb_false_elim.
  pose proof (version_segment_no_straddle c p Hp) as Hs.
  rewrite append_cons in *. cbn [replace_from]. rewrite Hs.
  f_equal. by apply IH.
Qed.

End StringFacts.

(** * Properties of the authentication flow *)

Section Authentication.
Import Gophercloud Openstack.
Context (W : World).
#[local] Open Scope list_scope.

(** ** Reasoning about runs *)

Lemma bind_inv {A B} (c : M A) (k : A → M B) st o st' :
  bind c k st = (o, st') →
  (∃ a st1, c st = (Val a, st1) ∧ k a st1 = (o, st'))
  ∨ (c st = (Panic, st') ∧ o = Panic).
Proof.
  unfold bind. destruct (c st) as [[a|] st1]; intros H.
  - left. eauto.
  - right. by simplify_eq.
Qed.

Lemma bind_val {A B} (c : M A) (k : A → M B) st a st1 :
  c st = (Val a, st1) → bind c k st = k a st1.
Proof. unfold bind. by intros ->. Qed.

Lemma bind_panic {A B} (c : M A) (k : A → M B) st st1 :
  c st = (Panic, st1) → bind c k st = (Panic, st1).
Proof. unfold bind. by intros ->. Qed.

Lemma deref_inv p st o st' :
  deref p st = (o, st') →
  st' = st ∧ (∀ c, o = Val c → heap st !! p = Some c)
  ∧ (o = Panic → heap st !! p = None).
Proof.
  unfold deref. destruct (heap st !! p); intros; simplify_eq; naive_solver.
Qed.

Lemma modify_inv p f st o st' :
  modify p f st = (o, st') →
  (∃ c, heap st !! p = Some c ∧ o = Val ()
        ∧ st' = {| heap := <[p := f c]> (heap st); trace := trace st |})
  ∨ (heap st !! p = None ∧ o = Panic ∧ st' = st).
Proof.
  unfold modify. destruct (heap st !! p); intros; simplify_eq; naive_solver.
Qed.

Lemma request_inv via r st o st' :
  request W via r st = (o, st') →
  (∃ c, heap st !! via = Some c
        ∧ o = Val (identity W (trace st) r)
        ∧ st' = {| heap := heap st;
                   trace := trace st ++
                     [EvRequest via (armed c) r] |})
  ∨ (heap st !! via = None ∧ o = Panic ∧ st' = st).
Proof.
  unfold request, bind, deref.
  destruct (heap st !! via); intros; simplify_eq; naive_solver.
Qed.

(** Symbolic execution of a run equation [c st = (o, st')] in a hypothesis. *)
Ltac run_step :=
  match goal with
  | H : bind _ _ _ = (_, _) |- _ =>
      apply bind_inv in H as [(? & ? & ? & ?)|[? ?]]
  | H : ret _ _ = (_, _) |- _ => unfold ret in H; simplify_eq
  | H : panic _ = (_, _) |- _ => unfold panic in H; simplify_eq
  | H : emit _ _ = (_, _) |- _ => unfold emit in H; simplify_eq
  | H : alloc _ _ = (_, _) |- _ => unfold alloc in H; simplify_eq
  | H : deref _ _ = (_, _) |- _ =>
      apply deref_inv in H as (-> & ? & ?)
  | H : modify _ _ _ = (_, _) |- _ =>
      apply modify_inv in H as [(? & ? & ? & ?)|(? & ? & ?)]
  | H : request _ _ _ _ = (_, _) |- _ =>
      apply request_inv in H as [(? & ? & ? & ?)|(? & ? & ?)]
  | H : (match ?x with _ => _ end) _ = (_, _) |- _ => destruct x eqn:?
  end; simplify_eq; cbn [heap trace fst snd] in *.

Lemma requests_app t1 t2 : requests (t1 ++ t2) = requests t1 ++ requests t2.
Proof. unfold requests. apply filter_app. Qed.

(** ** Identity service clients *)



Ltac specialize_outcomes :=
  repeat match goal with
         | H : Panic = Panic → _ |- _ => specialize (H eq_refl)
         | H : ∀ c, Val ?x = Val c → _ |- _ => specialize (H _ eq_refl)
         end.

Lemma NewIdentityV3_panic client eo st st' :
  NewIdentityV3 W client eo st = (Panic, st') →
  st' = st
  ∧ (heap st !! client = None
     ∨ (eo ≠ EndpointOpts_zero
        ∧ heap st !! client ≫= EndpointLocator = None)).
Proof.
  unfold NewIdentityV3, call_EndpointLocator. intros H.
  destruct st as [h t].
  repeat run_step; specialize_outcomes; cbn in *; simplify_eq.
  all: try (split; [done|by left]).
  split; [done|]. right. split; [done|].
  match goal with Hx : _ !! client = Some _ |- _ => by rewrite Hx end.
Qed.


(** ** Token pass-through with reauthentication *)

Lemma v3_acquire_misuse client v3Client opts st :
  (token_and_passthrough opts).1 ≠ "" →
  (token_and_passthrough opts).2 = true →
  CanReauth3 W opts = true →
  v3_acquire W client v3Client opts st = (Val (Err misuse), st).
Proof.
  unfold v3_acquire. destruct (token_and_passthrough opts) as [t p]. cbn.
  intros Ht -> ->. by rewrite bool_decide_false.
Qed.


(** With empty endpoint options, on a live provider whose identity base
    parses, the identity service client is always built. *)
Lemma NewIdentityV3_default client c base st :
  heap st !! client = Some c →
  BaseEndpoint W (IdentityBase c +:+ "v3/") = Ok base →
  NewIdentityV3 W client EndpointOpts_zero st
  = (Val (Ok (identity_client client (NormalizeURL W base +:+ "v3/"))), st).
Proof.
  intros Hc Hb. unfold NewIdentityV3, bind, deref. rewrite Hc.
  rewrite decide_True by done. unfold ret. by rewrite Hb.
Qed.

(** ** What a run of [v3auth] and [v2auth] leaves behind *)

Lemma modify_eq p f c st :
  heap st !! p = Some c →
  modify p f st
  = (Val (), {| heap := <[p := f c]> (heap st); trace := trace st |}).
Proof. unfold modify. by intros ->. Qed.

Lemma insert_fresh (h : list ProviderClient) c c' :
  <[length h := c']> (h ++ [c]) = h ++ [c'].
Proof. rewrite insert_app_r_alt by done. by rewrite Nat.sub_diag. Qed.

Lemma lookup_fresh (h : list ProviderClient) c :
  (h ++ [c]) !! length h = Some c.
Proof. by apply list_lookup_middle. Qed.

Lemma throwaway_copy_eq client c st :
  heap st !! client = Some c →
  throwaway_copy client st
  = (Val (length (heap st), None),
     {| heap := heap st ++ [throwaway_of c]; trace := trace st |}).
Proof.
  intros Hc.
  unfold throwaway_copy, bind, deref, alloc, SetThrowaway,
    SetTokenAndAuthResult.
  rewrite Hc. cbv beta iota.
  erewrite modify_eq by apply lookup_fresh. cbn [heap trace].
  rewrite insert_fresh.
  erewrite modify_eq by apply lookup_fresh. cbn [heap trace].
  rewrite insert_fresh. unfold bind.
  erewrite modify_eq by apply lookup_fresh. cbn [heap trace].
  by rewrite insert_fresh.
Qed.

Lemma NewIdentityV3_trace client eo st o st' :
  NewIdentityV3 W client eo st = (o, st') →
  ∃ l, st' = {| heap := heap st; trace := trace st ++ l |}
       ∧ requests l = []
       ∧ (eo = EndpointOpts_zero → l = [])
       ∧ (∀ sc, o = Val (Ok sc) → is_Some (heap st !! client)).
Proof.
  unfold NewIdentityV3, call_EndpointLocator. intros H.
  destruct st as [h t].
  repeat run_step;
    (try by (exists []; rewrite app_nil_r; naive_solver));
    (eexists [_]; naive_solver).
Qed.

Lemma v3_install_reauth_eq client c endpoint opts eo st :
  heap st !! client = Some c →
  v3_install_reauth W client endpoint opts eo st
  = (Val None,
     if CanReauth3 W opts
     then {| heap :=
               <[client := set_ReauthFunc
                             (Some (ReauthV3 client (length (heap st)) endpoint
                                      (throwaway_options opts) eo)) c]>
                 (heap st ++ [throwaway_of c]);
             trace := trace st |}
     else st).
Proof.
  intros Hc. unfold v3_install_reauth.
  destruct (CanReauth3 W opts); [|done].
  unfold bind. rewrite (throwaway_copy_eq _ c) by done.
  erewrite modify_eq by (by apply lookup_app_l_Some). done.
Qed.

Lemma ExtractTokenID_Ok r t :
  ExtractTokenID r = Ok t → arErr r = None ∧ t = arTokenID r.
Proof. unfold ExtractTokenID. destruct (arErr r); naive_solver. Qed.

Lemma set_token_set_token t r t' r' c :
  set_token t r (set_token t' r' c) = set_token t r c.
Proof. done. Qed.

Lemma set_token_id c : set_token (TokenID c) (authResult c) c = c.
Proof. by destruct c. Qed.

Lemma heap_unchanged_as_set_token (h : list ProviderClient) client c :
  h !! client = Some c →
  ∃ t r, h = <[client := set_token t r c]> h.
Proof.
  intros Hc. exists (TokenID c), (authResult c).
  by rewrite set_token_id, list_insert_id.
Qed.

(** A cell that has just been written cannot be missing. *)
Ltac heap_contra :=
  match goal with
  | H : <[?i := _]> ?l !! ?i = None, H' : ?l !! ?i = Some _ |- _ =>
      apply lookup_lt_Some in H';
      rewrite list_lookup_insert_eq in H by done; done
  end.

Ltac heap_read :=
  repeat match goal with
         | H : <[?i := _]> _ !! ?i = Some _ |- _ =>
             apply list_lookup_insert_Some in H as [(? & ? & ?)|[? ?]];
             [simplify_eq|done]
         end.

Lemma v3_acquire_inv client sc opts st o st' :
  v3_acquire W client sc opts st = (o, st') →
  (st' = st ∧ ∀ catalog, o ≠ Val (Ok catalog))
  ∨ ∃ c, heap st !! client = Some c
         ∧ trace st' = trace st ++
             [EvRequest client (armed c) (token_request (scEndpoint sc) opts)]
         ∧ (∃ t r, heap st' = <[client := set_token t r c]> (heap st))
         ∧ ∀ catalog, o = Val (Ok catalog) →
             let result :=
               identity W (trace st) (token_request (scEndpoint sc) opts) in
             heap st' = <[client := set_token (arTokenID result) (Some result) c]>
                          (heap st)
             ∧ arErr result = None
             ∧ ExtractServiceCatalog result = Ok catalog.
Proof.
  unfold v3_acquire, token_request, SetToken, SetTokenAndAuthResult.
  destruct (token_and_passthrough opts) as [tokenID passthroughToken].
  intros H. destruct st as [h t].
  repeat run_step; try heap_contra; heap_read;
    repeat match goal with
           | H : ExtractTokenID _ = Ok _ |- _ =>
               apply ExtractTokenID_Ok in H as [? ?]; simplify_eq
           end;
    try (left; split; [done|congruence]);
    right; eexists; (split; [eassumption|]); cbn; (split; [done|]);
    rewrite ?list_insert_insert_eq; cbn;
    (split; [by eauto using heap_unchanged_as_set_token|]);
    intros; by simplify_eq.
Qed.

(** Every run of [v3auth], by how far it gets: it stops before any request
    ([l] holds the locator call, if any); or it sends its one request and
    fails; or it succeeds. *)
Lemma v3auth_inv client endpoint opts eo st o st' :
  v3auth W client endpoint opts eo st = (o, st') →
  ∃ l, requests l = [] ∧ (eo = EndpointOpts_zero → l = []) ∧
    ((st' = {| heap := heap st; trace := trace st ++ l |} ∧ o ≠ Val None)
     ∨ ∃ c ep,
         let req := token_request ep opts in
         let result := identity W (trace st ++ l) req in
         heap st !! client = Some c
         ∧ trace st' = trace st ++ l ++ [EvRequest client (armed c) req]
         ∧ ((o ≠ Val None
             ∧ ∃ t r, heap st' = <[client := set_token t r c]> (heap st))
            ∨ (o = Val None
               ∧ arErr result = None
               ∧ ∃ catalog,
                   ExtractServiceCatalog result = Ok catalog
                   ∧ heap st'
                     = <[client := v3_authenticated W client (length (heap st))
                                     endpoint opts eo result catalog c]>
                         (heap st)
                       ++ (if CanReauth3 W opts
                           then [throwaway_of
                                   (set_token (arTokenID result)
                                      (Some result) c)]
                           else [])))).
Proof.
  unfold v3auth. intros H.
  apply bind_inv in H as [(r & st1 & HN & H)|[HN ->]];
    apply NewIdentityV3_trace in HN as (l & -> & Hl & Hz & Hsc);
    exists l; (split; [done|]); (split; [done|]); [|by left].
  destruct r as [v3Client|e]; [|unfold ret in H; simplify_eq; by left].
  set (ep := scEndpoint (if decide (endpoint = "") then v3Client
                         else with_Endpoint endpoint v3Client)) in *.
  apply bind_inv in H as [(r & st2 & HA & H)|[HA ->]];
    apply v3_acquire_inv in HA
      as [[-> Hno]|(c & Hc & Ht & Hh & Hok)]; cbn [heap trace] in *.
  - left. destruct r; unfold ret in H; simplify_eq; [by edestruct Hno|done].
  - right. exists c, ep. cbn zeta. split; [done|].
    destruct r as [catalog|e].
    2:{ unfold ret in H. simplify_eq.
        rewrite Ht, <- app_assoc. split; [done|]. by left. }
    destruct (Hok catalog eq_refl) as (Hh' & He & Hcat).
    set (result := identity W (trace st ++ l) (token_request ep opts)) in *.
    assert (client < length (heap st)) by (by eapply lookup_lt_Some).
    assert (length (heap st2) = length (heap st)) as Hlen
      by (by rewrite Hh', length_insert).
    assert (heap st2 !! client
            = Some (set_token (arTokenID result) (Some result) c)) as Hc1
      by (rewrite Hh'; by apply list_lookup_insert_eq).
    unfold bind in H. rewrite (v3_install_reauth_eq _ _ _ _ _ _ Hc1) in H.
    unfold v3_authenticated.
    destruct (CanReauth3 W opts).
    + erewrite modify_eq in H; cycle 1.
      { cbn. apply list_lookup_insert_eq. rewrite length_app, Hlen. lia. }
      unfold ret in H. simplify_eq. cbn [heap trace].
      rewrite Ht, <- app_assoc. split; [done|]. right.
      split; [done|]. split; [done|]. exists catalog. split; [done|].
      rewrite list_insert_insert_eq, Hlen, Hh'.
      rewrite insert_app_l by (rewrite length_insert; lia).
      by rewrite list_insert_insert_eq.
    + erewrite modify_eq in H by done.
      unfold ret in H. simplify_eq. cbn [heap trace].
      rewrite Ht, <- app_assoc. split; [done|]. right.
      split; [done|]. split; [done|]. exists catalog. split; [done|].
      by rewrite Hh', list_insert_insert_eq, app_nil_r.
  - by left.
  - right. exists c, ep. cbn zeta. split; [done|].
    rewrite Ht, <- app_assoc. split; [done|]. by left.
Qed.

Lemma NewIdentityV2_trace client eo st o st' :
  NewIdentityV2 W client eo st = (o, st') →
  ∃ l, st' = {| heap := heap st; trace := trace st ++ l |}
       ∧ requests l = []
       ∧ (eo = EndpointOpts_zero → l = []).
Proof.
  unfold NewIdentityV2, call_EndpointLocator. intros H.
  destruct st as [h t].
  repeat run_step;
    (try by (exists []; rewrite app_nil_r; naive_solver));
    (eexists [_]; naive_solver).
Qed.

Lemma v2_install_reauth_eq client c endpoint options eo st :
  heap st !! client = Some c →
  v2_install_reauth W client endpoint options eo st
  = (Val None,
     if CanReauth2 W options
     then {| heap :=
               <[client := set_ReauthFunc
                             (Some (ReauthV2 client (length (heap st)) endpoint
                                      options eo)) c]>
                 (heap st ++ [throwaway_of c]);
             trace := trace st |}
     else st).
Proof.
  intros Hc. unfold v2_install_reauth.
  destruct (CanReauth2 W options); [|done].
  unfold bind. rewrite (throwaway_copy_eq _ c) by done.
  erewrite modify_eq by (by apply lookup_app_l_Some). done.
Qed.

(** Every run of [v2auth], by how far it gets. *)
Lemma v2auth_inv client endpoint options eo st o st' :
  v2auth W client endpoint options eo st = (o, st') →
  ∃ l, requests l = [] ∧ (eo = EndpointOpts_zero → l = []) ∧
    ((st' = {| heap := heap st; trace := trace st ++ l |} ∧ o ≠ Val None)
     ∨ ∃ c ep,
         let req := Tokens2Create ep options in
         let result := identity W (trace st ++ l) req in
         heap st !! client = Some c
         ∧ trace st' = trace st ++ l ++ [EvRequest client (armed c) req]
         ∧ ((o ≠ Val None
             ∧ ∃ t r, heap st' = <[client := set_token t r c]> (heap st))
            ∨ (o = Val None
               ∧ arErr result = None
               ∧ ∃ catalog,
                   ExtractServiceCatalog result = Ok catalog
                   ∧ heap st'
                     = <[client := v2_authenticated W client (length (heap st))
                                     endpoint options eo result catalog c]>
                         (heap st)
                       ++ (if CanReauth2 W options
                           then [throwaway_of
                                   (set_token (arTokenID result)
                                      (Some result) c)]
                           else [])))).
Proof.
  unfold v2auth. intros H.
  apply bind_inv in H as [(r & st1 & HN & H)|[HN ->]];
    apply NewIdentityV2_trace in HN as (l & -> & Hl & Hz);
    exists l; (split; [done|]); (split; [done|]); [|by left].
  destruct r as [v2Client|e]; [|unfold ret in H; simplify_eq; by left].
  set (ep := scEndpoint (if decide (endpoint = "") then v2Client
                         else with_Endpoint endpoint v2Client)) in *.
  apply bind_inv in H as [(result & st2 & HR & H)|[HR ->]];
    apply request_inv in HR as [(c & Hc & ? & ->)|(? & ? & ->)];
    simplify_eq; cbn [heap trace] in *; [|by left].
  set (result := identity W (trace st ++ l) (Tokens2Create ep options)) in *.
  assert (client < length (heap st)) by (by eapply lookup_lt_Some).
  right. exists c, ep. cbn zeta. split; [done|].
  unfold SetTokenAndAuthResult in H.
  destruct (ExtractTokenID result) as [t|e] eqn:Ht.
  2:{ unfold bind in H. cbn in H.
      unfold ret in H. simplify_eq. cbn. rewrite <- app_assoc.
      split; [done|]. left. split; [done|].
      by apply heap_unchanged_as_set_token. }
  apply ExtractTokenID_Ok in Ht as [He ->].
  unfold bind in H at 1 2. erewrite modify_eq in H by done.
  cbn [heap trace ret] in H. unfold ret in H at 1.
  destruct (ExtractServiceCatalog result) as [catalog|e] eqn:Hcat.
  2:{ unfold ret in H. simplify_eq. cbn. rewrite <- app_assoc.
      split; [done|]. left. split; [done|]. eauto. }
  unfold bind in H.
  erewrite v2_install_reauth_eq in H
    by (cbn; by apply list_lookup_insert_eq).
  cbn [heap trace] in H. unfold v2_authenticated.
  destruct (CanReauth2 W options).
  - erewrite modify_eq in H; cycle 1.
    { cbn. apply list_lookup_insert_eq.
      rewrite length_app, length_insert. lia. }
    unfold ret in H. simplify_eq. cbn [heap trace].
    rewrite <- app_assoc. split; [done|]. right.
    split; [done|]. split; [done|]. exists catalog. split; [done|].
    rewrite list_insert_insert_eq, length_insert.
    rewrite insert_app_l by (rewrite length_insert; lia).
    by rewrite list_insert_insert_eq.
  - erewrite modify_eq in H by (cbn; by apply list_lookup_insert_eq).
    unfold ret in H. simplify_eq. cbn [heap trace].
    rewrite <- app_assoc. split; [done|]. right.
    split; [done|]. split; [done|]. exists catalog. split; [done|].
    by rewrite list_insert_insert_eq, app_nil_r.
Qed.

(** ** Fresh credential exchange *)


Lemma lookup_written (h extra : list ProviderClient) p x :
  p < length h → (<[p := x]> h ++ extra) !! p = Some x.
Proof. intros. apply lookup_app_l_Some. by apply list_lookup_insert_eq. Qed.

Lemma lookup_elsewhere (h extra : list ProviderClient) p q x :
  q ≠ p → q < length h → (<[p := x]> h ++ extra) !! q = h !! q.
Proof.
  intros. rewrite lookup_app_l by (by rewrite length_insert).
  by apply list_lookup_insert_ne.
Qed.


(** ** The reauthentication callback *)

(** A run of [v3auth] or [v2auth] on [p] writes to the cell of [p] and to
    fresh cells only. *)
Lemma v3auth_frame p endpoint opts eo st o st' q :
  v3auth W p endpoint opts eo st = (o, st') →
  q ≠ p → q < length (heap st) →
  heap st' !! q = heap st !! q.
Proof.
  intros H Hq Hlt.
  apply v3auth_inv in H
    as (l & _ & _ & [[-> _]|(c & ep & Hc & Ht & [[_ (t & r & ->)]|(_ & _ & cat & _ & ->)])]);
    try done.
  - by apply list_lookup_insert_ne.
  - by apply lookup_elsewhere.
Qed.

Lemma v2auth_frame p endpoint options eo st o st' q :
  v2auth W p endpoint options eo st = (o, st') →
  q ≠ p → q < length (heap st) →
  heap st' !! q = heap st !! q.
Proof.
  intros H Hq Hlt.
  apply v2auth_inv in H
    as (l & _ & _ & [[-> _]|(c & ep & Hc & Ht & [[_ (t & r & ->)]|(_ & _ & cat & _ & ->)])]);
    try done.
  - by apply list_lookup_insert_ne.
  - by apply lookup_elsewhere.
Qed.

Lemma inner_auth_frame f st o st' q :
  inner_auth W f st = (o, st') →
  q ≠ reauth_tac f → q < length (heap st) →
  heap st' !! q = heap st !! q.
Proof.
  destruct f; cbn; eauto using v2auth_frame, v3auth_frame.
Qed.

(** A successful authentication leaves its provider in the heap. *)
Lemma inner_auth_success_live f st st' :
  inner_auth W f st = (Val None, st') →
  is_Some (heap st' !! reauth_tac f).
Proof.
  destruct f; cbn; intros H.
  - apply v2auth_inv in H
      as (l & _ & _ & [[_ ?]|(c & ep & Hc & Ht & [[? _]|(_ & _ & cat & _ & ->)])]);
      try done.
    rewrite lookup_written by (by eapply lookup_lt_Some). eauto.
  - apply v3auth_inv in H
      as (l & _ & _ & [[_ ?]|(c & ep & Hc & Ht & [[? _]|(_ & _ & cat & _ & ->)])]);
      try done.
    rewrite lookup_written by (by eapply lookup_lt_Some). eauto.
Qed.

Lemma call_ReauthFunc_unfold f :
  call_ReauthFunc W f
  = (let* err := inner_auth W f in
     match err with
     | Some e => ret (Some e)
     | None => CopyTokenFrom (reauth_client f) (reauth_tac f);; ret None
     end).
Proof. by destruct f. Qed.

(** C3. An invocation of the callback returns what the authentication on
    the throw-away client returns. If that is an error, the run stops there
    and the live provider is exactly as it was before the invocation: its
    token and authentication result are untouched. If it is success, the
    live provider takes over the token and the authentication result of the
    throw-away client, and nothing else of it changes. *)
Theorem reauth_copies_token_only_on_success f st c :
  reauth_client f ≠ reauth_tac f →
  heap st !! reauth_client f = Some c →
  match inner_auth W f st with
  | (Val (Some e), st1) =>
      call_ReauthFunc W f st = (Val (Some e), st1)
      ∧ heap st1 !! reauth_client f = Some c
  | (Val None, st1) =>
      ∃ t, heap st1 !! reauth_tac f = Some t
           ∧ call_ReauthFunc W f st
             = (Val None,
                {| heap := <[reauth_client f :=
                               set_token (TokenID t) (authResult t) c]>
                             (heap st1);
                   trace := trace st1 |})
  | (Panic, st1) => call_ReauthFunc W f st = (Panic, st1)
  end.
Proof.
  intros Hne Hc. rewrite call_ReauthFunc_unfold.
  assert (reauth_client f < length (heap st)) by (by eapply lookup_lt_Some).
  destruct (inner_auth W f st) as [[[e|]|] st1] eqn:HI.
  - rewrite (bind_val _ _ _ _ _ HI). split; [done|].
    by erewrite inner_auth_frame.
  - destruct (inner_auth_success_live _ _ _ HI) as [t Ht]. exists t.
    split; [done|]. rewrite (bind_val _ _ _ _ _ HI).
    unfold CopyTokenFrom, bind, deref. rewrite Ht.
    erewrite modify_eq; [done|]. by erewrite inner_auth_frame.
  - by rewrite (bind_panic _ _ _ _ HI).
Qed.

(** ** One attempt per invocation *)

Lemma requests_nil_no_request l e :
  requests l = [] → e ∈ l → is_request e = false.
Proof.
  unfold requests. intros Hl He.
  destruct (is_request e) eqn:E; [|done].
  assert (e ∈ filter is_request l) as Hin
    by (apply list_elem_of_filter; split; [by rewrite E|done]).
  rewrite Hl in Hin. by apply not_elem_of_nil in Hin.
Qed.

Lemma requests_through_snoc p a l r :
  requests l = [] → requests_through p a (l ++ [EvRequest p a r]).
Proof.
  intros Hl via a' r' [Hin|Hin]%elem_of_app.
  - by apply (requests_nil_no_request _ _ Hl) in Hin.
  - apply list_elem_of_singleton in Hin. by simplify_eq.
Qed.

Lemma requests_through_none p a l :
  requests l = [] → requests_through p a l.
Proof.
  intros Hl via a' r' Hin.
  by apply (requests_nil_no_request _ _ Hl) in Hin.
Qed.

Lemma requests_snoc_length l e :
  requests l = [] → (length (requests (l ++ [e])) ≤ 1)%nat.
Proof.
  intros Hl. rewrite requests_app, Hl. unfold requests. cbn.
  case_decide; cbn; lia.
Qed.

(** What an authentication on the throw-away client [t] adds to the trace:
    at most one request, sent through that client with its callback in the
    state it had at the start. *)
Lemma inner_auth_trace f st o st' t :
  heap st !! reauth_tac f = Some t →
  inner_auth W f st = (o, st') →
  ∃ l, trace st' = trace st ++ l
       ∧ (length (requests l) ≤ 1)%nat
       ∧ requests_through (reauth_tac f) (armed t) l.
Proof.
  intros Ht H. destruct f; cbn in *.
  - apply v2auth_inv in H
      as (l & Hl & _ & [[-> _]|(c & ep & Hc & Htr & _)]); simplify_eq.
    + exists l. rewrite Hl. cbn. eauto using requests_through_none with lia.
    + eexists. rewrite Htr. split; [done|].
      eauto using requests_through_snoc, requests_snoc_length.
  - apply v3auth_inv in H
      as (l & Hl & _ & [[-> _]|(c & ep & Hc & Htr & _)]); simplify_eq.
    + exists l. rewrite Hl. cbn. eauto using requests_through_none with lia.
    + eexists. rewrite Htr. split; [done|].
      eauto using requests_through_snoc, requests_snoc_length.
Qed.

Lemma call_ReauthFunc_trace f st o st' :
  call_ReauthFunc W f st = (o, st') →
  trace st' = trace (inner_auth W f st).2.
Proof.
  rewrite call_ReauthFunc_unfold. unfold CopyTokenFrom. intros H.
  apply bind_inv in H as [(a & st1 & -> & H)|[-> _]]; [|done].
  repeat run_step; done.
Qed.

(** As long as the throw-away client has no callback of its own, an
    invocation of the callback makes one authentication attempt: it sends at
    most one request, through the throw-away client, and no callback is
    armed for it. *)
Lemma callback_single_unarmed_attempt f st o st' t :
  heap st !! reauth_tac f = Some t →
  ReauthFunc t = None →
  call_ReauthFunc W f st = (o, st') →
  ∃ l, trace st' = trace st ++ l
       ∧ (length (requests l) ≤ 1)%nat
       ∧ requests_through (reauth_tac f) false l.
Proof.
  intros Ht Hr H. apply call_ReauthFunc_trace in H. rewrite H.
  destruct (inner_auth W f st) as [o1 st1] eqn:HI.
  destruct (inner_auth_trace _ _ _ _ _ Ht HI) as (l & ? & ? & Hl).
  exists l. unfold armed in Hl. rewrite Hr in Hl.
  rewrite bool_decide_false in Hl by (by intros [? ?]). done.
Qed.

(** When the options of the callback cannot reauthenticate, the throw-away
    client comes out of an invocation without a callback, as it went in. *)
Lemma callback_keeps_throwaway_disarmed f st o st' t :
  reauth_client f ≠ reauth_tac f →
  heap st !! reauth_tac f = Some t →
  ReauthFunc t = None →
  inner_CanReauth W f = false →
  call_ReauthFunc W f st = (o, st') →
  ∃ t', heap st' !! reauth_tac f = Some t' ∧ ReauthFunc t' = None.
Proof.
  intros Hne Ht Hr Hcan H.
  assert (reauth_tac f < length (heap st)) by (by eapply lookup_lt_Some).
  assert (∃ t', heap (inner_auth W f st).2 !! reauth_tac f = Some t'
                ∧ ReauthFunc t' = None) as (t1 & Ht1 & Hr1).
  { destruct (inner_auth W f st) as [o1 st1] eqn:HI.
    destruct f; cbn in *.
    - apply v2auth_inv in HI
        as (l & _ & _ & [[-> _]|(c & ep & Hc & _ & [[_ (? & ? & ->)]|(_ & _ & cat & _ & ->)])]);
        simplify_eq; cbn; eauto.
      + rewrite list_lookup_insert_eq by done. eauto.
      + rewrite lookup_written by done. eauto.
    - apply v3auth_inv in HI
        as (l & _ & _ & [[-> _]|(c & ep & Hc & _ & [[_ (? & ? & ->)]|(_ & _ & cat & _ & ->)])]);
        simplify_eq; cbn; eauto.
      + rewrite list_lookup_insert_eq by done. eauto.
      + rewrite lookup_written by done. unfold v3_authenticated.
        rewrite Hcan. eauto. }
  rewrite call_ReauthFunc_unfold in H. unfold CopyTokenFrom in H.
  apply bind_inv in H as [(a & st1 & HI & H)|[HI _]];
    rewrite HI in Ht1; cbn in Ht1; [|eauto].
  repeat run_step; eauto.
  rewrite list_lookup_insert_ne by done. eauto.
Qed.

(** The callback [v3auth] installs, and the throw-away client it captures. *)
Lemma v3auth_installs client endpoint opts eo st st' :
  v3auth W client endpoint opts eo st = (Val None, st') →
  CanReauth3 W opts = true →
  ∃ c' t,
    heap st' !! client = Some c'
    ∧ ReauthFunc c'
      = Some (ReauthV3 client (length (heap st)) endpoint
                (throwaway_options opts) eo)
    ∧ client ≠ length (heap st)
    ∧ heap st' !! length (heap st) = Some t
    ∧ ReauthFunc t = None ∧ Throwaway t = true
    ∧ TokenID t = "" ∧ authResult t = None.
Proof.
  intros H Hcan.
  apply v3auth_inv in H
    as (l & _ & _ & [[_ ?]|(c & ep & Hc & _ & [[? _]|(_ & _ & cat & _ & ->)])]);
    try done.
  assert (client < length (heap st)) by (by eapply lookup_lt_Some).
  rewrite Hcan. eexists _, _.
  rewrite lookup_written by done. split; [done|].
  unfold v3_authenticated. rewrite Hcan. split; [done|]. split; [lia|].
  rewrite list_lookup_middle by (by rewrite length_insert). done.
Qed.

Lemma v2auth_installs client endpoint options eo st st' :
  v2auth W client endpoint options eo st = (Val None, st') →
  CanReauth2 W options = true →
  ∃ c' t,
    heap st' !! client = Some c'
    ∧ ReauthFunc c'
      = Some (ReauthV2 client (length (heap st)) endpoint options eo)
    ∧ client ≠ length (heap st)
    ∧ heap st' !! length (heap st) = Some t
    ∧ ReauthFunc t = None ∧ Throwaway t = true
    ∧ TokenID t = "" ∧ authResult t = None.
Proof.
  intros H Hcan.
  apply v2auth_inv in H
    as (l & _ & _ & [[_ ?]|(c & ep & Hc & _ & [[? _]|(_ & _ & cat & _ & ->)])]);
    try done.
  assert (client < length (heap st)) by (by eapply lookup_lt_Some).
  rewrite Hcan. eexists _, _.
  rewrite lookup_written by done. split; [done|].
  unfold v2_authenticated. rewrite Hcan. split; [done|]. split; [lia|].
  rewrite list_lookup_middle by (by rewrite length_insert). done.
Qed.

(** The options handed to the throw-away client cannot reauthenticate when
    they are of one of the four built-in types; options of any other type
    are handed over as they are. *)
Lemma throwaway_options_builtin opts :
  (∀ b p, opts ≠ B3Other b p) →
  CanReauth3 W (throwaway_options opts) = false.
Proof. destruct opts; cbn; [done..|]. intros H. by edestruct H. Qed.

Lemma throwaway_options_other b p :
  throwaway_options (B3Other b p) = B3Other b p
  ∧ CanReauth3 W (throwaway_options (B3Other b p)) = b.
Proof. done. Qed.

(** The callback of [v2auth], whatever the options, and that of [v3auth] for
    options of the four built-in types: it belongs to the provider, works on
    a throw-away client that is another cell and has no callback, and runs
    with options that cannot reauthenticate. *)
Lemma v2auth_callback_cannot_reauth client endpoint options eo st st' :
  v2auth W client endpoint options eo st = (Val None, st') →
  CanReauth2 W options = true →
  ∃ c' f t,
    heap st' !! client = Some c' ∧ ReauthFunc c' = Some f
    ∧ reauth_client f = client ∧ reauth_client f ≠ reauth_tac f
    ∧ heap st' !! reauth_tac f = Some t ∧ ReauthFunc t = None
    ∧ inner_CanReauth W f = false.
Proof.
  intros H Hcan.
  destruct (v2auth_installs _ _ _ _ _ _ H Hcan)
    as (c' & t & Hc & Hf & Hne & Ht & Hr & _).
  by exists c', (ReauthV2 client (length (heap st)) endpoint options eo), t.
Qed.

Lemma v3auth_callback_cannot_reauth client endpoint opts eo st st' :
  v3auth W client endpoint opts eo st = (Val None, st') →
  CanReauth3 W opts = true →
  (∀ b p, opts ≠ B3Other b p) →
  ∃ c' f t,
    heap st' !! client = Some c' ∧ ReauthFunc c' = Some f
    ∧ reauth_client f = client ∧ reauth_client f ≠ reauth_tac f
    ∧ heap st' !! reauth_tac f = Some t ∧ ReauthFunc t = None
    ∧ inner_CanReauth W f = false.
Proof.
  intros H Hcan Hb.
  destruct (v3auth_installs _ _ _ _ _ _ H Hcan)
    as (c' & t & Hc & Hf & Hne & Ht & Hr & _).
  exists c', (ReauthV3 client (length (heap st)) endpoint
                (throwaway_options opts) eo), t.
  repeat split; try done. by apply throwaway_options_builtin.
Qed.

(** For options of any other type that can reauthenticate, the callback
    runs with those very options, and every successful invocation leaves
    the throw-away client with a callback of its own. *)
Lemma v3auth_other_options_rearm client endpoint payload eo st st' :
  v3auth W client endpoint (B3Other true payload) eo st = (Val None, st') →
  ∃ c' f,
    heap st' !! client = Some c' ∧ ReauthFunc c' = Some f
    ∧ reauth_client f ≠ reauth_tac f
    ∧ inner_CanReauth W f = true
    ∧ ∀ s s', call_ReauthFunc W f s = (Val None, s') →
              ∃ t', heap s' !! reauth_tac f = Some t'
                    ∧ is_Some (ReauthFunc t').
Proof.
  intros H.
  destruct (v3auth_installs _ _ _ _ _ _ H eq_refl)
    as (c' & t & Hc & Hf & Hne & _).
  exists c', (ReauthV3 client (length (heap st)) endpoint
                (B3Other true payload) eo).
  repeat split; try done. cbn [reauth_tac].
  intros s s' Hcall. unfold call_ReauthFunc, CopyTokenFrom in Hcall.
  apply bind_inv in Hcall as [(err & s1 & HI & Hcall)|[_ ?]]; [|done].
  destruct err as [e|]; [unfold ret in Hcall; by simplify_eq|].
  destruct (v3auth_installs _ _ _ _ _ _ HI eq_refl)
    as (t1 & _ & Ht1 & Hf1 & _).
  repeat run_step.
  rewrite list_lookup_insert_ne by done.
  exists t1. by rewrite Hf1.
Qed.

(** ** Version negotiation *)

Lemma candidates_cons entry doc :
  candidates versions (entry :: doc)
  = map (λ v, (v, entry.2))
      (List.filter (λ v, advertises v entry.1) versions)
    ++ candidates versions doc.
Proof. done. Qed.

(** Once version 3 is the best candidate, it stays. *)
Lemma pick_v3_stays doc h :
  foldl pick (Some (version3, h)) (candidates versions doc)
  = Some (version3, h).
Proof.
  induction doc as [|entry doc IH]; [done|].
  rewrite candidates_cons, foldl_app. unfold versions. cbn [List.filter].
  destruct (advertises version2 entry.1), (advertises version3 entry.1);
    cbn; apply IH.
Qed.

(** Version 3 wins whenever it is advertised, whatever else is. *)
Lemma pick_v3_wins doc best h3 :
  endpoint_for version3 doc = Some h3 →
  best = None ∨ (∃ h, best = Some (version2, h)) →
  foldl pick best (candidates versions doc) = Some (version3, h3).
Proof.
  unfold endpoint_for. revert best.
  induction doc as [|entry doc IH]; intros best Hf Hb; [done|].
  rewrite candidates_cons, foldl_app. unfold versions. cbn [List.filter].
  cbn [List.find] in Hf.
  destruct (advertises version3 entry.1) eqn:E3.
  - cbn in Hf. simplify_eq.
    destruct (advertises version2 entry.1);
      destruct Hb as [->|[h ->]]; cbn; apply pick_v3_stays.
  - destruct (advertises version2 entry.1);
      destruct Hb as [->|[h ->]]; cbn; apply IH; eauto.
Qed.

Lemma highest_v3 doc h3 :
  endpoint_for version3 doc = Some h3 →
  highest (candidates versions doc) = Some (version3, h3).
Proof. intros. unfold highest. by apply pick_v3_wins; [|left]. Qed.

Lemma ChooseVersion_v3 client c doc href st :
  heap st !! client = Some c →
  List.find (λ v, Strings.HasSuffix (NormalizeURL W (IdentityEndpoint c))
                    (Suffix v)) versions = None →
  discovery W (trace st) (IdentityBase c) = Ok doc →
  endpoint_for version3 doc = Some href →
  ChooseVersion W client versions st
  = (Val (Ok (version3, href)), probed client c st).
Proof.
  intros Hc Hv Hd Hh. unfold ChooseVersion, bind, deref.
  rewrite Hc, Hv, Hd. by rewrite (highest_v3 _ _ Hh).
Qed.

Lemma Authenticate_switch_unrecognized client options chosen endpoint st :
  ID chosen ≠ v2 → ID chosen ≠ v3 →
  Authenticate_switch W client options chosen endpoint st
  = (Val (Some ("unrecognized identity version: " +:+ ID chosen)), st).
Proof.
  intros. unfold Authenticate_switch. by rewrite !decide_False.
Qed.

(** C4. For a versionless identity endpoint whose discovery document
    advertises version 3 (next to version 2 or not), [ChooseVersion] chooses
    version 3, whose priority 30 is above the 20 of version 2, together with
    the endpoint the document advertises for it, and [Authenticate] goes on
    as [v3auth] against that endpoint. A chosen version that is neither
    [v2] nor [v3] is answered with an error. *)
Theorem Authenticate_prefers_v3 client options c doc h2 h3 st :
  heap st !! client = Some c →
  List.find (λ v, Strings.HasSuffix (NormalizeURL W (IdentityEndpoint c))
                    (Suffix v)) versions = None →
  discovery W (trace st) (IdentityBase c) = Ok doc →
  endpoint_for version2 doc = Some h2 →
  endpoint_for version3 doc = Some h3 →
  ChooseVersion W client versions st
  = (Val (Ok (version3, h3)), probed client c st)
  ∧ (Priority version2 < Priority version3)%Z
  ∧ Authenticate W client options st
    = v3auth W client h3 (B3AuthOptions options) EndpointOpts_zero
        (probed client c st)
  ∧ ∀ chosen endpoint st',
      ID chosen ≠ v2 → ID chosen ≠ v3 →
      Authenticate_switch W client options chosen endpoint st'
      = (Val (Some ("unrecognized identity version: " +:+ ID chosen)), st').
Proof.
  intros Hc Hv Hd _ H3.
  pose proof (ChooseVersion_v3 _ _ _ _ _ Hc Hv Hd H3) as HC.
  split; [done|]. split; [done|]. split.
  - unfold Authenticate. by rewrite (bind_val _ _ _ _ _ HC).
  - intros. by apply Authenticate_switch_unrecognized.
Qed.

(** ** Service clients *)

Lemma initClientOpts_conflict client eo clientType version st :
  eoVersion eo ≠ 0%Z → eoVersion eo ≠ version →
  initClientOpts W client eo clientType version st
  = (Val (Some ServiceClient_zero, Some conflict), st).
Proof.
  intros H0 Hv. unfold initClientOpts. cbn [ApplyDefaults eoVersion].
  by rewrite !bool_decide_true.
Qed.

(** Every run of [initClientOpts]: a version conflict, a panic on a missing
    provider or locator, an error of the locator, or a client. *)
Lemma initClientOpts_cases client eo clientType version st :
  let eo' := with_Version version (ApplyDefaults clientType eo) in
  let located :=
    {| heap := heap st; trace := trace st ++ [EvLocate client eo'] |} in
  initClientOpts W client eo clientType version st
  = if bool_decide (eoVersion eo ≠ 0%Z) && bool_decide (eoVersion eo ≠ version)
    then (Val (Some ServiceClient_zero, Some conflict), st)
    else match heap st !! client ≫= EndpointLocator with
         | None => (Panic, st)
         | Some l =>
             match apply_locator W l eo' with
             | Err e => (Val (Some ServiceClient_zero, Some e), located)
             | Ok url =>
                 (Val (Some {| scProviderClient := Some client;
                               scEndpoint := url; scResourceBase := "";
                               scType := clientType;
                               scMoreHeaders := None |}, None), located)
             end
         end.
Proof.
  unfold initClientOpts. cbn [ApplyDefaults eoVersion].
  destruct (_ && _); [done|].
  unfold bind, call_EndpointLocator, bind, deref.
  destruct (heap st !! client) as [c|]; [|done]. cbn.
  destruct (EndpointLocator c) as [l|]; [|done]. cbn.
  by destruct (apply_locator W l _).
Qed.

Lemma constructors_conflict clientID :
  Forall (λ entry : (loc → EndpointOpts → M Constructed) * Z,
            ∀ client eo st,
              eoVersion eo ≠ 0%Z → eoVersion eo ≠ entry.2 →
              ∃ sc, entry.1 client eo st
                    = (Val (Some sc, Some conflict), st))
    (constructors W clientID).
Proof.
  unfold constructors.
  repeat constructor; intros client eo st H0 Hv; cbn [fst snd] in *;
    unfold NewBareMetalV1, NewBareMetalIntrospectionV1, NewObjectStorageV1,
      NewComputeV2, NewNetworkV2, NewBlockStorageV1, NewBlockStorageV2,
      NewBlockStorageV3, NewSharedFileSystemV2, NewOrchestrationV1, NewDBV1,
      NewDNSV2, NewImageV2, NewLoadBalancerV2, NewMessagingV2, NewContainerV1,
      NewKeyManagerV1, NewContainerInfraV1, NewWorkflowV2, NewPlacementV1;
    try (erewrite bind_val by (by apply initClientOpts_conflict);
         unfold update_through; cbn [fst snd]);
    try rewrite initClientOpts_conflict by done;
    by eexists.
Qed.

(** C7. A version in the caller's endpoint options that is neither zero nor
    the major version of the service makes [initClientOpts], and each of the
    constructors built on it, return the conflict error at once: the state is
    returned as it was, so the endpoint locator has not been called and no
    request has been sent. [Authenticate] answers a chosen version other than
    [v2] and [v3] with the "unrecognized identity version" error in the same
    way. Neither path tries again. *)
Theorem configuration_errors_are_immediate :
  (∀ client eo clientType version st,
     eoVersion eo ≠ 0%Z → eoVersion eo ≠ version →
     initClientOpts W client eo clientType version st
     = (Val (Some ServiceClient_zero, Some conflict), st))
  ∧ (∀ clientID,
       Forall (λ entry : (loc → EndpointOpts → M Constructed) * Z,
                 ∀ client eo st,
                   eoVersion eo ≠ 0%Z → eoVersion eo ≠ entry.2 →
                   ∃ sc, entry.1 client eo st
                         = (Val (Some sc, Some conflict), st))
         (constructors W clientID))
  ∧ (∀ client options chosen endpoint st,
       ID chosen ≠ v2 → ID chosen ≠ v3 →
       Authenticate_switch W client options chosen endpoint st
       = (Val (Some ("unrecognized identity version: " +:+ ID chosen)), st)).
Proof.
  split; [|split].
  - intros. by apply initClientOpts_conflict.
  - apply constructors_conflict.
  - intros. by apply Authenticate_switch_unrecognized.
Qed.

(** The constructors that write to the client before they look at the
    error, by what [initClientOpts] returned. *)
Lemma NewNetworkV2_cases client eo st :
  NewNetworkV2 W client eo st
  = match initClientOpts W client eo "network" 2 st with
    | (Val (Some sc, err), st') =>
        (Val (Some (with_ResourceBase (scEndpoint sc +:+ "v2.0/") sc), err), st')
    | (Val (None, _), st') => (Panic, st')
    | (Panic, st') => (Panic, st')
    end.
Proof.
  unfold NewNetworkV2, bind.
  by destruct (initClientOpts W client eo "network" 2 st)
    as [[[[sc|] err]|] st'].
Qed.

Lemma NewBareMetalV1_cases client eo st :
  NewBareMetalV1 W client eo st
  = match initClientOpts W client eo "baremetal" 1 st with
    | (Val (Some sc, err), st') =>
        (Val (Some (if negb (Strings.HasSuffix
                               (Strings.TrimSuffix (scEndpoint sc) "/") "v1")
                    then with_ResourceBase (scEndpoint sc +:+ "v1/") sc
                    else sc), err), st')
    | (Val (None, _), st') => (Panic, st')
    | (Panic, st') => (Panic, st')
    end.
Proof.
  unfold NewBareMetalV1, bind.
  by destruct (initClientOpts W client eo "baremetal" 1 st)
    as [[[[sc|] err]|] st'].
Qed.

Lemma initClientOpts_pointer client eo clientType version st :
  match (initClientOpts W client eo clientType version st).1 with
  | Val (None, _) => False
  | Val (Some sc, Some _) => sc = ServiceClient_zero
  | Val (Some sc, None) => scProviderClient sc = Some client
  | Panic => heap st !! client ≫= EndpointLocator = None
  end.
Proof.
  rewrite initClientOpts_cases. cbn zeta.
  destruct (_ && _); [done|].
  destruct (heap st !! client ≫= EndpointLocator) as [l|]; [|done].
  by destruct (apply_locator W l _).
Qed.

(** C10. [initClientOpts] never returns a nil client: whenever it returns
    an error, it returns the freshly allocated, zero-valued client with it,
    and it returns in every state in which the provider has an endpoint
    locator to call. So [NewNetworkV2] and [NewBareMetalV1], which write
    [ResourceBase] through the pointer before looking at the error, never
    write through nil: they return exactly when [initClientOpts] does, and
    on an error they hand back the error with a client whose [ResourceBase]
    is built on the empty endpoint (["v2.0/"] and ["v1/"]). *)
Theorem initClientOpts_never_nil client eo clientType version st :
  (∀ err, (initClientOpts W client eo clientType version st).1
          ≠ Val (None, err))
  ∧ (∀ sc e, (initClientOpts W client eo clientType version st).1
             = Val (sc, Some e) → sc = Some ServiceClient_zero)
  ∧ (is_Some (heap st !! client ≫= EndpointLocator) →
     ∃ sc err, (initClientOpts W client eo clientType version st).1
               = Val (Some sc, err))
  ∧ (∀ sc err st',
       initClientOpts W client eo "network" 2 st = (Val (sc, err), st') →
       ∃ sc', sc = Some sc'
         ∧ NewNetworkV2 W client eo st
           = (Val (Some (with_ResourceBase (scEndpoint sc' +:+ "v2.0/") sc'),
                   err), st')
         ∧ (is_Some err →
            with_ResourceBase (scEndpoint sc' +:+ "v2.0/") sc'
            = with_ResourceBase "v2.0/" ServiceClient_zero))
  ∧ (∀ sc err st',
       initClientOpts W client eo "baremetal" 1 st = (Val (sc, err), st') →
       ∃ sc', sc = Some sc'
         ∧ (∃ sc'', NewBareMetalV1 W client eo st
                    = (Val (Some sc'', err), st')
                    ∧ (is_Some err →
                       sc'' = with_ResourceBase "v1/" ServiceClient_zero))).
Proof.
  repeat split.
  - intros err H.
    pose proof (initClientOpts_pointer client eo clientType version st) as P.
    by rewrite H in P.
  - intros sc e H.
    pose proof (initClientOpts_pointer client eo clientType version st) as P.
    rewrite H in P. destruct sc; [by subst|done].
  - intros [l Hl].
    pose proof (initClientOpts_pointer client eo clientType version st) as P.
    destruct (initClientOpts W client eo clientType version st).1
      as [[[sc|] err]|]; [by eauto|done|congruence].
  - intros sc err st' H.
    pose proof (initClientOpts_pointer client eo "network" 2%Z st) as P.
    rewrite NewNetworkV2_cases, H in *. cbn in P.
    destruct sc as [sc'|]; [|done]. exists sc'. split; [done|].
    split; [done|]. intros [e ->]. by subst.
  - intros sc err st' H.
    pose proof (initClientOpts_pointer client eo "baremetal" 1%Z st) as P.
    rewrite NewBareMetalV1_cases, H in *. cbn in P.
    destruct sc as [sc'|]; [|done]. exists sc'. split; [done|].
    eexists. split; [done|]. intros [e ->]. by subst.
Qed.

(** * Further properties of client.go *)

(** ** Identity service clients *)

(** X5. [NewIdentityV3] repairs the endpoint: whatever the locator answered, the
    client it returns is bound to the provider, is of type identity and has
    an endpoint that ends in ["v3/"]; the provider clients are as before. *)
Theorem NewIdentityV3_endpoint_ends_in_v3 client eo st sc st' :
  NewIdentityV3 W client eo st = (Val (Ok sc), st') →
  Strings.HasSuffix (scEndpoint sc) "v3/" = true
  ∧ scProviderClient sc = Some client
  ∧ scType sc = "identity"
  ∧ scResourceBase sc = ""
  ∧ heap st' = heap st.
Proof.
  unfold NewIdentityV3, call_EndpointLocator. intros H.
  repeat run_step; cbn; by rewrite HasSuffix_app.
Qed.

(** X6. [NewIdentityV2] does not: with endpoint options it hands on the answer
    of the locator as it is, and without them the identity base followed by
    ["v2.0/"]. *)
Theorem NewIdentityV2_endpoint_verbatim client eo st sc st' :
  NewIdentityV2 W client eo st = (Val (Ok sc), st') →
  ∃ c, heap st !! client = Some c
       ∧ (if decide (eo = EndpointOpts_zero)
          then scEndpoint sc = IdentityBase c +:+ "v2.0/" ∧ st' = st
          else ∃ l, EndpointLocator c = Some l
                    ∧ apply_locator W l (ApplyDefaults "identity" eo)
                      = Ok (scEndpoint sc)).
Proof.
  unfold NewIdentityV2, call_EndpointLocator. intros H.
  destruct st as [h t].
  destruct (decide (eo = EndpointOpts_zero)); repeat run_step;
    naive_solver.
Qed.

(** ** What a call of [v3auth] or [v2auth] never does *)

Lemma throwaway_copy_trace client st o st' :
  throwaway_copy client st = (o, st') → trace st' = trace st.
Proof.
  unfold throwaway_copy, SetThrowaway, SetTokenAndAuthResult. intros H.
  repeat run_step; done.
Qed.

Lemma v3_install_reauth_trace client endpoint opts eo st o st' :
  v3_install_reauth W client endpoint opts eo st = (o, st') →
  trace st' = trace st.
Proof.
  unfold v3_install_reauth. intros H.
  destruct (CanReauth3 W opts); [|by run_step].
  apply bind_inv in H as [([tac err] & st1 & HT & H)|[HT _]];
    apply throwaway_copy_trace in HT; [|done].
  rewrite <- HT. repeat run_step; done.
Qed.

Lemma v2_install_reauth_trace client endpoint options eo st o st' :
  v2_install_reauth W client endpoint options eo st = (o, st') →
  trace st' = trace st.
Proof.
  unfold v2_install_reauth. intros H.
  destruct (CanReauth2 W options); [|by run_step].
  apply bind_inv in H as [([tac err] & st1 & HT & H)|[HT _]];
    apply throwaway_copy_trace in HT; [|done].
  rewrite <- HT. repeat run_step; done.
Qed.


(** The events of a run of [v3auth]: the locator call of [NewIdentityV3], if
    any, and then at most the one token request, sent to the endpoint given
    to [v3auth] or, when that is empty, to the endpoint of the identity
    service client. *)
Lemma v3auth_events client endpoint opts eo st o st' :
  v3auth W client endpoint opts eo st = (o, st') →
  ∃ l, requests l = [] ∧
    (trace st' = trace st ++ l
     ∨ ∃ c sc,
         heap st !! client = Some c
         ∧ NewIdentityV3 W client eo st
           = (Val (Ok sc), {| heap := heap st; trace := trace st ++ l |})
         ∧ trace st'
           = trace st ++ l ++
             [EvRequest client (armed c)
                (token_request
                   (if decide (endpoint = "") then scEndpoint sc else endpoint)
                   opts)]).
Proof.
  unfold v3auth. intros H.
  destruct (NewIdentityV3 W client eo st) as [r0 st1] eqn:HN.
  pose proof HN as HN'.
  apply NewIdentityV3_trace in HN' as (l & -> & Hl & _).
  exists l. split; [done|]. unfold bind in H at 1. rewrite HN in H.
  destruct r0 as [[sc|e]|]; [|unfold ret in H; simplify_eq; by left
                             |simplify_eq; by left].
  apply bind_inv in H as [(r & st2 & HA & H)|[HA ->]].
  - assert (trace st' = trace st2) as ->.
    { destruct r as [catalog|e]; [|by run_step].
      apply bind_inv in H as [(err & st3 & HI & H)|[HI _]];
        apply v3_install_reauth_trace in HI; [|done].
      rewrite <- HI. repeat run_step; done. }
    apply v3_acquire_inv in HA as [[-> _]|(c & Hc & Ht & _)]; [by left|].
    right. exists c, sc. cbn in *. split; [done|]. split; [done|].
    rewrite Ht, <- app_assoc. by destruct (decide (endpoint = "")).
  - apply v3_acquire_inv in HA as [[-> _]|(c & Hc & Ht & _)]; [by left|].
    right. exists c, sc. cbn in *. split; [done|]. split; [done|].
    rewrite Ht, <- app_assoc. by destruct (decide (endpoint = "")).
Qed.

Lemma v2auth_events client endpoint options eo st o st' :
  v2auth W client endpoint options eo st = (o, st') →
  ∃ l, requests l = [] ∧
    (trace st' = trace st ++ l
     ∨ ∃ c sc,
         heap st !! client = Some c
         ∧ NewIdentityV2 W client eo st
           = (Val (Ok sc), {| heap := heap st; trace := trace st ++ l |})
         ∧ trace st'
           = trace st ++ l ++
             [EvRequest client (armed c)
                (Tokens2Create
                   (if decide (endpoint = "") then scEndpoint sc else endpoint)
                   options)]).
Proof.
  unfold v2auth. intros H.
  destruct (NewIdentityV2 W client eo st) as [r0 st1] eqn:HN.
  pose proof HN as HN'.
  apply NewIdentityV2_trace in HN' as (l & -> & Hl & _).
  exists l. split; [done|]. unfold bind in H at 1. rewrite HN in H.
  destruct r0 as [[sc|e]|]; [|unfold ret in H; simplify_eq; by left
                             |simplify_eq; by left].
  apply bind_inv in H as [(result & st2 & HR & H)|[HR ->]];
    apply request_inv in HR as [(c & Hc & ? & ->)|(? & ? & ->)];
    simplify_eq; cbn [heap trace] in *; [|by left].
  assert (trace st'
          = trace st ++ l ++
            [EvRequest client (armed c)
               (Tokens2Create
                  (scEndpoint (if decide (endpoint = "") then sc
                               else with_Endpoint endpoint sc)) options)])
    as ->.
  { unfold SetTokenAndAuthResult in H. rewrite app_assoc.
    repeat
      (try match goal with
           | H : bind (v2_install_reauth _ _ _ _ _) _ _ = _ |- _ =>
               apply bind_inv in H as [(? & ? & HI & H)|[HI _]];
               apply v2_install_reauth_trace in HI; cbn in HI
           end;
       try run_step);
      congruence. }
  right. exists c, sc. split; [done|]. split; [done|].
  by destruct (decide (endpoint = "")).
Qed.

(** X7. On a provider that has no callback, a non-empty [endpoint]
    argument overrides the endpoint of the identity service client: every
    request of the run goes to it, through the provider the call was made
    on and with no callback armed. *)
Theorem explicit_endpoint_receives_the_request :
  (∀ client endpoint opts eo st o st' c,
     endpoint ≠ "" →
     heap st !! client = Some c →
     ReauthFunc c = None →
     v3auth W client endpoint opts eo st = (o, st') →
     ∃ l, trace st' = trace st ++ l
          ∧ ∀ via a r, EvRequest via a r ∈ l →
                       via = client ∧ a = false
                       ∧ r = token_request endpoint opts)
  ∧
  (∀ client endpoint options eo st o st' c,
     endpoint ≠ "" →
     heap st !! client = Some c →
     ReauthFunc c = None →
     v2auth W client endpoint options eo st = (o, st') →
     ∃ l, trace st' = trace st ++ l
          ∧ ∀ via a r, EvRequest via a r ∈ l →
                       via = client ∧ a = false
                       ∧ r = Tokens2Create endpoint options).
Proof.
  split; intros client endpoint opts eo st o st' c Hne Hc Hu H.
  - apply v3auth_events in H
      as (l & Hl & [->|(c0 & sc & Hc0 & _ & ->)]).
    + exists l. split; [done|]. intros via a r Hin.
      by apply (requests_nil_no_request _ _ Hl) in Hin.
    + assert (c0 = c) as -> by congruence.
      rewrite decide_False by done. eexists. split; [done|].
      intros via a r [Hin|Hin]%elem_of_app.
      * by apply (requests_nil_no_request _ _ Hl) in Hin.
      * apply list_elem_of_singleton in Hin. simplify_eq.
        unfold armed. by rewrite Hu.
  - apply v2auth_events in H
      as (l & Hl & [->|(c0 & sc & Hc0 & _ & ->)]).
    + exists l. split; [done|]. intros via a r Hin.
      by apply (requests_nil_no_request _ _ Hl) in Hin.
    + assert (c0 = c) as -> by congruence.
      rewrite decide_False by done. eexists. split; [done|].
      intros via a r [Hin|Hin]%elem_of_app.
      * by apply (requests_nil_no_request _ _ Hl) in Hin.
      * apply list_elem_of_singleton in Hin. simplify_eq.
        unfold armed. by rewrite Hu.
Qed.

Lemma same_setup_refl c : same_setup c c.
Proof. by repeat split. Qed.

Lemma same_setup_set_token t r c : same_setup c (set_token t r c).
Proof. by repeat split. Qed.

(** X8. On a provider that has no callback, a call that returns an error
    leaves the provider set up as it was: the same endpoint locator, still
    no callback, the same identity endpoints. Only its token and
    authentication result may have changed. No provider client is created,
    and no other one is touched. *)
Theorem failed_authentication_keeps_setup :
  (∀ client endpoint opts eo st o st' c,
     v3auth W client endpoint opts eo st = (o, st') →
     o ≠ Val None →
     heap st !! client = Some c →
     ReauthFunc c = None →
     length (heap st') = length (heap st)
     ∧ (∃ c', heap st' !! client = Some c' ∧ same_setup c c')
     ∧ ∀ q, q ≠ client → heap st' !! q = heap st !! q)
  ∧
  (∀ client endpoint options eo st o st' c,
     v2auth W client endpoint options eo st = (o, st') →
     o ≠ Val None →
     heap st !! client = Some c →
     ReauthFunc c = None →
     length (heap st') = length (heap st)
     ∧ (∃ c', heap st' !! client = Some c' ∧ same_setup c c')
     ∧ ∀ q, q ≠ client → heap st' !! q = heap st !! q).
Proof.
  split; intros client endpoint opts eo st o st' c H Ho Hc _;
    assert (client < length (heap st)) by (by eapply lookup_lt_Some).
  - apply v3auth_inv in H
      as (l & _ & _ & [[-> _]|(c0 & ep & Hc0 & _ & [[_ (t & r & ->)]|(? & _)])]);
      simplify_eq; cbn.
    + eauto using same_setup_refl.
    + rewrite length_insert, list_lookup_insert_eq by done.
      split; [done|]. split; [eauto using same_setup_set_token|].
      intros q Hq. by rewrite list_lookup_insert_ne.
  - apply v2auth_inv in H
      as (l & _ & _ & [[-> _]|(c0 & ep & Hc0 & _ & [[_ (t & r & ->)]|(? & _)])]);
      simplify_eq; cbn.
    + eauto using same_setup_refl.
    + rewrite length_insert, list_lookup_insert_eq by done.
      split; [done|]. split; [eauto using same_setup_set_token|].
      intros q Hq. by rewrite list_lookup_insert_ne.
Qed.

(** X9. On a provider that has no callback, a call sends at most one
    request to the identity service, and exactly one when it succeeds; the
    request goes through the provider the call was made on, with no
    callback armed. *)
Theorem authentication_sends_one_request :
  (∀ client endpoint opts eo st o st' c,
     heap st !! client = Some c →
     ReauthFunc c = None →
     v3auth W client endpoint opts eo st = (o, st') →
     ∃ l, trace st' = trace st ++ l
          ∧ (length (requests l) ≤ 1)%nat
          ∧ (o = Val None → length (requests l) = 1%nat)
          ∧ requests_through client false l)
  ∧
  (∀ client endpoint options eo st o st' c,
     heap st !! client = Some c →
     ReauthFunc c = None →
     v2auth W client endpoint options eo st = (o, st') →
     ∃ l, trace st' = trace st ++ l
          ∧ (length (requests l) ≤ 1)%nat
          ∧ (o = Val None → length (requests l) = 1%nat)
          ∧ requests_through client false l).
Proof.
  split; intros client endpoint opts eo st o st' c Hc Hu H.
  - apply v3auth_inv in H
      as (l & Hl & _ & [[-> Ho]|(c0 & ep & Hc0 & -> & _)]); cbn.
    + exists l. rewrite Hl. split; [done|]. split; [cbn; lia|].
      split; [done|]. by apply requests_through_none.
    + assert (c0 = c) as -> by congruence.
      eexists. split; [done|]. rewrite requests_app, Hl. cbn.
      split; [done|]. split; [done|].
      replace false with (armed c) by (unfold armed; by rewrite Hu).
      by apply requests_through_snoc.
  - apply v2auth_inv in H
      as (l & Hl & _ & [[-> Ho]|(c0 & ep & Hc0 & -> & _)]); cbn.
    + exists l. rewrite Hl. split; [done|]. split; [cbn; lia|].
      split; [done|]. by apply requests_through_none.
    + assert (c0 = c) as -> by congruence.
      eexists. split; [done|]. rewrite requests_app, Hl. cbn.
      split; [done|]. split; [done|].
      replace false with (armed c) by (unfold armed; by rewrite Hu).
      by apply requests_through_snoc.
Qed.

(** X10. With options that cannot reauthenticate, a call neither installs a
    callback nor removes the one the provider has: whatever the outcome, the
    provider's [ReauthFunc] is what it was, and no throw-away client is
    created. *)
Theorem without_reauth_callback_is_left_alone :
  (∀ client endpoint opts eo st o st' c,
     CanReauth3 W opts = false →
     v3auth W client endpoint opts eo st = (o, st') →
     heap st !! client = Some c →
     length (heap st') = length (heap st)
     ∧ ∃ c', heap st' !! client = Some c' ∧ ReauthFunc c' = ReauthFunc c)
  ∧
  (∀ client endpoint options eo st o st' c,
     CanReauth2 W options = false →
     v2auth W client endpoint options eo st = (o, st') →
     heap st !! client = Some c →
     length (heap st') = length (heap st)
     ∧ ∃ c', heap st' !! client = Some c' ∧ ReauthFunc c' = ReauthFunc c).
Proof.
  split; intros client endpoint opts eo st o st' c Hcan H Hc;
    assert (client < length (heap st)) by (by eapply lookup_lt_Some).
  - apply v3auth_inv in H
      as (l & _ & _ & [[-> _]|(c0 & ep & Hc0 & _ & [[_ (t & r & ->)]|(_ & _ & cat & _ & ->)])]);
      simplify_eq; cbn; [by eauto| |].
    + rewrite length_insert, list_lookup_insert_eq by done. eauto.
    + rewrite Hcan, app_nil_r, length_insert, list_lookup_insert_eq by done.
      split; [done|]. eexists. split; [done|].
      unfold v3_authenticated. by rewrite Hcan.
  - apply v2auth_inv in H
      as (l & _ & _ & [[-> _]|(c0 & ep & Hc0 & _ & [[_ (t & r & ->)]|(_ & _ & cat & _ & ->)])]);
      simplify_eq; cbn; [by eauto| |].
    + rewrite length_insert, list_lookup_insert_eq by done. eauto.
    + rewrite Hcan, app_nil_r, length_insert, list_lookup_insert_eq by done.
      split; [done|]. eexists. split; [done|].
      unfold v2_authenticated. by rewrite Hcan.
Qed.

Lemma passthrough_spec opts :
  passthrough opts = true →
  (token_and_passthrough opts).1 ≠ "" ∧ (token_and_passthrough opts).2 = true.
Proof.
  unfold passthrough. intros [H1 H2]%andb_prop. split; [|done].
  by apply negb_true_iff, bool_decide_eq_false in H1.
Qed.

Lemma token_request_passthrough ep opts :
  passthrough opts = true →
  token_request ep opts = Tokens3Get ep (token_and_passthrough opts).1.
Proof.
  unfold passthrough, token_request.
  destruct (token_and_passthrough opts) as [t p]. cbn. by intros ->.
Qed.

(** X11. A successful token pass-through is a lookup and nothing more: the
    options could not reauthenticate, the one request of the run is
    [tokens3.Get] for the token passed in, the provider holds the token and
    the result of that lookup, and its callback is what it was. *)
Theorem passthrough_is_a_lookup client endpoint opts eo st st' c :
  passthrough opts = true →
  v3auth W client endpoint opts eo st = (Val None, st') →
  heap st !! client = Some c →
  CanReauth3 W opts = false
  ∧ ∃ history ep a result c',
      trace st'
      = history ++
          [EvRequest client a (Tokens3Get ep (token_and_passthrough opts).1)]
      ∧ requests history = requests (trace st)
      ∧ result
        = identity W history (Tokens3Get ep (token_and_passthrough opts).1)
      ∧ heap st' !! client = Some c'
      ∧ TokenID c' = arTokenID result
      ∧ authResult c' = Some result
      ∧ ReauthFunc c' = ReauthFunc c
      ∧ length (heap st') = length (heap st).
Proof.
  intros Hp H Hc.
  assert (CanReauth3 W opts = false) as Hcan.
  { destruct (CanReauth3 W opts) eqn:E; [|done]. exfalso.
    destruct (passthrough_spec _ Hp) as [Ht Hs].
    unfold v3auth in H.
    apply bind_inv in H as [([sc|e] & st1 & _ & H)|[_ ?]]; [| |done].
    - unfold bind in H. rewrite v3_acquire_misuse in H by done.
      unfold ret in H. by simplify_eq.
    - unfold ret in H. by simplify_eq. }
  split; [done|].
  assert (client < length (heap st)) by (by eapply lookup_lt_Some).
  apply v3auth_inv in H
    as (l & Hl & _ & [[_ ?]|(c0 & ep & Hc0 & Ht & [[? _]|(_ & He & cat & Hcat & Hh)])]);
    try done.
  simplify_eq. rewrite token_request_passthrough in * by done.
  exists (trace st ++ l), ep. eexists _, _, _.
  rewrite Ht, Hh, Hcan, app_nil_r, app_assoc, requests_app, Hl, app_nil_r.
  rewrite length_insert, list_lookup_insert_eq by done.
  repeat split; try done; unfold v3_authenticated; by rewrite Hcan.
Qed.

Lemma version_accepted (v version : Z) :
  v = 0%Z ∨ v = version →
  bool_decide (v ≠ 0%Z) && bool_decide (v ≠ version) = false.
Proof.
  intros [->| ->].
  - by rewrite (bool_decide_false (0 ≠ 0)%Z) by (intros H; by apply H).
  - rewrite (bool_decide_false (version ≠ version)) by (intros H; by apply H).
    apply andb_false_r.
Qed.

(** X12. After a successful call the provider resolves endpoints: a later
    [initClientOpts] on it does not panic, it asks [V3Endpoint] (after
    [v3auth]) or [V2Endpoint] (after [v2auth]) about the catalog of the
    authentication result the provider holds, with the service type
    defaulted and the version set to that of the service, and returns its
    answer. *)
Theorem authenticated_provider_resolves_endpoints :
  (∀ client endpoint opts eo st st',
     v3auth W client endpoint opts eo st = (Val None, st') →
     ∃ c' result catalog,
       heap st' !! client = Some c'
       ∧ authResult c' = Some result
       ∧ ExtractServiceCatalog result = Ok catalog
       ∧ ∀ eo2 clientType version,
           eoVersion eo2 = 0%Z ∨ eoVersion eo2 = version →
           let eo' := with_Version version (ApplyDefaults clientType eo2) in
           initClientOpts W client eo2 clientType version st'
           = (match V3Endpoint W client catalog eo' with
              | Err e => Val (Some ServiceClient_zero, Some e)
              | Ok url =>
                  Val (Some {| scProviderClient := Some client;
                               scEndpoint := url; scResourceBase := "";
                               scType := clientType;
                               scMoreHeaders := None |}, None)
              end,
              {| heap := heap st';
                 trace := trace st' ++ [EvLocate client eo'] |}))
  ∧
  (∀ client endpoint options eo st st',
     v2auth W client endpoint options eo st = (Val None, st') →
     ∃ c' result catalog,
       heap st' !! client = Some c'
       ∧ authResult c' = Some result
       ∧ ExtractServiceCatalog result = Ok catalog
       ∧ ∀ eo2 clientType version,
           eoVersion eo2 = 0%Z ∨ eoVersion eo2 = version →
           let eo' := with_Version version (ApplyDefaults clientType eo2) in
           initClientOpts W client eo2 clientType version st'
           = (match V2Endpoint W client catalog eo' with
              | Err e => Val (Some ServiceClient_zero, Some e)
              | Ok url =>
                  Val (Some {| scProviderClient := Some client;
                               scEndpoint := url; scResourceBase := "";
                               scType := clientType;
                               scMoreHeaders := None |}, None)
              end,
              {| heap := heap st';
                 trace := trace st' ++ [EvLocate client eo'] |})).
Proof.
  split; intros client endpoint opts eo st st' H.
  - apply v3auth_inv in H
      as (l & _ & _ & [[_ ?]|(c & ep & Hc & _ & [[? _]|(_ & _ & cat & Hcat & Hh)])]);
      try done.
    assert (client < length (heap st)) by (by eapply lookup_lt_Some).
    eexists _, _, cat. rewrite Hh, lookup_written by done.
    split; [done|]. split; [by unfold v3_authenticated;
                              destruct (CanReauth3 W opts)|].
    split; [done|]. intros eo2 clientType version Hv eo'.
    rewrite initClientOpts_cases. cbn zeta.
    rewrite (version_accepted _ _ Hv).
    rewrite Hh, lookup_written by done. cbn.
    by destruct (V3Endpoint W client cat _).
  - apply v2auth_inv in H
      as (l & _ & _ & [[_ ?]|(c & ep & Hc & _ & [[? _]|(_ & _ & cat & Hcat & Hh)])]);
      try done.
    assert (client < length (heap st)) by (by eapply lookup_lt_Some).
    eexists _, _, cat. rewrite Hh, lookup_written by done.
    split; [done|]. split; [by unfold v2_authenticated;
                              destruct (CanReauth2 W opts)|].
    split; [done|]. intros eo2 clientType version Hv eo'.
    rewrite initClientOpts_cases. cbn zeta.
    rewrite (version_accepted _ _ Hv).
    rewrite Hh, lookup_written by done. cbn.
    by destruct (V2Endpoint W client cat _).
Qed.

(** ** The callback, invocation after invocation *)

Lemma TokenID_v3_authenticated client tac endpoint opts eo result catalog c :
  TokenID (v3_authenticated W client tac endpoint opts eo result catalog c)
  = arTokenID result
  ∧ authResult (v3_authenticated W client tac endpoint opts eo result catalog c)
    = Some result.
Proof. unfold v3_authenticated. by destruct (CanReauth3 W opts). Qed.

Lemma TokenID_v2_authenticated client tac endpoint opts eo result catalog c :
  TokenID (v2_authenticated W client tac endpoint opts eo result catalog c)
  = arTokenID result
  ∧ authResult (v2_authenticated W client tac endpoint opts eo result catalog c)
    = Some result.
Proof. unfold v2_authenticated. by destruct (CanReauth2 W opts). Qed.

(** The authentication a callback runs, when it succeeds: the last event is
    its request, and the throw-away client holds the token and the result of
    the response. *)
Lemma inner_auth_success f st st' :
  inner_auth W f st = (Val None, st') →
  ∃ history a req t,
    trace st' = history ++ [EvRequest (reauth_tac f) a req]
    ∧ requests history = requests (trace st)
    ∧ heap st' !! reauth_tac f = Some t
    ∧ TokenID t = arTokenID (identity W history req)
    ∧ authResult t = Some (identity W history req).
Proof.
  destruct f; cbn; intros H.
  - apply v2auth_inv in H
      as (l & Hl & _ & [[_ ?]|(c & ep & Hc & Ht & [[? _]|(_ & _ & cat & _ & ->)])]);
      try done.
    exists (trace st ++ l). eexists _, _, _. rewrite Ht, app_assoc.
    rewrite lookup_written by (by eapply lookup_lt_Some).
    rewrite requests_app, Hl, app_nil_r.
    repeat split; try done; apply TokenID_v2_authenticated.
  - apply v3auth_inv in H
      as (l & Hl & _ & [[_ ?]|(c & ep & Hc & Ht & [[? _]|(_ & _ & cat & _ & ->)])]);
      try done.
    exists (trace st ++ l). eexists _, _, _. rewrite Ht, app_assoc.
    rewrite lookup_written by (by eapply lookup_lt_Some).
    rewrite requests_app, Hl, app_nil_r.
    repeat split; try done; apply TokenID_v3_authenticated.
Qed.

(** What an invocation does to the live provider, in every outcome. *)
Lemma call_ReauthFunc_live f st o st' c :
  reauth_client f ≠ reauth_tac f →
  heap st !! reauth_client f = Some c →
  call_ReauthFunc W f st = (o, st') →
  ∃ c', heap st' !! reauth_client f = Some c' ∧ same_setup c c'.
Proof.
  intros Hne Hc H. rewrite call_ReauthFunc_unfold in H.
  assert (reauth_client f < length (heap st)) by (by eapply lookup_lt_Some).
  apply bind_inv in H as [(err & st1 & HI & H)|[HI _]].
  - assert (heap st1 !! reauth_client f = Some c) as Hc1
      by (by erewrite inner_auth_frame).
    unfold CopyTokenFrom in H. repeat run_step;
      eauto using same_setup_refl.
    rewrite list_lookup_insert_eq by (by eapply lookup_lt_Some).
    eauto using same_setup_set_token.
  - exists c. split; [by erewrite inner_auth_frame|apply same_setup_refl].
Qed.

(** X13. A successful reauthentication gives the live provider the token issued
    in answer to the request the callback has just sent, with its result. It
    leaves the rest of the provider alone: in particular the endpoint
    locator, which goes on resolving against the catalog it was bound to,
    and the callback itself. *)
Theorem reauthentication_installs_the_fresh_token f st st' c :
  reauth_client f ≠ reauth_tac f →
  heap st !! reauth_client f = Some c →
  call_ReauthFunc W f st = (Val None, st') →
  ∃ history a req c',
    trace st' = history ++ [EvRequest (reauth_tac f) a req]
    ∧ requests history = requests (trace st)
    ∧ heap st' !! reauth_client f = Some c'
    ∧ TokenID c' = arTokenID (identity W history req)
    ∧ authResult c' = Some (identity W history req)
    ∧ same_setup c c'.
Proof.
  intros Hne Hc H. rewrite call_ReauthFunc_unfold in H.
  assert (reauth_client f < length (heap st)) by (by eapply lookup_lt_Some).
  apply bind_inv in H as [(err & st1 & HI & H)|[_ ?]]; [|done].
  destruct err as [e|]; [unfold ret in H; by simplify_eq|].
  assert (heap st1 !! reauth_client f = Some c) as Hc1
    by (by erewrite inner_auth_frame).
  destruct (inner_auth_success _ _ _ HI)
    as (history & a & req & t & Htr & Hreq & Ht & Htok & Hres).
  unfold CopyTokenFrom in H. repeat run_step.
  exists history, a, req. eexists.
  rewrite list_lookup_insert_eq by (by eapply lookup_lt_Some).
  match goal with
  | Hd : ∀ c, Val ?x = Val c → _ |- _ =>
      specialize (Hd _ eq_refl); rewrite Ht in Hd; simplify_eq
  end.
  repeat split; try done.
  - exact Htok.
  - exact Hres.
Qed.

Lemma requests_through_app p a l1 l2 :
  requests_through p a l1 → requests_through p a l2 →
  requests_through p a (l1 ++ l2).
Proof. intros H1 H2 via a' r [?|?]%elem_of_app; eauto. Qed.

(** One invocation keeps the callback invocable, and sends at most one
    request, with no callback armed. *)
Lemma reauth_ready_step f st :
  reauth_ready W f st →
  reauth_ready W f (call_ReauthFunc W f st).2
  ∧ ∃ l, trace (call_ReauthFunc W f st).2 = trace st ++ l
         ∧ (length (requests l) ≤ 1)%nat
         ∧ requests_through (reauth_tac f) false l.
Proof.
  intros (Hne & (c & Hc & Hf) & (t & Ht & Hr) & Hcan).
  destruct (call_ReauthFunc W f st) as [o st'] eqn:H. cbn.
  split.
  - split; [done|]. split; [|split; [|done]].
    + destruct (call_ReauthFunc_live _ _ _ _ _ Hne Hc H)
        as (c' & Hc' & _ & _ & _ & Hf' & _).
      exists c'. by rewrite Hf'.
    + eapply callback_keeps_throwaway_disarmed; eauto.
  - eapply callback_single_unarmed_attempt; eauto.
Qed.

(** X14. However often the callback is invoked, and whatever the identity
    service answers, the callback stays installed on its provider, its
    throw-away client never gets a callback of its own, and [n] invocations
    send at most [n] requests, none of them with a callback armed. *)
Theorem repeated_reauthentication_one_attempt_each n f st :
  reauth_ready W f st →
  reauth_ready W f (reauth_times W n f st)
  ∧ ∃ l, trace (reauth_times W n f st) = trace st ++ l
         ∧ (length (requests l) ≤ n)%nat
         ∧ requests_through (reauth_tac f) false l.
Proof.
  revert st. induction n as [|n IH]; intros st Hr; cbn [reauth_times].
  - split; [done|]. exists []. rewrite app_nil_r.
    split; [done|]. split; [cbn; lia|].
    intros ? ? ? Hin. by apply not_elem_of_nil in Hin.
  - destruct (reauth_ready_step _ _ Hr) as (Hr1 & l1 & Ht1 & Hn1 & Hq1).
    destruct (IH _ Hr1) as (Hr2 & l2 & Ht2 & Hn2 & Hq2).
    split; [done|]. exists (l1 ++ l2).
    rewrite Ht2, Ht1, app_assoc, requests_app, length_app.
    split; [done|]. split; [lia|]. by apply requests_through_app.
Qed.

(** X15. The callbacks that [v2auth] installs, and those that [v3auth] installs
    for options of the four built-in types, can be invoked in this sense
    from the state the call leaves. The throw-away client is a copy of the
    provider as the call found it, but for the mark, the cleared token and
    the cleared callback: its endpoint locator is the one the provider had
    before the call, not the one the call installs. *)
Theorem installed_callback_is_ready :
  (∀ client endpoint opts eo st st' c,
     v3auth W client endpoint opts eo st = (Val None, st') →
     CanReauth3 W opts = true →
     (∀ b p, opts ≠ B3Other b p) →
     heap st !! client = Some c →
     let f := ReauthV3 client (length (heap st)) endpoint
                (throwaway_options opts) eo in
     reauth_ready W f st'
     ∧ ∃ t, heap st' !! length (heap st) = Some t
            ∧ Throwaway t = true ∧ TokenID t = "" ∧ authResult t = None
            ∧ EndpointLocator t = EndpointLocator c
            ∧ IdentityBase t = IdentityBase c
            ∧ tokenLock t = tokenLock c)
  ∧
  (∀ client endpoint options eo st st' c,
     v2auth W client endpoint options eo st = (Val None, st') →
     CanReauth2 W options = true →
     heap st !! client = Some c →
     let f := ReauthV2 client (length (heap st)) endpoint options eo in
     reauth_ready W f st'
     ∧ ∃ t, heap st' !! length (heap st) = Some t
            ∧ Throwaway t = true ∧ TokenID t = "" ∧ authResult t = None
            ∧ EndpointLocator t = EndpointLocator c
            ∧ IdentityBase t = IdentityBase c
            ∧ tokenLock t = tokenLock c).
Proof.
  split.
  - intros client endpoint opts eo st st' c H Hcan Hb Hc f.
    assert (client < length (heap st)) by (by eapply lookup_lt_Some).
    apply v3auth_inv in H
      as (l & _ & _ & [[_ ?]|(c0 & ep & Hc0 & _ & [[? _]|(_ & _ & cat & _ & Hh)])]);
      try done.
    assert (c0 = c) as -> by congruence. rewrite Hcan in Hh.
    assert (heap st' !! length (heap st)
            = Some (throwaway_of
                      (set_token (arTokenID (identity W (trace st ++ l)
                                               (token_request ep opts)))
                         (Some (identity W (trace st ++ l)
                                  (token_request ep opts))) c))) as Ht
      by (rewrite Hh; apply list_lookup_middle; by rewrite length_insert).
    split; [|eexists; split; [exact Ht|done]].
    split; [cbn; lia|]. split; [|split].
    + eexists. cbn [reauth_client f]. rewrite Hh, lookup_written by done.
      split; [done|]. unfold v3_authenticated. by rewrite Hcan.
    + eexists. split; [exact Ht|done].
    + by apply throwaway_options_builtin.
  - intros client endpoint options eo st st' c H Hcan Hc f.
    assert (client < length (heap st)) by (by eapply lookup_lt_Some).
    apply v2auth_inv in H
      as (l & _ & _ & [[_ ?]|(c0 & ep & Hc0 & _ & [[? _]|(_ & _ & cat & _ & Hh)])]);
      try done.
    assert (c0 = c) as -> by congruence. rewrite Hcan in Hh.
    assert (heap st' !! length (heap st)
            = Some (throwaway_of
                      (set_token (arTokenID (identity W (trace st ++ l)
                                               (Tokens2Create ep options)))
                         (Some (identity W (trace st ++ l)
                                  (Tokens2Create ep options))) c))) as Ht
      by (rewrite Hh; apply list_lookup_middle; by rewrite length_insert).
    split; [|eexists; split; [exact Ht|done]].
    split; [cbn; lia|]. split; [|split].
    + eexists. cbn [reauth_client f]. rewrite Hh, lookup_written by done.
      split; [done|]. unfold v2_authenticated. by rewrite Hcan.
    + eexists. split; [exact Ht|done].
    + done.
Qed.

(** ** The service client constructors *)

(** A constructor that writes through the pointer it got from
    [initClientOpts], by what [initClientOpts] returned. *)
Lemma bind_update_through (c : M Constructed) f st :
  (let* r := c in update_through r f) st
  = match c st with
    | (Val (Some sc, err), st') => (Val (Some (f sc), err), st')
    | (Val (None, _), st') => (Panic, st')
    | (Panic, st') => (Panic, st')
    end.
Proof. unfold bind. by destruct (c st) as [[[[sc|] err]|] st']. Qed.

Lemma initClientOpts_frame client eo clientType version st :
  heap (initClientOpts W client eo clientType version st).2 = heap st
  ∧ requests (trace (initClientOpts W client eo clientType version st).2)
    = requests (trace st).
Proof.
  rewrite initClientOpts_cases. cbn zeta.
  destruct (_ && _); [done|].
  destruct (heap st !! client ≫= EndpointLocator) as [l|]; [|done].
  destruct (apply_locator W l _); cbn; by rewrite requests_app, app_nil_r.
Qed.

(** X16. A version in the caller's options equal to the major version of the
    service changes nothing: the call runs as with no version given, and in
    both cases the endpoint locator is asked for the major version of the
    service. *)
Theorem matching_version_is_accepted client eo clientType version st :
  eoVersion eo = version →
  initClientOpts W client eo clientType version st
  = initClientOpts W client (with_Version 0 eo) clientType version st
  ∧ ∀ url st',
      initClientOpts W client eo clientType version st
      = (Val (Some {| scProviderClient := Some client; scEndpoint := url;
                      scResourceBase := ""; scType := clientType;
                      scMoreHeaders := None |}, None), st') →
      ∃ l, heap st !! client ≫= EndpointLocator = Some l
           ∧ apply_locator W l
               (with_Version version (ApplyDefaults clientType eo)) = Ok url.
Proof.
  intros Hv. rewrite !initClientOpts_cases. cbn zeta.
  cbn [with_Version eoVersion]. rewrite Hv.
  rewrite (bool_decide_false (version ≠ version)) by (intros ?; done).
  rewrite (bool_decide_false (0%Z ≠ 0%Z)) by (intros ?; done).
  rewrite !andb_false_r. cbn [andb]. split; [done|].
  intros url st' H.
  destruct (heap st !! client ≫= EndpointLocator) as [l|]; [|done].
  exists l. split; [done|].
  destruct (apply_locator W l _); by simplify_eq.
Qed.

(** X17. Each constructor returns when, and only when, [initClientOpts] does for
    the service type and major version of its entry, with the same error and
    in the same state. It changes neither the provider, nor the endpoint,
    nor the type of the client it received, and it touches at most one of
    [ResourceBase] and [MoreHeaders]. No constructor sends a request or
    changes a provider client. *)
Theorem constructors_follow_initClientOpts clientID :
  Forall (λ entry : (loc → EndpointOpts → M Constructed) * (string * Z),
            ∀ client eo st,
              let init :=
                initClientOpts W client eo entry.2.1 entry.2.2 st in
              let made := entry.1 client eo st in
              made.2 = init.2
              ∧ heap made.2 = heap st
              ∧ requests (trace made.2) = requests (trace st)
              ∧ match init.1 with
                | Val (Some sc, err) =>
                    ∃ sc', made.1 = Val (Some sc', err)
                      ∧ scProviderClient sc' = scProviderClient sc
                      ∧ scEndpoint sc' = scEndpoint sc
                      ∧ scType sc' = scType sc
                      ∧ (scResourceBase sc' = scResourceBase sc
                         ∨ scMoreHeaders sc' = scMoreHeaders sc)
                | _ => made.1 = Panic
                end)
    (typed_constructors W clientID).
Proof.
  unfold typed_constructors.
  repeat first [apply List.Forall_nil|apply List.Forall_cons].
  all: intros client eo st; cbn [fst snd];
    unfold NewBareMetalV1, NewBareMetalIntrospectionV1, NewObjectStorageV1,
      NewComputeV2, NewNetworkV2, NewBlockStorageV1, NewBlockStorageV2,
      NewBlockStorageV3, NewSharedFileSystemV2, NewOrchestrationV1, NewDBV1,
      NewDNSV2, NewImageV2, NewLoadBalancerV2, NewMessagingV2, NewContainerV1,
      NewKeyManagerV1, NewContainerInfraV1, NewWorkflowV2, NewPlacementV1;
    rewrite ?bind_update_through;
    match goal with
    | |- context [initClientOpts W client eo ?t ?v st] =>
        pose proof (initClientOpts_frame client eo t v st) as [Hh Ht];
        pose proof (initClientOpts_pointer client eo t v st) as Hp;
        destruct (initClientOpts W client eo t v st)
          as [[[[sc|] err]|] st'] eqn:E
    end; cbn [fst snd] in *; try done;
    (split; [done|]); (split; [done|]); (split; [done|]);
    eexists; (split; [done|]);
    try match goal with
        | |- context [if ?b then _ else _] => destruct b
        end; cbn; eauto 10.
Qed.

(** X18. [NewBareMetalV1] leaves [ResourceBase] empty exactly when the endpoint
    ends in ["v1"] or in ["v1/"]; otherwise [ResourceBase] is the endpoint
    followed by ["v1/"]. *)
Theorem NewBareMetalV1_ResourceBase client eo st sc st' :
  NewBareMetalV1 W client eo st = (Val (Some sc, None), st') →
  ((∃ p, scEndpoint sc = p +:+ "v1" ∨ scEndpoint sc = p +:+ "v1/")
   → scResourceBase sc = "")
  ∧ (¬ (∃ p, scEndpoint sc = p +:+ "v1" ∨ scEndpoint sc = p +:+ "v1/")
     → scResourceBase sc = scEndpoint sc +:+ "v1/").
Proof.
  rewrite NewBareMetalV1_cases, initClientOpts_cases. cbn zeta.
  assert (∀ url,
            Strings.HasSuffix (Strings.TrimSuffix url "/") "v1" = true
            ↔ ∃ p, url = p +:+ "v1" ∨ url = p +:+ "v1/") as Hsuf.
  { intros url. rewrite HasSuffix_iff. split.
    - intros [p Hp].
      destruct (TrimSuffix_cases url "/") as [[Heq _]|Heq].
      + exists p. left. congruence.
      + exists p. right. rewrite Heq, Hp. apply append_assoc.
    - intros [p [->| ->]].
      + destruct (TrimSuffix_cases (p +:+ "v1") "/") as [[-> _]|Heq];
          [by exists p|].
        exfalso. change "v1" with ("v" +:+ "1") in Heq at 1.
        rewrite <- append_assoc in Heq.
        by apply append_last_inj in Heq.
      + exists p. replace (p +:+ "v1/") with ((p +:+ "v1") +:+ "/")
          by apply append_assoc.
        by rewrite TrimSuffix_app. }
  destruct (_ && _); [done|].
  destruct (heap st !! client ≫= EndpointLocator) as [l|]; [|done].
  destruct (apply_locator W l _) as [url|e]; [|done].
  intros H. simplify_eq. cbn [scEndpoint].
  destruct (Strings.HasSuffix (Strings.TrimSuffix url "/") "v1") eqn:E; cbn.
  - split; [done|]. intros Hn. destruct Hn. by apply Hsuf.
  - split; [|done]. intros Hp%Hsuf. congruence.
Qed.

(** X19. [NewLoadBalancerV2] ends [ResourceBase] in exactly one version segment
    in the two usual cases: an endpoint that does not mention ["v2.0/"] gets
    it appended, and an endpoint that ends in its only ["v2.0/"] is taken as
    it is, where [NewNetworkV2] would append the segment a second time. *)
Theorem NewLoadBalancerV2_ResourceBase client eo st sc st' :
  NewLoadBalancerV2 W client eo st = (Val (Some sc, None), st') →
  (Strings.Contains (scEndpoint sc) "v2.0/" = false →
   scResourceBase sc = scEndpoint sc +:+ "v2.0/")
  ∧ (∀ p, Strings.Contains p "v2.0/" = false →
          scEndpoint sc = p +:+ "v2.0/" →
          scResourceBase sc = scEndpoint sc).
Proof.
  unfold NewLoadBalancerV2. rewrite bind_update_through.
  destruct (initClientOpts W client eo "load-balancer" 2 st)
    as [[[[sc0|] err]|] st0]; [|done..].
  intros H. simplify_eq. cbn. split.
  - intros Hc. by rewrite ReplaceAll_absent.
  - intros p Hc ->. by rewrite ReplaceAll_trailing_version.
Qed.

(** ** Panics *)

Ltac no_panic :=
  specialize_outcomes; try congruence;
  match goal with
  | H : _ !! ?p = None, Hc : _ !! ?p = Some _ |- _ =>
      apply lookup_ge_None in H; apply lookup_lt_Some in Hc;
      repeat first [rewrite length_insert in H|rewrite length_app in H];
      cbn in *; lia
  end.

Lemma NewIdentityV2_panic client eo st st' :
  NewIdentityV2 W client eo st = (Panic, st') →
  st' = st
  ∧ (heap st !! client = None
     ∨ (eo ≠ EndpointOpts_zero
        ∧ heap st !! client ≫= EndpointLocator = None)).
Proof.
  unfold NewIdentityV2, call_EndpointLocator. intros H.
  destruct st as [h t].
  repeat run_step; specialize_outcomes; cbn in *; simplify_eq.
  all: try (split; [done|by left]).
  split; [done|]. right. split; [done|].
  match goal with Hx : _ !! client = Some _ |- _ => by rewrite Hx end.
Qed.

Lemma v3_acquire_no_panic client sc opts st st' c :
  heap st !! client = Some c →
  v3_acquire W client sc opts st ≠ (Panic, st').
Proof.
  intros Hc H.
  unfold v3_acquire, SetToken, SetTokenAndAuthResult in H.
  destruct st as [h t]. cbn in Hc.
  repeat run_step; no_panic.
Qed.

Lemma v3auth_panic client endpoint opts eo st st' :
  v3auth W client endpoint opts eo st = (Panic, st') →
  st' = st
  ∧ (heap st !! client = None
     ∨ (eo ≠ EndpointOpts_zero
        ∧ heap st !! client ≫= EndpointLocator = None)).
Proof.
  unfold v3auth. intros H.
  apply bind_inv in H as [(r & st1 & HN & H)|[HN _]];
    [|by apply NewIdentityV3_panic].
  exfalso.
  apply NewIdentityV3_trace in HN as (l & -> & _ & _ & Hsc).
  destruct r as [v3Client|e]; [|by unfold ret in H].
  destruct (Hsc _ eq_refl) as [c Hc].
  apply bind_inv in H as [(r & st2 & HA & H)|[HA _]];
    [|by eapply (v3_acquire_no_panic _ _ _ _ _ c) in HA].
  destruct r as [catalog|e]; [|by unfold ret in H].
  apply v3_acquire_inv in HA as [[_ Hno]|(c0 & _ & _ & (t & r & Hh) & _)];
    [by edestruct Hno|]. cbn in Hc, Hh.
  assert (heap st2 !! client = Some (set_token t r c0)) as Hc1
    by (rewrite Hh; apply list_lookup_insert_eq; by eapply lookup_lt_Some).
  unfold bind in H. rewrite (v3_install_reauth_eq _ _ _ _ _ _ Hc1) in H.
  destruct (CanReauth3 W opts).
  - erewrite modify_eq in H; [by unfold ret in H|].
    cbn. apply list_lookup_insert_eq. rewrite length_app.
    apply lookup_lt_Some in Hc1. lia.
  - erewrite modify_eq in H by done. by unfold ret in H.
Qed.

Lemma NewIdentityV2_live client eo st r st' :
  NewIdentityV2 W client eo st = (Val r, st') → is_Some (heap st !! client).
Proof.
  unfold NewIdentityV2. intros H.
  apply bind_inv in H as [(c & st1 & Hd & _)|[_ ?]]; [|done].
  apply deref_inv in Hd as (_ & Hc & _). eauto.
Qed.

Lemma v2auth_panic client endpoint options eo st st' :
  v2auth W client endpoint options eo st = (Panic, st') →
  st' = st
  ∧ (heap st !! client = None
     ∨ (eo ≠ EndpointOpts_zero
        ∧ heap st !! client ≫= EndpointLocator = None)).
Proof.
  unfold v2auth. intros H.
  apply bind_inv in H as [(r & st1 & HN & H)|[HN _]];
    [|by apply NewIdentityV2_panic].
  exfalso.
  destruct (NewIdentityV2_live _ _ _ _ _ HN) as [c Hc].
  apply NewIdentityV2_trace in HN as (l & -> & _ & _).
  destruct r as [v2Client|e]; [|by unfold ret in H].
  unfold SetTokenAndAuthResult in H.
  repeat run_step; try no_panic.
  all: match goal with
       | Hi : v2_install_reauth _ _ _ _ _ _ = _ |- _ =>
           erewrite v2_install_reauth_eq in Hi
             by (cbn; apply list_lookup_insert_eq; by eapply lookup_lt_Some);
           destruct (CanReauth2 W options); simplify_eq; cbn in *
       end; no_panic.
Qed.

(** X20. With options that are not nil, [v3auth] and [v2auth] panic in two
    situations only: the provider pointer is dangling, or the caller gave
    endpoint options of its own and the provider has no endpoint locator
    yet, so that a nil function would be called. In both the panic comes
    from building the identity service client, before the options are
    looked at: whatever the options, the call panics there, and nothing has
    happened. *)
Theorem authentication_panics_only_without_locator :
  (∀ client endpoint opts eo st,
     (heap st !! client = None
      ∨ (eo ≠ EndpointOpts_zero
         ∧ heap st !! client ≫= EndpointLocator = None) →
      v3auth W client endpoint opts eo st = (Panic, st))
     ∧ ((v3auth W client endpoint opts eo st).1 = Panic →
        heap st !! client = None
        ∨ (eo ≠ EndpointOpts_zero
           ∧ heap st !! client ≫= EndpointLocator = None)))
  ∧
  (∀ client endpoint options eo st,
     (heap st !! client = None
      ∨ (eo ≠ EndpointOpts_zero
         ∧ heap st !! client ≫= EndpointLocator = None) →
      v2auth W client endpoint options eo st = (Panic, st))
     ∧ ((v2auth W client endpoint options eo st).1 = Panic →
        heap st !! client = None
        ∨ (eo ≠ EndpointOpts_zero
           ∧ heap st !! client ≫= EndpointLocator = None))).
Proof.
  split; intros client endpoint opts eo st; split.
  - intros Hp. unfold v3auth, bind, NewIdentityV3, bind, deref.
    destruct Hp as [->|[Hz Hl]]; [done|].
    destruct (heap st !! client) as [c|] eqn:E; [|done]. cbn in Hl.
    rewrite decide_False by done.
    unfold call_EndpointLocator, bind, deref. by rewrite E, Hl.
  - destruct (v3auth W client endpoint opts eo st) as [o st'] eqn:H.
    cbn. intros ->. by apply v3auth_panic in H as [_ ?].
  - intros Hp. unfold v2auth, bind, NewIdentityV2, bind, deref.
    destruct Hp as [->|[Hz Hl]]; [done|].
    destruct (heap st !! client) as [c|] eqn:E; [|done]. cbn in Hl.
    rewrite decide_False by done.
    unfold call_EndpointLocator, bind, deref. by rewrite E, Hl.
  - destruct (v2auth W client endpoint opts eo st) as [o st'] eqn:H.
    cbn. intros ->. by apply v2auth_panic in H as [_ ?].
Qed.

(** ** Authenticate and AuthenticatedClient *)

Lemma pick_in cs init b :
  foldl pick init cs = Some b → init = Some b ∨ b ∈ cs.
Proof.
  revert init. induction cs as [|a cs IH]; intros init H; cbn in H;
    [by left|].
  apply IH in H as [H|H]; [|right; by apply list_elem_of_further].
  unfold pick in H. destruct init as [b0|].
  - case_bool_decide; simplify_eq; [right; apply list_elem_of_here|by left].
  - simplify_eq. right. apply list_elem_of_here.
Qed.

Lemma candidates_recognized recognized doc v ep :
  (v, ep) ∈ candidates recognized doc → v ∈ recognized.
Proof.
  unfold candidates. rewrite !list_elem_of_In, in_flat_map.
  intros (entry & _ & Hin). apply in_map_iff in Hin as (v' & Heq & Hin).
  apply filter_In in Hin as [Hin _]. by simplify_eq.
Qed.

(** Every run of [ChooseVersion]: it leaves the provider clients alone,
    sends at most the one probe, and chooses among the recognised
    versions. *)
Lemma ChooseVersion_inv client recognized st o st' :
  ChooseVersion W client recognized st = (o, st') →
  heap st' = heap st
  ∧ (o = Panic → heap st !! client = None)
  ∧ (∀ v ep, o = Val (Ok (v, ep)) → v ∈ recognized)
  ∧ ∃ l, trace st' = trace st ++ l
         ∧ (length (requests l) ≤ 1)%nat
         ∧ ∀ c, heap st !! client = Some c →
                requests_through client (armed c) l.
Proof.
  unfold ChooseVersion, bind, deref.
  destruct (heap st !! client) as [c|] eqn:Hc.
  2:{ intros H. simplify_eq. repeat split; try done.
      exists []. rewrite app_nil_r. split; [done|]. split; [cbn; lia|done]. }
  destruct (List.find _ recognized) as [v|] eqn:Hf.
  { intros H. unfold ret in H. simplify_eq. repeat split; try done.
    - intros v' ep ?. simplify_eq. apply find_some in Hf as [Hin _].
      by apply list_elem_of_In.
    - exists []. rewrite app_nil_r. split; [done|]. split; [cbn; lia|].
      intros ? _. by apply requests_through_none. }
  cbn.
  assert (∀ o' : Outcome (Result (Version * string)),
            (∀ v ep, o' = Val (Ok (v, ep)) → v ∈ recognized) →
            o' ≠ Panic →
            (o', {| heap := heap st;
                    trace := trace st ++
                      [EvRequest client (armed c) (Discover (IdentityBase c))] |})
            = (o, st') →
            heap st' = heap st
            ∧ (o = Panic → Some c = None)
            ∧ (∀ v ep, o = Val (Ok (v, ep)) → v ∈ recognized)
            ∧ ∃ l, trace st' = trace st ++ l
                   ∧ (length (requests l) ≤ 1)%nat
                   ∧ ∀ c0, Some c = Some c0 →
                           requests_through client (armed c0) l) as Hgen.
  { intros o' Hrec Hnp H. simplify_eq. cbn. repeat split; try done.
    eexists. split; [done|]. split.
    - by apply (requests_snoc_length []).
    - intros ? ?. simplify_eq. by apply (requests_through_snoc _ _ []). }
  destruct (discovery W (trace st) (IdentityBase c)) as [doc|e];
    [|by apply Hgen].
  destruct (highest (candidates recognized doc)) as [choice|] eqn:Hh;
    [|by apply Hgen].
  apply Hgen; [|done]. intros v ep ?. simplify_eq.
  apply pick_in in Hh as [?|Hin]; [done|].
  by eapply candidates_recognized.
Qed.

Lemma Authenticate_switch_run client options chosen endpoint st o st' c :
  heap st !! client = Some c →
  Authenticate_switch W client options chosen endpoint st = (o, st') →
  o ≠ Panic
  ∧ (∀ q, q ≠ client → q < length (heap st) →
          heap st' !! q = heap st !! q)
  ∧ (∃ l, trace st' = trace st ++ l
          ∧ (length (requests l) ≤ 1)%nat
          ∧ requests_through client (armed c) l)
  ∧ ∃ c', heap st' !! client = Some c'
      ∧ IdentityBase c' = IdentityBase c
      ∧ IdentityEndpoint c' = IdentityEndpoint c
      ∧ Throwaway c' = Throwaway c
      ∧ tokenLock c' = tokenLock c
      ∧ (o = Val None →
         ∃ result,
           TokenID c' = arTokenID result
           ∧ authResult c' = Some result
           ∧ arErr result = None
           ∧ is_Some (EndpointLocator c')
           ∧ if aoAllowReauth options && replayable W (aoCredentials options)
             then ∃ f, ReauthFunc c' = Some f ∧ reauth_client f = client
                       ∧ reauth_tac f = length (heap st)
             else ReauthFunc c' = ReauthFunc c).
Proof.
  intros Hc H.
  assert (client < length (heap st)) as Hlt by (by eapply lookup_lt_Some).
  unfold Authenticate_switch in H.
  destruct (decide (ID chosen = v2)); [|destruct (decide (ID chosen = v3))].
  - split.
    { intros ->. apply v2auth_panic in H as [_ [?|[? _]]]; congruence. }
    apply v2auth_inv in H
      as (l & Hl & Hz & [[-> Ho]|(c0 & ep & Hc0 & Ht & Hrest)]);
      rewrite (Hz eq_refl) in *; clear Hz Hl; cbn [heap trace app] in *.
    { split; [done|]. split.
      - exists []. split; [done|]. split; [cbn; lia|].
        by apply requests_through_none.
      - exists c. by repeat split. }
    assert (c0 = c) as -> by congruence.
    assert (∃ l, trace st' = trace st ++ l
                 ∧ (length (requests l) ≤ 1)%nat
                 ∧ requests_through client (armed c) l) as Htrace.
    { eexists. split; [exact Ht|]. split.
      - by apply (requests_snoc_length []).
      - by apply (requests_through_snoc _ _ []). }
    destruct Hrest as [[Ho (t & r & Hh)]|(-> & He & cat & Hcat & Hh)];
      rewrite Hh.
    + split; [intros q ? ?; by apply list_lookup_insert_ne|].
      split; [done|]. exists (set_token t r c).
      rewrite list_lookup_insert_eq by done. by repeat split.
    + split; [intros q ? ?; by apply lookup_elsewhere|].
      split; [done|]. eexists. rewrite lookup_written by done.
      split; [done|]. unfold v2_authenticated. cbn [CanReauth2].
      destruct (aoAllowReauth options && replayable W (aoCredentials options));
        (do 4 (split; [done|])); intros _; eexists;
        (do 4 (split; [done|])); cbn; eauto.
  - split.
    { intros ->. apply v3auth_panic in H as [_ [?|[? _]]]; congruence. }
    apply v3auth_inv in H
      as (l & Hl & Hz & [[-> Ho]|(c0 & ep & Hc0 & Ht & Hrest)]);
      rewrite (Hz eq_refl) in *; clear Hz Hl; cbn [heap trace app] in *.
    { split; [done|]. split.
      - exists []. split; [done|]. split; [cbn; lia|].
        by apply requests_through_none.
      - exists c. by repeat split. }
    assert (c0 = c) as -> by congruence.
    assert (∃ l, trace st' = trace st ++ l
                 ∧ (length (requests l) ≤ 1)%nat
                 ∧ requests_through client (armed c) l) as Htrace.
    { eexists. split; [exact Ht|]. split.
      - by apply (requests_snoc_length []).
      - by apply (requests_through_snoc _ _ []). }
    destruct Hrest as [[Ho (t & r & Hh)]|(-> & He & cat & Hcat & Hh)];
      rewrite Hh.
    + split; [intros q ? ?; by apply list_lookup_insert_ne|].
      split; [done|]. exists (set_token t r c).
      rewrite list_lookup_insert_eq by done. by repeat split.
    + split; [intros q ? ?; by apply lookup_elsewhere|].
      split; [done|]. eexists. rewrite lookup_written by done.
      split; [done|]. unfold v3_authenticated. cbn [CanReauth3].
      destruct (aoAllowReauth options && replayable W (aoCredentials options));
        (do 4 (split; [done|])); intros _; eexists;
        (do 4 (split; [done|])); cbn; eauto.
  - unfold ret in H. simplify_eq. split; [done|]. split; [done|]. split.
    + exists []. rewrite app_nil_r. split; [done|]. split; [cbn; lia|].
      by apply requests_through_none.
    + exists c. by repeat split.
Qed.

(** X21. The [default] branch of the switch in [Authenticate] cannot be reached:
    the version that [ChooseVersion] chooses among the two of the
    [versions] list is always one the switch has a case for. So
    [Authenticate] returns the error of [ChooseVersion], or runs [v2auth] or
    [v3auth] against the chosen endpoint with empty endpoint options, and
    never returns the "unrecognized identity version" error. *)
Theorem Authenticate_switch_is_exhaustive client options st :
  Authenticate W client options st
  = match ChooseVersion W client versions st with
    | (Val (Ok (chosen, endpoint)), st0) =>
        if decide (ID chosen = v2)
        then v2auth W client endpoint (B2AuthOptions options)
               EndpointOpts_zero st0
        else v3auth W client endpoint (B3AuthOptions options)
               EndpointOpts_zero st0
    | (Val (Err e), st0) => (Val (Some e), st0)
    | (Panic, st0) => (Panic, st0)
    end.
Proof.
  unfold Authenticate, bind.
  destruct (ChooseVersion W client versions st) as [r st0] eqn:HC.
  apply ChooseVersion_inv in HC as (_ & _ & Hrec & _).
  destruct r as [[[chosen endpoint]|e]|]; [|done..].
  specialize (Hrec _ _ eq_refl). unfold Authenticate_switch.
  destruct (decide (ID chosen = v2)); [done|].
  rewrite decide_True; [done|].
  unfold versions in Hrec.
  apply elem_of_cons in Hrec as [->|Hrec]; [done|].
  apply elem_of_cons in Hrec as [->|Hrec]; [done|].
  by apply not_elem_of_nil in Hrec.
Qed.

(** Every run of [Authenticate] on a live provider. *)
Lemma Authenticate_run client options st o st' c :
  heap st !! client = Some c →
  Authenticate W client options st = (o, st') →
  o ≠ Panic
  ∧ (∀ q, q ≠ client → q < length (heap st) →
          heap st' !! q = heap st !! q)
  ∧ (∃ l, trace st' = trace st ++ l
          ∧ (length (requests l) ≤ 2)%nat
          ∧ requests_through client (armed c) l)
  ∧ ∃ c', heap st' !! client = Some c'
      ∧ IdentityBase c' = IdentityBase c
      ∧ IdentityEndpoint c' = IdentityEndpoint c
      ∧ Throwaway c' = Throwaway c
      ∧ tokenLock c' = tokenLock c
      ∧ (o = Val None →
         ∃ result,
           TokenID c' = arTokenID result
           ∧ authResult c' = Some result
           ∧ arErr result = None
           ∧ is_Some (EndpointLocator c')
           ∧ if aoAllowReauth options && replayable W (aoCredentials options)
             then ∃ f, ReauthFunc c' = Some f ∧ reauth_client f = client
                       ∧ reauth_tac f = length (heap st)
             else ReauthFunc c' = ReauthFunc c).
Proof.
  intros Hc H. unfold Authenticate in H.
  apply bind_inv in H as [(r & st0 & HC & H)|[HC ->]];
    apply ChooseVersion_inv in HC
      as (Hh & Hp & _ & l0 & Ht0 & Hn0 & Hq0).
  2:{ rewrite Hp in Hc; done. }
  specialize (Hq0 _ Hc).
  destruct r as [[chosen endpoint]|e].
  - rewrite <- Hh in Hc.
    destruct (Authenticate_switch_run _ _ _ _ _ _ _ _ Hc H)
      as (Hnp & Hother & (l1 & Ht1 & Hn1 & Hq1) & Hcell).
    rewrite Hh in *. split; [done|]. split; [done|]. split; [|done].
    exists (l0 ++ l1). rewrite Ht1, Ht0, app_assoc, requests_app, length_app.
    split; [done|]. split; [lia|]. by apply requests_through_app.
  - unfold ret in H. simplify_eq. rewrite Hh. split; [done|].
    split; [done|]. split.
    + exists l0. split; [done|]. split; [lia|done].
    + exists c. by repeat split.
Qed.

(** X22. On a live provider that has no callback, [Authenticate] always
    returns. It sends at most two requests, the probe of the versions and
    the token request, both through that provider and with no callback
    armed, and it touches no other provider client that existed before the
    call. *)
Theorem Authenticate_two_requests_at_most client options st o st' c :
  heap st !! client = Some c →
  ReauthFunc c = None →
  Authenticate W client options st = (o, st') →
  o ≠ Panic
  ∧ (∀ q, q ≠ client → q < length (heap st) →
          heap st' !! q = heap st !! q)
  ∧ ∃ l, trace st' = trace st ++ l
         ∧ (length (requests l) ≤ 2)%nat
         ∧ requests_through client false l.
Proof.
  intros Hc Hu H.
  destruct (Authenticate_run _ _ _ _ _ _ Hc H) as (? & ? & Ht & _).
  replace false with (armed c) by (unfold armed; by rewrite Hu).
  done.
Qed.

(** X23. [AuthenticatedClient] always returns. A provider it returns is a new
    one, created by this call: it holds the token and the result of one
    response of the identity service, has an endpoint locator, is not a
    throw-away client, and has a reauthentication callback exactly when the
    options allow reauthentication. Whatever the outcome, the providers that
    existed before are as they were, and at most two requests have been
    sent, through the new provider and with no callback armed. An endpoint
    of which no base can be taken is answered before anything is created. *)
Theorem AuthenticatedClient_returns_a_new_provider options st o st' :
  AuthenticatedClient W options st = (o, st') →
  o ≠ Panic
  ∧ (∀ q x, heap st !! q = Some x → heap st' !! q = Some x)
  ∧ (∃ l, trace st' = trace st ++ l
          ∧ (length (requests l) ≤ 2)%nat
          ∧ requests_through (length (heap st)) false l)
  ∧ (∀ e, BaseEndpoint W (aoIdentityEndpoint options) = Err e →
          o = Val (Err e) ∧ st' = st)
  ∧ ∀ p, o = Val (Ok p) →
      p = length (heap st)
      ∧ ∃ c result,
          heap st' !! p = Some c
          ∧ TokenID c = arTokenID result
          ∧ authResult c = Some result
          ∧ arErr result = None
          ∧ is_Some (EndpointLocator c)
          ∧ Throwaway c = false
          ∧ (is_Some (ReauthFunc c)
             ↔ aoAllowReauth options && replayable W (aoCredentials options)
               = true).
Proof.
  unfold AuthenticatedClient, NewClient. intros H.
  destruct (BaseEndpoint W (aoIdentityEndpoint options)) as [base|e] eqn:HB.
  2:{ unfold bind, ret in H. simplify_eq. split; [done|]. split; [done|].
      split; [|split; [by intros ? [= ->]|done]].
      exists []. rewrite app_nil_r. split; [done|]. split; [cbn; lia|].
      by apply requests_through_none. }
  apply bind_inv in H as [(r & st1 & HN & H)|[HN _]];
    unfold bind, alloc, ret in HN; [|done]. simplify_eq. cbv beta iota in H.
  set (fresh := {| IdentityBase := NormalizeURL W base;
                   IdentityEndpoint :=
                     NormalizeURL W (aoIdentityEndpoint options);
                   TokenID := ""; authResult := None;
                   EndpointLocator := None; ReauthFunc := None;
                   Throwaway := false; tokenLock := true |}) in *.
  set (st1 := {| heap := heap st ++ [fresh]; trace := trace st |}) in *.
  assert (heap st1 !! length (heap st) = Some fresh) as Hc
    by apply lookup_fresh.
  apply bind_inv in H as [(err & st2 & HA & H)|[HA ->]];
    destruct (Authenticate_run _ _ _ _ _ _ Hc HA)
      as (Hnp & Hother & Htrace & c' & Hc' & _ & _ & Hthrow & _ & Hok);
    [|done].
  assert (∀ q x, heap st !! q = Some x → heap st2 !! q = Some x) as Hold.
  { intros q x Hq. pose proof (lookup_lt_Some _ _ _ Hq).
    rewrite Hother; cbn; rewrite ?length_app; cbn; [|lia..].
    by apply lookup_app_l_Some. }
  destruct err as [e|]; unfold ret in H; simplify_eq;
    (split; [done|]); (split; [done|]); (split; [done|]);
    (split; [done|]); intros p ?; simplify_eq.
  split; [done|].
  destruct (Hok eq_refl) as (result & Htok & Hres & He & Hloc & Hre).
  exists c', result. do 5 (split; [done|]). split; [done|].
  destruct (aoAllowReauth options && replayable W (aoCredentials options)).
  - destruct Hre as (f & -> & _). by split.
  - rewrite Hre. cbn. split; [by intros [? ?]|done].
Qed.

End Authentication.

(** * The theorems at concrete inputs *)

#[local] Open Scope list_scope.


(** The same options with endpoint options on a provider that has not
    logged in: there is no endpoint locator to call, and the call panics
    before it looks at the options. *)
Example v3auth_passthrough_reauth_without_locator :
  Openstack.v3auth Samples.cloud 0 ""
    (Openstack.B3AuthOptions Samples.passthrough_reauth)
    Samples.region_two Samples.start
  = (Openstack.Panic, Samples.start).
Proof. vm_compute. reflexivity. Qed.


(** Once the credentials are revoked, the callback hands back the error of
    the identity service and the live provider keeps what it had. *)
Lemma reauth_copies_token_only_on_success_witness :
  Openstack.call_ReauthFunc Samples.cloud_revoked Samples.callback
    Samples.logged_in
  = (Openstack.Val (Some "Authentication failed"),
     (Openstack.inner_auth Samples.cloud_revoked Samples.callback
        Samples.logged_in).2)
  ∧ Openstack.heap
      (Openstack.inner_auth Samples.cloud_revoked Samples.callback
         Samples.logged_in).2 !! 0
    = Openstack.heap Samples.logged_in !! 0.
Proof.
  pose proof (reauth_copies_token_only_on_success Samples.cloud_revoked
                Samples.callback Samples.logged_in
                (Openstack.v3_authenticated Samples.cloud 0 1 ""
                   (Openstack.B3AuthOptions Samples.password)
                   Gophercloud.EndpointOpts_zero (Samples.issued 0)
                   Samples.catalog Samples.provider)
                ltac:(vm_compute; lia) ltac:(vm_compute; reflexivity)) as H.
  vm_compute in H. vm_compute. exact H.
Defined.

(** C2, at options of a type outside the four built-in ones. [v3auth]
    installs a callback whose options still report [CanReauth() == true];
    the first invocation of the callback goes through a throw-away client
    without callback and leaves that client with a callback of its own; the
    request of the second invocation then goes out through the throw-away
    client with a callback armed. *)
Lemma v3auth_wrapped_options_rearm_throwaway :
  Openstack.v3auth Samples.cloud 0 "" Samples.wrapped
    Gophercloud.EndpointOpts_zero Samples.start
  = (Openstack.Val None, Samples.logged_in_wrapped)
  ∧ Openstack.heap Samples.logged_in_wrapped !! 0 ≫= Openstack.ReauthFunc
    = Some Samples.callback_wrapped
  ∧ Openstack.inner_CanReauth Samples.cloud Samples.callback_wrapped = true
  ∧ Openstack.heap Samples.logged_in_wrapped !! 1 ≫= Openstack.ReauthFunc
    = None
  ∧ Openstack.call_ReauthFunc Samples.cloud Samples.callback_wrapped
      Samples.logged_in_wrapped
    = (Openstack.Val None, Samples.reauthenticated_wrapped)
  ∧ Openstack.heap Samples.reauthenticated_wrapped !! 1
      ≫= Openstack.ReauthFunc
    = Some (Openstack.ReauthV3 1 2 "" Samples.wrapped
              Gophercloud.EndpointOpts_zero)
  ∧ last (Openstack.trace
            (Openstack.call_ReauthFunc Samples.cloud_revoked
               Samples.callback_wrapped Samples.reauthenticated_wrapped).2)
    = Some (Openstack.EvRequest 1 true
              (Openstack.Tokens3Create "https://cloud.example/v3/"
                 Samples.wrapped)).
Proof. vm_compute. done. Qed.

(** C4 fails as stated: the discovery document of the sample cloud
    advertises both versions, but a provider created for the endpoint
    ["https://cloud.example/v2.0/"] is not probed: [ChooseVersion] takes the
    version of the suffix, and [Authenticate] goes on as [v2auth] against
    that endpoint. The comment on [AuthenticatedClient] in client.go says
    as much: the full path to a versioned identity endpoint "will be used
    as the endpoint to query". *)
Lemma Authenticate_versioned_endpoint_is_not_probed :
  ¬ (∀ (W : Openstack.World) client c doc h2 h3 st,
       Openstack.heap st !! client = Some c →
       Openstack.discovery W (Openstack.trace st) (Openstack.IdentityBase c)
       = Gophercloud.Ok doc →
       Openstack.endpoint_for Openstack.version2 doc = Some h2 →
       Openstack.endpoint_for Openstack.version3 doc = Some h3 →
       ∃ endpoint st0,
         Openstack.ChooseVersion W client Openstack.versions st
         = (Openstack.Val (Gophercloud.Ok (Openstack.version3, endpoint)),
            st0))
  ∧ Openstack.Authenticate Samples.cloud 0 Samples.password Samples.start_v2
    = Openstack.v2auth Samples.cloud 0 "https://cloud.example/v2.0/"
        (Openstack.B2AuthOptions Samples.password)
        Gophercloud.EndpointOpts_zero Samples.start_v2.
Proof.
  split; [|vm_compute; reflexivity].
  intros H.
  destruct (H Samples.cloud 0 Samples.provider_v2
              [ ("v2.0", "https://cloud.example/v2.0/");
                ("v3.14", "https://cloud.example/v3/") ]
              "https://cloud.example/v2.0/" "https://cloud.example/v3/"
              Samples.start_v2 eq_refl eq_refl eq_refl eq_refl)
    as (endpoint & st0 & E).
  vm_compute in E. discriminate E.
Qed.

(** The sample cloud advertises v2.0 and v3.14: [Authenticate] goes on as
    [v3auth] against the v3 endpoint. *)
Lemma Authenticate_prefers_v3_witness :
  Openstack.Authenticate Samples.cloud 0 Samples.password Samples.start
  = Openstack.v3auth Samples.cloud 0 "https://cloud.example/v3/"
      (Openstack.B3AuthOptions Samples.password)
      Gophercloud.EndpointOpts_zero
      (Openstack.probed 0 Samples.provider Samples.start).
Proof.
  refine (proj1 (proj2 (proj2
    (Authenticate_prefers_v3 Samples.cloud 0 Samples.password
       Samples.provider
       [ ("v2.0", "https://cloud.example/v2.0/");
         ("v3.14", "https://cloud.example/v3/") ]
       "https://cloud.example/v2.0/" "https://cloud.example/v3/"
       Samples.start _ _ _ _ _)))); reflexivity.
Defined.


(** A network client asked for with major version 3. *)
Lemma configuration_errors_are_immediate_witness :
  Openstack.initClientOpts Samples.cloud 0 Samples.version_three "network" 2
    Samples.started
  = (Openstack.Val (Some Gophercloud.ServiceClient_zero,
                    Some Openstack.conflict), Samples.started).
Proof.
  refine (proj1 (configuration_errors_are_immediate Samples.cloud)
            0 Samples.version_three "network" 2%Z Samples.started _ _);
    cbn; lia.
Defined.

(** The same request through [NewNetworkV2]: the conflict comes back with a
    client whose [ResourceBase] is ["v2.0/"]. *)
Lemma initClientOpts_never_nil_witness :
  ∃ sc',
    Some Gophercloud.ServiceClient_zero = Some sc'
    ∧ Openstack.NewNetworkV2 Samples.cloud 0 Samples.version_three
        Samples.started
      = (Openstack.Val
           (Some (Openstack.with_ResourceBase
                    (Gophercloud.scEndpoint sc' +:+ "v2.0/") sc'),
            Some Openstack.conflict), Samples.started)
    ∧ (is_Some (Some Openstack.conflict) →
       Openstack.with_ResourceBase (Gophercloud.scEndpoint sc' +:+ "v2.0/") sc'
       = Openstack.with_ResourceBase "v2.0/" Gophercloud.ServiceClient_zero).
Proof.
  refine (proj1 (proj2 (proj2 (proj2
    (initClientOpts_never_nil Samples.cloud 0 Samples.version_three
       "network" 2%Z Samples.started))))
    (Some Gophercloud.ServiceClient_zero) (Some Openstack.conflict)
    Samples.started _).
  reflexivity.
Defined.

(** An update conditional on revision 7. *)
Lemma Update_if_match_header_witness :
  ∃ r, Subnets.Update Samples.subnet_url Gophercloud.ServiceClient_zero
         "subnet-1" Samples.at_revision_7 = Subnets.UpdateSent r
       ∧ Subnets.putMoreHeaders r !! "If-Match" = Some "revision_number=7".
Proof.
  destruct (Update_if_match_header Samples.subnet_url
              Gophercloud.ServiceClient_zero "subnet-1" Samples.at_revision_7)
    as (r & Hr & Hn & _).
  exists r. split; [exact Hr|]. exact (Hn 7%Z eq_refl).
Defined.

(** A subnet created with an empty gateway address. *)
Lemma gateway_ip_null_when_empty_witness :
  ∃ b m, Subnets.ToSubnetCreateMap Samples.no_gateway = Subnets.Body b
         ∧ b = {[ "subnet" := Gophercloud.JObject m ]}
         ∧ m !! "gateway_ip" = Some Gophercloud.JNull.
Proof.
  pose proof (proj1 gateway_ip_null_when_empty Samples.no_gateway) as H.
  destruct (Subnets.ToSubnetCreateMap Samples.no_gateway) as [b|e|].
  - destruct H as (_ & m & Hb & Hg & _).
    exists b, m. split; [reflexivity|]. split; [exact Hb|].
    exact (Hg eq_refl).
  - discriminate H.
  - destruct H.
Defined.

(** ** The definitions at work *)

Example ReplaceAll_strips_version :
  Strings.ReplaceAll "https://cloud.example/load-balancer/v2.0/" "v2.0/" ""
  = "https://cloud.example/load-balancer/".
Proof. reflexivity. Qed.

Example TrimSuffix_slash :
  Strings.TrimSuffix "https://cloud.example/baremetal/v1/" "/"
  = "https://cloud.example/baremetal/v1".
Proof. reflexivity. Qed.

Example login_then_network_client :
  (Openstack.NewNetworkV2 Samples.cloud 0 Gophercloud.EndpointOpts_zero
     Samples.logged_in).1
  = Openstack.Val
      (Some {| Gophercloud.scProviderClient := Some 0;
               Gophercloud.scEndpoint := "https://cloud.example/network/";
               Gophercloud.scResourceBase :=
                 "https://cloud.example/network/v2.0/";
               Gophercloud.scType := "network";
               Gophercloud.scMoreHeaders := None |}, None).
Proof. vm_compute. reflexivity. Qed.

Example network_client_before_login_panics :
  (Openstack.NewNetworkV2 Samples.cloud 0 Gophercloud.EndpointOpts_zero
     Samples.start).1 = Openstack.Panic.
Proof. reflexivity. Qed.

Example reauthentication_replaces_token :
  Openstack.TokenID <$> Openstack.heap Samples.logged_in !! 0 = Some "token-0"
  ∧ Openstack.TokenID <$>
      Openstack.heap
        (Openstack.call_ReauthFunc Samples.cloud Samples.callback
           Samples.logged_in).2 !! 0
    = Some "token-1".
Proof. vm_compute. done. Qed.

Example AuthenticatedClient_on_sample_cloud :
  let run :=
    Openstack.AuthenticatedClient Samples.cloud Samples.password
      {| Openstack.heap := []; Openstack.trace := [] |} in
  run.1 = Openstack.Val (Gophercloud.Ok 0)
  ∧ Openstack.trace run.2
    = [ Openstack.EvRequest 0 false
          (Openstack.Discover "https://cloud.example/");
        Openstack.EvRequest 0 false
          (Openstack.Tokens3Create "https://cloud.example/v3/"
             (Openstack.B3AuthOptions Samples.password)) ]
  ∧ Openstack.TokenID <$> Openstack.heap run.2 !! 0 = Some "token-1".
Proof. vm_compute. done. Qed.

Example update_without_revision_has_no_header :
  ∃ r, Subnets.Update Samples.subnet_url Gophercloud.ServiceClient_zero
         "subnet-1"
         {| Subnets.uoName := None; Subnets.uoDescription := None;
            Subnets.uoAllocationPools := []; Subnets.uoGatewayIP := Some "";
            Subnets.uoDNSNameservers := None;
            Subnets.uoDNSPublishFixedIP := None;
            Subnets.uoServiceTypes := None; Subnets.uoHostRoutes := None;
            Subnets.uoEnableDHCP := None; Subnets.uoRevisionNumber := None;
            Subnets.uoSegmentID := None |}
       = Subnets.UpdateSent r
       ∧ Subnets.putMoreHeaders r = ∅
       ∧ Subnets.putBody r
         = {[ "subnet" :=
                Gophercloud.JObject {[ "gateway_ip" := Gophercloud.JNull ]} ]}.
Proof. eexists. split; [reflexivity|]. split; reflexivity. Qed.

(** * The further properties at concrete inputs *)

Section FurtherWitnesses.
Import Gophercloud Openstack Samples.

(** The identity client of a fresh provider. *)
Lemma NewIdentityV3_endpoint_ends_in_v3_witness :
  Strings.HasSuffix
    (scEndpoint (identity_client 0 "https://cloud.example/v3/")) "v3/" = true
  ∧ scProviderClient (identity_client 0 "https://cloud.example/v3/") = Some 0
  ∧ scType (identity_client 0 "https://cloud.example/v3/") = "identity"
  ∧ scResourceBase (identity_client 0 "https://cloud.example/v3/") = ""
  ∧ heap start = heap start.
Proof.
  refine (NewIdentityV3_endpoint_ends_in_v3 cloud 0 EndpointOpts_zero start
            (identity_client 0 "https://cloud.example/v3/") start _).
  vm_compute. reflexivity.
Defined.

Lemma NewIdentityV2_endpoint_verbatim_witness :
  ∃ c, heap start !! 0 = Some c
       ∧ (if decide (EndpointOpts_zero = EndpointOpts_zero)
          then scEndpoint (identity_client 0 "https://cloud.example/v2.0/")
               = IdentityBase c +:+ "v2.0/" ∧ start = start
          else ∃ l, EndpointLocator c = Some l
                    ∧ apply_locator cloud l
                        (ApplyDefaults "identity" EndpointOpts_zero)
                      = Ok (scEndpoint
                              (identity_client 0
                                 "https://cloud.example/v2.0/"))).
Proof.
  refine (NewIdentityV2_endpoint_verbatim cloud 0 EndpointOpts_zero start
            (identity_client 0 "https://cloud.example/v2.0/") start _).
  vm_compute. reflexivity.
Defined.

(** A login against an endpoint given by the caller. *)
Lemma explicit_endpoint_receives_the_request_witness :
  ∃ l, trace (v3auth cloud 0 "https://keystone.example/v3/"
                (B3AuthOptions password) EndpointOpts_zero start).2
       = trace start ++ l
       ∧ ∀ via a r, EvRequest via a r ∈ l →
                    via = 0 ∧ a = false
                    ∧ r = token_request "https://keystone.example/v3/"
                            (B3AuthOptions password).
Proof.
  refine (proj1 (explicit_endpoint_receives_the_request cloud)
            0 "https://keystone.example/v3/" (B3AuthOptions password)
            EndpointOpts_zero start
            (v3auth cloud 0 "https://keystone.example/v3/"
               (B3AuthOptions password) EndpointOpts_zero start).1
            (v3auth cloud 0 "https://keystone.example/v3/"
               (B3AuthOptions password) EndpointOpts_zero start).2
            provider _ _ _ _).
  - vm_compute. discriminate.
  - vm_compute. reflexivity.
  - vm_compute. reflexivity.
  - vm_compute. reflexivity.
Defined.

(** A login with revoked credentials. *)
Lemma failed_authentication_keeps_setup_witness :
  length (heap (v3auth cloud_revoked 0 "" (B3AuthOptions password)
                  EndpointOpts_zero start).2)
  = length (heap start)
  ∧ (∃ c', heap (v3auth cloud_revoked 0 "" (B3AuthOptions password)
                   EndpointOpts_zero start).2 !! 0 = Some c'
           ∧ same_setup provider c')
  ∧ ∀ q, q ≠ 0 →
         heap (v3auth cloud_revoked 0 "" (B3AuthOptions password)
                 EndpointOpts_zero start).2 !! q
         = heap start !! q.
Proof.
  refine (proj1 (failed_authentication_keeps_setup cloud_revoked)
            0 "" (B3AuthOptions password) EndpointOpts_zero start
            (v3auth cloud_revoked 0 "" (B3AuthOptions password)
               EndpointOpts_zero start).1
            (v3auth cloud_revoked 0 "" (B3AuthOptions password)
               EndpointOpts_zero start).2 provider _ _ _ _).
  - vm_compute. reflexivity.
  - vm_compute. discriminate.
  - vm_compute. reflexivity.
  - vm_compute. reflexivity.
Defined.

Lemma authentication_sends_one_request_witness :
  ∃ l, trace logged_in = trace start ++ l
       ∧ (length (requests l) ≤ 1)%nat
       ∧ (Val None = Val (@None error) → length (requests l) = 1%nat)
       ∧ requests_through 0 false l.
Proof.
  refine (proj1 (authentication_sends_one_request cloud)
            0 "" (B3AuthOptions password) EndpointOpts_zero start
            (Val None) logged_in provider _ _ _).
  - vm_compute. reflexivity.
  - vm_compute. reflexivity.
  - vm_compute. reflexivity.
Defined.

(** A login with a token and no reauthentication. *)
Lemma without_reauth_callback_is_left_alone_witness :
  length (heap (v3auth cloud 0 "" (B3AuthOptions token_only)
                  EndpointOpts_zero start).2)
  = length (heap start)
  ∧ ∃ c', heap (v3auth cloud 0 "" (B3AuthOptions token_only)
                  EndpointOpts_zero start).2 !! 0 = Some c'
          ∧ ReauthFunc c' = ReauthFunc provider.
Proof.
  refine (proj1 (without_reauth_callback_is_left_alone cloud)
            0 "" (B3AuthOptions token_only) EndpointOpts_zero start
            (v3auth cloud 0 "" (B3AuthOptions token_only)
               EndpointOpts_zero start).1
            (v3auth cloud 0 "" (B3AuthOptions token_only)
               EndpointOpts_zero start).2 provider _ _ _).
  - vm_compute. reflexivity.
  - vm_compute. reflexivity.
  - vm_compute. reflexivity.
Defined.

Lemma passthrough_is_a_lookup_witness :
  CanReauth3 cloud (B3AuthOptions token_only) = false
  ∧ ∃ history ep a result c',
      trace (v3auth cloud 0 "" (B3AuthOptions token_only)
               EndpointOpts_zero start).2
      = history ++
          [EvRequest 0 a
             (Tokens3Get ep
                (token_and_passthrough (B3AuthOptions token_only)).1)]
      ∧ requests history = requests (trace start)
      ∧ result
        = identity cloud history
            (Tokens3Get ep
               (token_and_passthrough (B3AuthOptions token_only)).1)
      ∧ heap (v3auth cloud 0 "" (B3AuthOptions token_only)
                EndpointOpts_zero start).2 !! 0 = Some c'
      ∧ TokenID c' = arTokenID result
      ∧ authResult c' = Some result
      ∧ ReauthFunc c' = ReauthFunc provider
      ∧ length (heap (v3auth cloud 0 "" (B3AuthOptions token_only)
                        EndpointOpts_zero start).2)
        = length (heap start).
Proof.
  refine (passthrough_is_a_lookup cloud 0 "" (B3AuthOptions token_only)
            EndpointOpts_zero start
            (v3auth cloud 0 "" (B3AuthOptions token_only)
               EndpointOpts_zero start).2 provider _ _ _).
  - vm_compute. reflexivity.
  - vm_compute. reflexivity.
  - vm_compute. reflexivity.
Defined.

(** After the password login, a network client asked for with the major
    version of the service gets the endpoint of the catalog. *)
Lemma authenticated_provider_resolves_endpoints_witness :
  ∃ c' result catalog,
    heap logged_in !! 0 = Some c'
    ∧ authResult c' = Some result
    ∧ ExtractServiceCatalog result = Ok catalog
    ∧ ∀ eo2 clientType version,
        eoVersion eo2 = 0%Z ∨ eoVersion eo2 = version →
        let eo' := with_Version version (ApplyDefaults clientType eo2) in
        initClientOpts cloud 0 eo2 clientType version logged_in
        = (match V3Endpoint cloud 0 catalog eo' with
           | Err e => Val (Some ServiceClient_zero, Some e)
           | Ok url =>
               Val (Some {| scProviderClient := Some 0;
                            scEndpoint := url; scResourceBase := "";
                            scType := clientType;
                            scMoreHeaders := None |}, None)
           end,
           {| heap := heap logged_in;
              trace := trace logged_in ++ [EvLocate 0 eo'] |}).
Proof.
  refine (proj1 (authenticated_provider_resolves_endpoints cloud)
            0 "" (B3AuthOptions password) EndpointOpts_zero start
            logged_in _).
  vm_compute. reflexivity.
Defined.

(** One reauthentication of the provider logged in with the password. *)
Lemma reauthentication_installs_the_fresh_token_witness :
  ∃ history a req c',
    trace (call_ReauthFunc cloud callback logged_in).2
    = history ++ [EvRequest (reauth_tac callback) a req]
    ∧ requests history = requests (trace logged_in)
    ∧ heap (call_ReauthFunc cloud callback logged_in).2
        !! reauth_client callback = Some c'
    ∧ TokenID c' = arTokenID (identity cloud history req)
    ∧ authResult c' = Some (identity cloud history req)
    ∧ same_setup
        (v3_authenticated cloud 0 1 "" (B3AuthOptions password)
           EndpointOpts_zero (issued 0) catalog provider) c'.
Proof.
  refine (reauthentication_installs_the_fresh_token cloud callback logged_in
            (call_ReauthFunc cloud callback logged_in).2
            (v3_authenticated cloud 0 1 "" (B3AuthOptions password)
               EndpointOpts_zero (issued 0) catalog provider) _ _ _).
  - vm_compute. lia.
  - vm_compute. reflexivity.
  - vm_compute. reflexivity.
Defined.

(** Three reauthentications in a row. *)
Lemma repeated_reauthentication_one_attempt_each_witness :
  reauth_ready cloud callback (reauth_times cloud 3 callback logged_in)
  ∧ ∃ l, trace (reauth_times cloud 3 callback logged_in)
         = trace logged_in ++ l
         ∧ (length (requests l) ≤ 3)%nat
         ∧ requests_through (reauth_tac callback) false l.
Proof.
  refine (repeated_reauthentication_one_attempt_each cloud 3 callback
            logged_in _).
  split; [vm_compute; lia|]. split; [|split].
  - eexists. split; vm_compute; reflexivity.
  - eexists. split; vm_compute; reflexivity.
  - vm_compute. reflexivity.
Defined.

Lemma installed_callback_is_ready_witness :
  reauth_ready cloud callback logged_in
  ∧ ∃ t, heap logged_in !! length (heap start) = Some t
         ∧ Throwaway t = true ∧ TokenID t = "" ∧ authResult t = None
         ∧ EndpointLocator t = EndpointLocator provider
         ∧ IdentityBase t = IdentityBase provider
         ∧ tokenLock t = tokenLock provider.
Proof.
  refine (proj1 (installed_callback_is_ready cloud)
            0 "" (B3AuthOptions password) EndpointOpts_zero start
            logged_in provider _ _ _ _).
  - vm_compute. reflexivity.
  - vm_compute. reflexivity.
  - intros b p. discriminate.
  - vm_compute. reflexivity.
Defined.

(** A network client asked for with major version 2. *)
Lemma matching_version_is_accepted_witness :
  initClientOpts cloud 0 version_two "network" 2 started
  = initClientOpts cloud 0 (with_Version 0 version_two) "network" 2 started.
Proof.
  refine (proj1 (matching_version_is_accepted cloud 0 version_two
                   "network" 2%Z started _)).
  vm_compute. reflexivity.
Defined.

(** A bare metal client on an endpoint that names no version. *)
Lemma NewBareMetalV1_ResourceBase_witness :
  NewBareMetalV1 cloud 0 as_network started
  = (Val (Some {| scProviderClient := Some 0;
                  scEndpoint := "https://cloud.example/network/";
                  scResourceBase := "https://cloud.example/network/v1/";
                  scType := "baremetal"; scMoreHeaders := None |}, None),
     (NewBareMetalV1 cloud 0 as_network started).2)
  ∧ ((∃ p, "https://cloud.example/network/" = p +:+ "v1"
           ∨ "https://cloud.example/network/" = p +:+ "v1/")
     → "https://cloud.example/network/v1/" = "")
  ∧ (¬ (∃ p, "https://cloud.example/network/" = p +:+ "v1"
             ∨ "https://cloud.example/network/" = p +:+ "v1/")
     → "https://cloud.example/network/v1/"
       = "https://cloud.example/network/" +:+ "v1/").
Proof.
  assert (NewBareMetalV1 cloud 0 as_network started
          = (Val (Some {| scProviderClient := Some 0;
                          scEndpoint := "https://cloud.example/network/";
                          scResourceBase := "https://cloud.example/network/v1/";
                          scType := "baremetal"; scMoreHeaders := None |},
                  None),
             (NewBareMetalV1 cloud 0 as_network started).2)) as H
    by (vm_compute; reflexivity).
  split; [exact H|].
  exact (NewBareMetalV1_ResourceBase cloud 0 as_network started _ _ H).
Defined.

(** A load balancer client on an endpoint that names no version. *)
Lemma NewLoadBalancerV2_ResourceBase_witness :
  ∃ sc, NewLoadBalancerV2 cloud 0 as_network started
        = (Val (Some sc, None),
           (NewLoadBalancerV2 cloud 0 as_network started).2)
        ∧ scEndpoint sc = "https://cloud.example/network/"
        ∧ scResourceBase sc = scEndpoint sc +:+ "v2.0/".
Proof.
  exists {| scProviderClient := Some 0;
            scEndpoint := "https://cloud.example/network/";
            scResourceBase := "https://cloud.example/network/v2.0/";
            scType := "load-balancer"; scMoreHeaders := None |}.
  assert (NewLoadBalancerV2 cloud 0 as_network started
          = (Val (Some {| scProviderClient := Some 0;
                          scEndpoint := "https://cloud.example/network/";
                          scResourceBase :=
                            "https://cloud.example/network/v2.0/";
                          scType := "load-balancer";
                          scMoreHeaders := None |}, None),
             (NewLoadBalancerV2 cloud 0 as_network started).2)) as H
    by (vm_compute; reflexivity).
  split; [exact H|]. split; [reflexivity|].
  refine (proj1 (NewLoadBalancerV2_ResourceBase cloud 0 as_network started
                   _ _ H) _).
  vm_compute. reflexivity.
Defined.

(** Endpoint options of its own on a provider that has not logged in. *)
Lemma authentication_panics_only_without_locator_witness :
  v3auth cloud 0 "" (B3AuthOptions password) region_two start
  = (Panic, start).
Proof.
  refine (proj1 (proj1 (authentication_panics_only_without_locator cloud)
                   0 "" (B3AuthOptions password) region_two start) _).
  right. split; [discriminate|vm_compute; reflexivity].
Defined.

Lemma Authenticate_two_requests_at_most_witness :
  (Authenticate cloud 0 password start).1 ≠ Panic
  ∧ (∀ q, q ≠ 0 → q < length (heap start) →
          heap (Authenticate cloud 0 password start).2 !! q
          = heap start !! q)
  ∧ ∃ l, trace (Authenticate cloud 0 password start).2 = trace start ++ l
         ∧ (length (requests l) ≤ 2)%nat
         ∧ requests_through 0 false l.
Proof.
  refine (Authenticate_two_requests_at_most cloud 0 password start
            (Authenticate cloud 0 password start).1
            (Authenticate cloud 0 password start).2 provider _ _ _).
  - vm_compute. reflexivity.
  - vm_compute. reflexivity.
  - vm_compute. reflexivity.
Defined.

(** A second provider, created and logged in next to the first. *)
Lemma AuthenticatedClient_returns_a_new_provider_witness :
  (AuthenticatedClient cloud password start).1 ≠ Panic
  ∧ (∀ q x, heap start !! q = Some x →
            heap (AuthenticatedClient cloud password start).2 !! q = Some x)
  ∧ (∃ l, trace (AuthenticatedClient cloud password start).2
          = trace start ++ l
          ∧ (length (requests l) ≤ 2)%nat
          ∧ requests_through (length (heap start)) false l)
  ∧ (∀ e, BaseEndpoint cloud (aoIdentityEndpoint password) = Err e →
          (AuthenticatedClient cloud password start).1 = Val (Err e)
          ∧ (AuthenticatedClient cloud password start).2 = start)
  ∧ ∀ p, (AuthenticatedClient cloud password start).1 = Val (Ok p) →
      p = length (heap start)
      ∧ ∃ c result,
          heap (AuthenticatedClient cloud password start).2 !! p = Some c
          ∧ TokenID c = arTokenID result
          ∧ authResult c = Some result
          ∧ arErr result = None
          ∧ is_Some (EndpointLocator c)
          ∧ Throwaway c = false
          ∧ (is_Some (ReauthFunc c)
             ↔ aoAllowReauth password
               && replayable cloud (aoCredentials password) = true).
Proof.
  refine (AuthenticatedClient_returns_a_new_provider cloud password start
            (AuthenticatedClient cloud password start).1
            (AuthenticatedClient cloud password start).2 _).
  vm_compute. reflexivity.
Defined.

(** A subnet created on network [net-1]. *)
Lemma Create_requires_network_id_witness :
  ∃ r, Subnets.Create subnets_url ServiceClient_zero no_gateway
       = Subnets.CreateSent r
       ∧ Subnets.postURL r = subnets_url ServiceClient_zero.
Proof.
  pose proof (Create_requires_network_id subnets_url ServiceClient_zero
                no_gateway) as H.
  destruct (Subnets.Create subnets_url ServiceClient_zero no_gateway)
    as [e| |r].
  - discriminate H.
  - destruct H.
  - exists r. split; [reflexivity|]. exact (proj1 (proj2 H)).
Defined.

(** The update at revision 7, and the same update without a revision. *)
Lemma revision_number_only_in_header_witness :
  ∃ r r',
    Subnets.Update subnet_url ServiceClient_zero "subnet-1" at_revision_7
    = Subnets.UpdateSent r
    ∧ Subnets.Update subnet_url ServiceClient_zero "subnet-1"
        (Subnets.with_RevisionNumber None at_revision_7)
      = Subnets.UpdateSent r'
    ∧ Subnets.putBody r' = Subnets.putBody r.
Proof.
  destruct (revision_number_only_in_header subnet_url ServiceClient_zero
              "subnet-1" at_revision_7 None)
    as (r & r' & m & H1 & H2 & H3 & _).
  exists r, r'. split; [exact H1|]. split; [exact H2|exact H3].
Defined.

(** The tail of [ToSubnetCreateMap] on a body with an empty gateway. *)
Lemma null_empty_gateway_on_any_body_witness :
  Subnets.null_empty_gateway
    (<["subnet" := JObject (<["gateway_ip" := JNull]>
                              {[ "gateway_ip" := JString "" ]})]>
       empty_gateway_body)
  = Some (<["subnet" := JObject (<["gateway_ip" := JNull]>
                                   {[ "gateway_ip" := JString "" ]})]>
            empty_gateway_body).
Proof.
  refine (proj1 (proj2 (null_empty_gateway_on_any_body empty_gateway_body)
                   _ _)).
  reflexivity.
Defined.

(** The header of an update at revision 7. *)
Lemma rewrite_if_match_only_if_match_witness :
  Subnets.rewrite_if_match {[ "If-Match" := "7" ]} !! "If-Match"
  = Some ("revision_number=" +:+ "7").
Proof.
  refine (proj1 (proj2 (rewrite_if_match_only_if_match
                          {[ "If-Match" := "7" ]})) "7" _).
  apply lookup_singleton_eq.
Defined.

End FurtherWitnesses.
